(** * Career Catalyst: resume analysis and job matching

    A shallow embedding of the parts of the platform that rank, select,
    parse and store scores:

    - [Js]: the JavaScript values and built-ins the sources rely on
      (numbers, [parseInt], [String.prototype.trim], [Array.prototype.sort]
      and [slice]);
    - [Jobs]: the institution page [project/src/pages/institution/Jobs.tsx]
      (ranking of the fetched matches, sort toggle, top-N selection, CSV);
    - [Dashboard]: the section parser of
      [project/src/pages/individualDashboard.tsx];
    - [Controller]: [backend-node/controllers/individualController.js]
      behind [backend-node/routes/individualRoutes.js];
    - [Engine]: the matching and scoring engine, which lives in the Flask
      back end and is modelled from the specification;
    - [Text], [JobForm]: the lines of a text, and the dialog, the check
      boxes and the long descriptions of [Jobs.tsx];
    - [Analyzer], [Markdown]: the file input, the two selects and
      [renderMarkdown] of [individualDashboard.tsx];
    - [Accounts]: [loginIndividual], [uploadPDF] and [deletePDF] of the
      controller;
    - [Csv]: a reader of comma-separated values, to read the exported file
      back;
    - sample data, then the facts proved about all of the above.

    Strings are sequences of code units below 256, except in the export
    of [Jobs.tsx], whose texts are taken in UTF-8, the encoding of the
    file; numbers sent over the wire are finite and are represented by
    the rational they denote. *)

From Stdlib Require Import QArith Qcanon Reals Lra Lia ZArith String Ascii List.
From Stdlib Require Import Sorting.Sorted Sorting.Permutation.
From stdpp Require Import gmap strings list fin_maps numbers pretty.

(* ================================================================== *)
(** * JavaScript values and built-ins                                   *)
(* ================================================================== *)

Module Js.

(** A JavaScript [number].  Finite doubles are represented by the
    rational they denote; comparison and the sign of a difference of two
    finite doubles agree with the rationals. *)
Inductive number : Type :=
| NaN
| Fin (q : Qc)
| PosInf
| NegInf.

Definition of_Z (z : Z) : Qc := Q2Qc (inject_Z z).

(** [a >= b] *)
Definition ge (a b : number) : bool :=
  match a, b with
  | NaN, _ | _, NaN => false
  | PosInf, _ => true
  | _, NegInf => true
  | NegInf, _ => false
  | Fin _, PosInf => false
  | Fin x, Fin y => bool_decide (y ≤ x)%Qc
  end.

(** Truncation toward zero of a finite number. *)
Definition trunc (q : Qc) : Z := Z.quot (Qnum q) (Z.pos (Qden q)).

(** [Math.round]: the integer nearest to [q], ties toward +infinity. *)
Definition round (q : Qc) : Z :=
  Z.div (2 * Qnum q + Z.pos (Qden q)) (2 * Z.pos (Qden q)).

(** ** Arrays *)

(** [Array.prototype.slice(0, end)] on an array of length [len]: the
    relative end is [ToIntegerOrInfinity(end)], counted from the back when
    negative, and clamped to [0, len]. *)
Definition slice_end (len : nat) (e : number) : nat :=
  match e with
  | NaN => 0
  | PosInf => len
  | NegInf => 0
  | Fin q =>
      let n := trunc q in
      if (n <? 0)%Z then Z.to_nat (Z.max (Z.of_nat len + n) 0)
      else Nat.min (Z.to_nat n) len
  end.

Definition slice0 {A} (l : list A) (e : number) : list A :=
  take (slice_end (length l) e) l.

(** [Array.prototype.sort(cmp)] is stable (ECMAScript 2019): an element
    moves in front of another one only when the comparator says so.  With
    a consistent comparator every stable sort returns the same array, the
    one computed here by insertion from the right. *)
Section Sort.
Context {A : Type} (cmp : A → A → Qc).

Fixpoint insert (x : A) (l : list A) : list A :=
  match l with
  | [] => [x]
  | y :: l' =>
      if bool_decide (0 < cmp x y)%Qc then y :: insert x l'
      else x :: y :: l'
  end.

Definition sort (l : list A) : list A := foldr insert [] l.
End Sort.

(** ** Strings *)

(** [WhiteSpace] and [LineTerminator] code units below 256: tab, line
    feed, vertical tab, form feed, carriage return, space, no-break
    space. *)
Definition is_space (c : ascii) : bool :=
  let n := nat_of_ascii c in
  ((9 <=? n) && (n <=? 13)) || (n =? 32) || (n =? 160).

Definition is_digit (c : ascii) : bool :=
  let n := nat_of_ascii c in (48 <=? n) && (n <=? 57).

(** [\w] of a regular expression without the [u] and [i] flags. *)
Definition is_word (c : ascii) : bool :=
  let n := nat_of_ascii c in
  ((48 <=? n) && (n <=? 57)) || ((65 <=? n) && (n <=? 90))
  || ((97 <=? n) && (n <=? 122)) || (n =? 95).

Fixpoint trim_start (s : list ascii) : list ascii :=
  match s with
  | c :: s' => if is_space c then trim_start s' else s
  | [] => []
  end.

Definition trim_end (s : list ascii) : list ascii :=
  rev (trim_start (rev s)).

(** [String.prototype.trim] *)
Definition trim (s : list ascii) : list ascii := trim_end (trim_start s).

(** Value of a run of decimal digits, most significant first. *)
Definition digit_val (c : ascii) : Z := Z.of_nat (nat_of_ascii c) - 48.

Fixpoint digits_val (acc : Z) (s : list ascii) : Z :=
  match s with
  | c :: s' => if is_digit c then digits_val (10 * acc + digit_val c) s' else acc
  | [] => acc
  end.

(** [parseInt(s, 10)]: leading white space is skipped, a sign is read,
    then the longest prefix of decimal digits; [None] is [NaN].  The
    result is the mathematical integer; as a double it is exact up to
    2^53, and it is zero, respectively [NaN], exactly when the integer
    is. *)
Definition parseInt10 (s : string) : option Z :=
  let t := trim_start (list_ascii_of_string s) in
  let '(sign, t) :=
    match t with
    | "-"%char :: t' => ((-1)%Z, t')
    | "+"%char :: t' => (1%Z, t')
    | _ => (1%Z, t)
    end in
  match t with
  | c :: _ => if is_digit c then Some (sign * digits_val 0 t)%Z else None
  | [] => None
  end.

End Js.


(* ================================================================== *)
(** * The institution's job page ([Jobs.tsx])                           *)
(* ================================================================== *)

Module Job.
Record t : Type := {
  _id : string;
  title : string;
  description : string;
  target_years : list Z;
  target_departments : list string;
  created_at : string
}.
End Job.

Module Student.
Record t : Type := {
  _id : string;
  name : string;
  email : string;
  department : string;
  year : Z;
  resume_url : option string;
  created_at : string
}.
End Student.

Module ResumeMatch.
Record t : Type := {
  student_id : string;
  job_id : string;
  match_score : Qc;
  student : Student.t;
  job : Job.t
}.
End ResumeMatch.

Module Jobs.
Import ResumeMatch.

Inductive SortOrder : Type := asc | desc.

(** Arrays of matches are heap objects: the component state holds a
    reference, [sort] works in place, [slice] and the spread syntax
    allocate. *)
Abbreviation loc := positive (only parsing).
Abbreviation Heap := (gmap positive (list ResumeMatch.t)) (only parsing).

Definition alloc (h : Heap) (a : list ResumeMatch.t) : loc * Heap :=
  let l := fresh (dom h) in (l, <[l := a]> h).

Definition read (h : Heap) (l : loc) : list ResumeMatch.t :=
  default [] (h !! l).

(** The hooks of the component that the match table depends on. *)
Record State : Type := {
  jobs : list Job.t;
  showMatches : option string;
  matches : loc;
  sortOrder : SortOrder;
  topN : Js.number;
  fetchingMatchesForJob : option string;
  heap : Heap
}.

(** Field updates ([setX] of the hooks). *)
Definition setJobs (v : list Job.t) (s : State) : State :=
  {| jobs := v; showMatches := showMatches s; matches := matches s;
     sortOrder := sortOrder s; topN := topN s;
     fetchingMatchesForJob := fetchingMatchesForJob s; heap := heap s |}.
Definition setShowMatches (v : option string) (s : State) : State :=
  {| jobs := jobs s; showMatches := v; matches := matches s;
     sortOrder := sortOrder s; topN := topN s;
     fetchingMatchesForJob := fetchingMatchesForJob s; heap := heap s |}.
Definition setMatches (v : loc) (s : State) : State :=
  {| jobs := jobs s; showMatches := showMatches s; matches := v;
     sortOrder := sortOrder s; topN := topN s;
     fetchingMatchesForJob := fetchingMatchesForJob s; heap := heap s |}.
Definition setSortOrder (v : SortOrder) (s : State) : State :=
  {| jobs := jobs s; showMatches := showMatches s; matches := matches s;
     sortOrder := v; topN := topN s;
     fetchingMatchesForJob := fetchingMatchesForJob s; heap := heap s |}.
Definition setTopN (v : Js.number) (s : State) : State :=
  {| jobs := jobs s; showMatches := showMatches s; matches := matches s;
     sortOrder := sortOrder s; topN := v;
     fetchingMatchesForJob := fetchingMatchesForJob s; heap := heap s |}.
Definition setFetchingMatchesForJob (v : option string) (s : State) : State :=
  {| jobs := jobs s; showMatches := showMatches s; matches := matches s;
     sortOrder := sortOrder s; topN := topN s;
     fetchingMatchesForJob := v; heap := heap s |}.
(** The heap after an allocation or an in-place update. *)
Definition setHeap (v : Heap) (s : State) : State :=
  {| jobs := jobs s; showMatches := showMatches s; matches := matches s;
     sortOrder := sortOrder s; topN := topN s;
     fetchingMatchesForJob := fetchingMatchesForJob s; heap := v |}.

(** [useState] initial values: no matches, descending order, top 10. *)
Definition init : State :=
  let '(l, h) := alloc ∅ [] in
  {| jobs := []; showMatches := None; matches := l; sortOrder := desc;
     topN := Js.Fin (Js.of_Z 10); fetchingMatchesForJob := None; heap := h |}.

(** The comparator passed to [sort] in [fetchMatches] and
    [handleSortChange]. *)
Definition compareFn (order : SortOrder) (a b : ResumeMatch.t) : Qc :=
  match order with
  | desc => match_score b - match_score a
  | asc => match_score a - match_score b
  end.

(** What [fetchMatches] ranks a pool into. *)
Definition rank (order : SortOrder) (pool : list ResumeMatch.t) :
  list ResumeMatch.t :=
  Js.sort (compareFn order) pool.

(** [a.sort(cmp)]: sorts the array at [l] in place. *)
Definition sort_in_place (h : Heap) (l : loc) (order : SortOrder) : Heap :=
  <[l := rank order (read h l)]> h.

(** [message || fallback] *)
Definition or_default (message : option string) (fallback : string) : string :=
  match message with
  | Some m => if String.eqb m "" then fallback else m
  | None => fallback
  end.

(** What the network and the local storage answer to [fetchMatches]. *)
Inductive FetchResult : Type :=
| NoToken
| NotOk (message : option string)
| Json (data : option (list ResumeMatch.t)).

(** [fetchMatches]: the parsed array [data.data] is sorted in place and
    becomes the state's array; every failure raises an alert and leaves
    the matches alone.  [fetchingMatchesForJob] is set on entry and reset
    in the [finally] block. *)
Definition fetchMatches (s : State) (jobId : string) (r : FetchResult) :
  State * option string :=
  match r with
  | NoToken =>
      (setFetchingMatchesForJob None s,
       Some "No authentication token found")
  | NotOk message =>
      (setFetchingMatchesForJob None s,
       Some (or_default message "Failed to fetch matches"))
  | Json None =>
      (setFetchingMatchesForJob None s,
       Some "Invalid response format: Expected an array of matches")
  | Json (Some data) =>
      let '(l, h) := alloc (heap s) data in
      let h := sort_in_place h l (sortOrder s) in
      (setFetchingMatchesForJob None
         (setShowMatches (Some jobId) (setMatches l (setHeap h s))), None)
  end.

(** [handleSortChange]: a copy of the array is sorted. *)
Definition handleSortChange (s : State) (order : SortOrder) : State :=
  let '(l, h) := alloc (heap s) (read (heap s) (matches s)) in
  let h := sort_in_place h l order in
  setMatches l (setSortOrder order (setHeap h s)).

(** [handleTopNChange]; [value] is [Number(e.target.value)]. *)
Definition handleTopNChange (s : State) (value : Js.number) : State :=
  if Js.ge value (Js.Fin (Js.of_Z 1)) then setTopN value s else s.

(** [matches.slice(0, topN)]: a new array; the receiver is only read. *)
Definition slice_matches (s : State) : loc * Heap :=
  alloc (heap s) (Js.slice0 (read (heap s) (matches s)) (topN s)).

(** The rows of the match table: the first [topN] matches. *)
Definition visibleMatches (s : State) : State * list ResumeMatch.t :=
  let '(l, h) := slice_matches s in
  (setHeap h s, read h l).

Definition quote : ascii := ascii_of_nat 34.

Definition escape_quotes (s : list ascii) : list ascii :=
  flat_map (fun c => if Ascii.eqb c quote then [quote; quote] else [c]) s.


(** [field.replace(/–/g, '-')] on a text in UTF-8. *)
Fixpoint replace_en_dash (s : list ascii) : list ascii :=
  match s with
  | [] => []
  | a :: s1 =>
      match s1 with
      | b :: c :: s3 =>
          if Ascii.eqb a (ascii_of_nat 226) && Ascii.eqb b (ascii_of_nat 128)
             && Ascii.eqb c (ascii_of_nat 147)
          then "-"%char :: replace_en_dash s3
          else a :: replace_en_dash s1
      | _ => a :: replace_en_dash s1
      end
  end.

(** [sanitizeField]: en dashes become hyphens, quotes are doubled and the
    field is wrapped in quotes when it holds a comma, a line feed or a
    quote.  The texts of the export are taken in UTF-8, in which the three
    tests read the same bytes as they read code units in the source. *)
Definition sanitizeField (field : string) : string :=
  let sanitized :=
    escape_quotes (replace_en_dash (list_ascii_of_string field)) in
  let special c :=
    Ascii.eqb c ","%char || Ascii.eqb c (ascii_of_nat 10) || Ascii.eqb c quote in
  string_of_list_ascii
    (if existsb special sanitized then quote :: sanitized ++ [quote]
     else sanitized).

Definition csvHeader : string :=
  String.concat ","
    (map sanitizeField
       ["Student Name"; "Email"; "Department"; "Year"; "Match Score"]).

Definition csvRow (m : ResumeMatch.t) : string :=
  String.concat ","
    [sanitizeField (Student.name (student m));
     sanitizeField (Student.email (student m));
     sanitizeField (Student.department (student m));
     pretty (Student.year (student m));
     pretty (Js.round (match_score m))].

(** [downloadCSV]: the rows written to the file. *)
Definition downloadCSV (s : State) (job : Job.t) : State * list string :=
  let '(l, h) := slice_matches s in
  (setHeap h s, csvHeader :: map csvRow (read h l)).

(** What the server answers to the deletion request of [handleDelete]. *)
Inductive DeleteResult : Type :=
| DeleteNoToken
| DeleteNotOk (message : option string)
| DeleteOk.

(** [handleDelete] after the confirmation dialog. *)
Definition handleDelete (s : State) (jobId : string) (confirmed : bool)
  (r : DeleteResult) : State :=
  if confirmed then
    match r with
    | DeleteOk =>
        let s := setJobs (filter (fun j => Job._id j ≠ jobId) (jobs s)) s in
        if bool_decide (showMatches s = Some jobId) then
          let '(l, h) := alloc (heap s) [] in
          setMatches l (setShowMatches None (setHeap h s))
        else s
    | _ => s
    end
  else s.

(** The user's and the network's inputs to the page. *)
Inductive Event : Type :=
| JobsLoaded (data : list Job.t)
| ViewMatches (jobId : string) (r : FetchResult)
| SortChange (order : SortOrder)
| TopNChange (value : Js.number)
| DownloadCSV (job : Job.t)
| Render
| CloseMatches
| DeleteJob (jobId : string) (confirmed : bool) (r : DeleteResult).

Definition step (s : State) (e : Event) : State :=
  match e with
  | JobsLoaded data => setJobs data s
  | ViewMatches jobId r =>
      (fetchMatches s jobId r).1
  | SortChange order => handleSortChange s order
  | TopNChange value => handleTopNChange s value
  | DownloadCSV job => (downloadCSV s job).1
  | Render => (visibleMatches s).1
  | CloseMatches => setShowMatches None s
  | DeleteJob jobId confirmed r => handleDelete s jobId confirmed r
  end.

Definition run (s : State) (es : list Event) : State := foldl step s es.

(** ** Properties of rankings and states *)

(** The order in which a ranking leaves two matches. *)
Definition before (order : SortOrder) (a b : ResumeMatch.t) : Prop :=
  match order with
  | desc => (match_score b ≤ match_score a)%Qc
  | asc => (match_score a ≤ match_score b)%Qc
  end.

(** The state's reference points to an array of the heap. *)
Definition wf (s : State) : Prop := is_Some (heap s !! matches s).

End Jobs.

(* ================================================================== *)
(** * The student's dashboard ([individualDashboard.tsx])               *)
(* ================================================================== *)

Module Dashboard.

Definition LF : ascii := ascii_of_nat 10.
Definition hash : ascii := "#"%char.

(** The longest prefix of [s] whose characters satisfy [p], and the
    rest. *)
Fixpoint span (p : ascii → bool) (s : list ascii) : list ascii * list ascii :=
  match s with
  | c :: s' =>
      if p c then let '(a, b) := span p s' in (c :: a, b) else ([], s)
  | [] => ([], [])
  end.

Definition not_LF (c : ascii) : bool := negb (Ascii.eqb c LF).

(** [([^\n]+)\n]: a greedy run of characters other than the line feed
    can only be followed by a line feed at its full length. *)
Definition match_line (s : list ascii) : option (list ascii * list ascii) :=
  match span not_LF s with
  | ((_ :: _) as title, _ :: rest) => Some (title, rest)
  | _ => None
  end.

(** [\s*([^\n]+)\n]: the greedy [\s*] first takes every white-space
    character, line feeds included, and gives them back one at a time
    while the rest does not match. *)
Fixpoint match_heading (s : list ascii) : option (list ascii * list ascii) :=
  match s with
  | c :: s' =>
      if Js.is_space c then
        match match_heading s' with
        | Some r => Some r
        | None => match_line s
        end
      else match_line s
  | [] => None
  end.

(** [(?=(##\s*[\w\s]+)|$)]: two hashes followed by a word or white-space
    character, or the end of the text. *)
Definition lookahead (s : list ascii) : bool :=
  match s with
  | [] => true
  | c1 :: c2 :: c :: _ =>
      Ascii.eqb c1 hash && Ascii.eqb c2 hash && (Js.is_word c || Js.is_space c)
  | _ => false
  end.

(** [([\s\S]*?)] in front of the lookahead: the shortest block after
    which the lookahead holds. *)
Fixpoint match_content (s : list ascii) : list ascii * list ascii :=
  if lookahead s then ([], s)
  else
    match s with
    | c :: s' => let '(b, r) := match_content s' in (c :: b, r)
    | [] => ([], [])
    end.

(** One match of [sectionRegex]: the two captures and the text after the
    match. *)
Record Match : Type := {
  title : list ascii;
  content : list ascii;
  rest : list ascii
}.

(** The regular expression anchored at the first character of [s]. *)
Definition match_here (s : list ascii) : option Match :=
  match s with
  | c1 :: c2 :: s' =>
      if Ascii.eqb c1 hash && Ascii.eqb c2 hash then
        match match_heading s' with
        | Some (t, r) =>
            let '(b, r') := match_content r in
            Some {| title := t; content := b; rest := r' |}
        | None => None
        end
      else None
  | _ => None
  end.

(** [sectionRegex.exec]: the leftmost match at or after the current
    position. *)
Fixpoint exec (s : list ascii) : option Match :=
  match match_here s with
  | Some m => Some m
  | None =>
      match s with
      | _ :: s' => exec s'
      | [] => None
      end
  end.

(** [sections[k] = v] on an object literal: the key [__proto__] reaches
    the inherited setter, which ignores a string. *)
Definition set_property (sections : gmap string string) (k v : string) :
  gmap string string :=
  if String.eqb k "__proto__" then sections else <[k := v]> sections.

(** The [while] loop of [parseAnalysisSections]; every match consumes at
    least its two hashes, so the length of the text bounds the number of
    iterations. *)
Fixpoint parse_loop (fuel : nat) (s : list ascii)
  (sections : gmap string string) : gmap string string :=
  match fuel with
  | O => sections
  | S fuel' =>
      match exec s with
      | Some m =>
          parse_loop fuel' (rest m)
            (set_property sections
               (string_of_list_ascii (Js.trim (title m)))
               (string_of_list_ascii (Js.trim (content m))))
      | None => sections
      end
  end.

Definition parseAnalysisSections (analysis : string) : gmap string string :=
  let s := list_ascii_of_string analysis in
  parse_loop (S (length s)) s ∅.

(** The section names that [formatReport] reads, in display order. *)
Definition sectionNames : list string :=
  ["Overall Assessment"; "Professional Profile Analysis"; "Skills Analysis";
   "Experience Analysis"; "Education Analysis"; "Key Strengths";
   "Areas for Improvement"; "ATS Optimization Assessment";
   "Recommended Courses/Certifications"; "Role Alignment Analysis";
   "Job Match Analysis"; "Key Job Requirements Not Met"].

(** [sections[name] && ...]: a section is shown when it is present and
    its text is not empty. *)
Definition shown (sections : gmap string string) (name : string) :
  option (string * string) :=
  match sections !! name with
  | Some text => if String.eqb text "" then None else Some (name, text)
  | None => None
  end.

(** The analysis answered by the Flask service. *)
Record AnalysisResult : Type := {
  analysis : option string;
  resume_score : option Z;
  ats_score : option Z;
  error : option string
}.

(** What the report of [formatReport] displays of the analysis: nothing
    when there is no text, the sections of the fixed list, or the raw text
    when no heading was found. *)
Inductive Report : Type :=
| NoReport
| Sections (blocks : list (string * string))
| RawReport (analysis : string).

Definition formatReport (result : AnalysisResult) : Report :=
  match analysis result with
  | None => NoReport
  | Some text =>
      if String.eqb text "" then NoReport
      else
        let sections := parseAnalysisSections text in
        if bool_decide (size sections = 0) then RawReport text
        else Sections (omap (shown sections) sectionNames)
  end.

(** ** Analyses laid out in sections *)

(** An analysis text made of sections, each a heading line and a block. *)
Definition Block : Type := list ascii * list ascii.

Definition render_section (sec : Block) : list ascii :=
  hash :: hash :: " "%char :: sec.1 ++ LF :: sec.2.

Definition render (secs : list Block) : list ascii :=
  flat_map render_section secs.





(** ** Upload of the report *)

(** The text fields that [handleReportUpload] appends to the form. *)
Record ReportForm : Type := {
  analysisResumeScore : string;
  analysisAtsScore : string;
  jobRole : string;
  jobCategory : string
}.

(** [score?.toString() || '0'] for an integer score; [toString] writes
    the digits of an integer below 10^21, and a double holds every
    integer up to 2^53. *)
Definition scoreField (score : option Z) : string :=
  match score with
  | Some n => pretty n
  | None => "0"
  end.

Definition reportForm (r : AnalysisResult) (role category : string) :
  ReportForm :=
  {| analysisResumeScore := scoreField (resume_score r);
     analysisAtsScore := scoreField (ats_score r);
     jobRole := role;
     jobCategory := category |}.

(** What comes back from the request of [handleUpload]: an error raised
    by [fetch] with its message, a response that is not [ok] with its
    status text, or the analysis. *)
Inductive AnalysisResponse : Type :=
| Failed (message : string)
| NotOk (statusText : string)
| Ok (data : AnalysisResult).

(** What [handleUpload] does with the answer: an alert, or the upload of
    the report for the user [userId]. *)
Inductive UploadOutcome : Type :=
| Alert (message : string)
| Uploaded (userId : string) (form : ReportForm).

(** [handleReportUpload] up to the request: nothing is uploaded without
    the [_id] of the profile. *)
Definition handleReportUpload (profileId : option string)
  (data : AnalysisResult) (role category : string) : UploadOutcome :=
  match profileId with
  | Some userId =>
      if String.eqb userId ""
      then Alert "Cannot upload report: Missing analysis result or user ID"
      else Uploaded userId (reportForm data role category)
  | None => Alert "Cannot upload report: Missing analysis result or user ID"
  end.

(** [handleUpload] once the request has been answered: a failure and an
    analysis that carries an error are reported by an alert, any other
    analysis is shown and its report uploaded. *)
Definition handleUpload (profileId : option string)
  (response : AnalysisResponse) (role category : string) : UploadOutcome :=
  let failed message :=
    Alert ("An error occurred while analyzing the resume: " +:+ message) in
  match response with
  | Failed message => failed message
  | NotOk statusText => failed ("Failed to analyze resume: " +:+ statusText)
  | Ok data =>
      match error data with
      | Some e =>
          if String.eqb e ""
          then handleReportUpload profileId data role category
          else Alert ("Analysis error: " +:+ e)
      | None => handleReportUpload profileId data role category
      end
  end.

End Dashboard.

(* ================================================================== *)
(** * The individuals' controller ([individualController.js])            *)
(* ================================================================== *)

Module Controller.

(** [req.file] as multer's memory storage builds it; [buffer] is the
    length of the buffer, when there is one. *)
Record File : Type := {
  mimetype : string;
  buffer : option Z;
  size : Z
}.

(** A document of the [Individual] collection (the schema's fields). *)
Record Individual : Type := {
  name : string;
  email : string;
  password : string;
  college : string;
  year : Z;
  department : string;
  resumeFilePath : option string;
  resumeScore : Z;
  reportFilePath : option string;
  atsScore : option Z;
  analysisResumeScore : Z;
  analysisAtsScore : Z;
  analysisFilePath : option string;
  jobRole : option string;
  jobCategory : option string
}.

(** The collections, keyed by [_id]. *)
Record Db : Type := {
  individuals : gmap string Individual;
  institutions : gset string
}.

(** What the services outside the controller answer during one request:
    Cloudinary's upload (an error message or the secure URL) and
    deletion (an error message when it fails), bcrypt's hash, the outcome of [save] (an error message when
    the document is rejected) and the identifier given to a new
    document; and what Mongoose does with the texts it casts: the error
    it raises for a text that is not an ObjectId, and the number it reads
    in a text, or the error it reports when it reads none. *)
Record Env : Type := {
  upload : string + string;
  destroy_error : option string;
  hash : string → string;
  save_error : Individual → option string;
  objectId : string;
  cast_error : string → option string;
  cast_year : string → string + Z
}.

#[local] Set Warnings "-register-all".
Inductive Json : Type :=
| JNull
| JString (s : string)
| JNumber (n : Z)
| JObject (fields : list (string * Json)).

Record Response : Type := {
  status : Z;
  json : list (string * Json)
}.

Definition respond (code : Z) (message : string) : Response :=
  {| status := code; json := [("message", JString message)] |}.

Definition field (r : Response) (k : string) : option Json :=
  snd <$> List.find (fun kv => String.eqb (fst kv) k) (json r).

(** [!x] for a text field: absent or empty. *)
Definition falsy (x : option string) : bool :=
  match x with
  | None => true
  | Some s => String.eqb s ""
  end.

(** [a || b] on text fields. *)
Definition or_else (a b : option string) : option string :=
  if falsy a then b else a.

(** ** Registration *)

Record RegisterRequest : Type := {
  body_name : option string;
  body_email : option string;
  body_password : option string;
  body_college : option string;
  body_year : option string;
  body_department : option string;
  file : option File
}.

(** [Individual.findOne({ email })] *)
Definition findOne (db : Db) (e : string) : option Individual :=
  List.find (fun u => String.eqb (email u) e)
    (snd <$> map_to_list (individuals db)).

(** [Institution.findById(college)] for an identifier that Mongoose could
    cast; for any other text the call is rejected, see [cast_error]. *)
Definition findById (db : Db) (id : string) : bool :=
  bool_decide (id ∈ institutions db).

(** The answer of the [catch] of [registerIndividual]. *)
Definition registrationError (err : string) : Response :=
  {| status := 500;
     json := [("message", JString "Server error during registration");
              ("error", JString err)] |}.

Definition maxSize : Z := 5 * 1024 * 1024.

Definition newUser (env : Env) (n e p c : string) (y : Z) (d url : string) :
  Individual :=
  {| name := n; email := e; password := hash env p; college := c;
     year := y; department := d; resumeFilePath := Some url;
     resumeScore := 0; reportFilePath := None; atsScore := None;
     analysisResumeScore := 0; analysisAtsScore := 0;
     analysisFilePath := None; jobRole := None; jobCategory := None |}.

Definition registerIndividual (env : Env) (db : Db) (req : RegisterRequest) :
  Response * Db :=
  if falsy (body_name req) || falsy (body_email req)
     || falsy (body_password req) || falsy (body_college req)
     || falsy (body_year req) || falsy (body_department req)
  then (respond 400 "All fields are required", db)
  else
    let n := default "" (body_name req) in
    let e := default "" (body_email req) in
    let p := default "" (body_password req) in
    let c := default "" (body_college req) in
    let y := default "" (body_year req) in
    let d := default "" (body_department req) in
    if bool_decide (is_Some (findOne db e))
    then (respond 400 "User already exists", db)
    else
      match cast_error env c with
      | Some err => (registrationError err, db)
      | None =>
          if negb (findById db c)
          then (respond 400 "Invalid college ID", db)
          else
            match file req with
            | None => (respond 400 "Resume file is required", db)
            | Some f =>
                if match buffer f with
                   | None => true
                   | Some len => (len =? 0)%Z
                   end
                then (respond 400 "Uploaded file is empty", db)
                else if negb (String.eqb (mimetype f) "application/pdf")
                then (respond 400 "Only PDF files are allowed", db)
                else if (maxSize <? size f)%Z
                then (respond 400 "File size exceeds 5MB limit", db)
                else
                  match upload env with
                  | inl err =>
                      ({| status := 500;
                          json :=
                            [("message",
                              JString "Failed to upload resume to Cloudinary");
                             ("error", JString err)] |}, db)
                  | inr url =>
                      match cast_year env y with
                      | inl err => (registrationError err, db)
                      | inr number =>
                          let u := newUser env n e p c number d url in
                          match save_error env u with
                          | Some err => (registrationError err, db)
                          | None =>
                              ({| status := 201;
                                  json :=
                                    [("message",
                                      JString "User registered successfully");
                                     ("user",
                                      JObject
                                        [("name", JString n);
                                         ("email", JString e);
                                         ("college", JString c);
                                         ("year", JString y);
                                         ("department", JString d);
                                         ("resumeFilePath", JString url)])] |},
                               {| individuals :=
                                    <[objectId env := u]> (individuals db);
                                  institutions := institutions db |})
                          end
                      end
                  end
            end
      end.

(** ** The route ([individualRoutes.js]) *)

(** The file part of the multipart request. *)
Record Part : Type := {
  part_mimetype : string;
  part_length : Z
}.

(** [upload.single(...)]: the file filter passes an error for anything
    but a PDF, a part beyond [limits.fileSize] raises multer's
    [LIMIT_FILE_SIZE]; an accepted part is buffered in memory. *)
Definition multer_single (p : option Part) : string + option File :=
  match p with
  | None => inr None
  | Some p =>
      if negb (String.eqb (part_mimetype p) "application/pdf")
      then inl "Only PDF files are allowed"
      else if (maxSize <? part_length p)%Z
      then inl "File too large"
      else inr (Some {| mimetype := part_mimetype p;
                        buffer := Some (part_length p);
                        size := part_length p |})
  end.

(** A middleware chain either answers or passes an error to [next]. *)
Inductive Outcome : Type :=
| Responded (r : Response)
| Forwarded (err : string).

(** [router.post('/register', upload.single('resume'), validateUser,
    ...)].  The middleware [validateUser] is not part of the sources: it
    is a parameter that answers the request itself or lets it through. *)
Definition register_route (validateUser : RegisterRequest → option Outcome)
  (env : Env) (db : Db) (req : RegisterRequest) (p : option Part) :
  Outcome * Db :=
  match multer_single p with
  | inl err => (Forwarded err, db)
  | inr f =>
      let req :=
        {| body_name := body_name req; body_email := body_email req;
           body_password := body_password req;
           body_college := body_college req; body_year := body_year req;
           body_department := body_department req; file := f |} in
      match validateUser req with
      | Some out => (out, db)
      | None =>
          let '(r, db') := registerIndividual env db req in
          (Responded r, db')
      end
  end.

(** The endpoint as a client sees it: a forwarded error is answered by
    the application's error handler. *)
Definition register_endpoint (onError : string → Response)
  (validateUser : RegisterRequest → option Outcome)
  (env : Env) (db : Db) (req : RegisterRequest) (p : option Part) :
  Response * Db :=
  match register_route validateUser env db req p with
  | (Responded r, db') => (r, db')
  | (Forwarded err, db') => (onError err, db')
  end.

(** ** Analysis reports *)

Definition is_id_char (c : ascii) : bool :=
  negb (Ascii.eqb c "."%char || Ascii.eqb c "/"%char).

(** [url.match(/\/resumes\/([^\.\/]+)(?:\.[a-zA-Z0-9]+)?/)]: the first
    [/resumes/] that is followed by a character other than a dot or a
    slash, and the run of such characters. *)
Fixpoint getCloudinaryPublicId_from (url : list ascii) : option string :=
  match url with
  | [] => None
  | _ :: url' =>
      let here :=
        if bool_decide (take 9 url = list_ascii_of_string "/resumes/") then
          let run := (Dashboard.span is_id_char (drop 9 url)).1 in
          match run with
          | [] => None
          | _ => Some ("resumes/" +:+ string_of_list_ascii run)
          end
        else None in
      match here with
      | Some id => Some id
      | None => getCloudinaryPublicId_from url'
      end
  end.

Definition getCloudinaryPublicId (url : string) : option string :=
  getCloudinaryPublicId_from (list_ascii_of_string url).

Record ReportRequest : Type := {
  params_id : string;
  user_id : string;
  report_file : option File;
  body_analysisResumeScore : option string;
  body_analysisAtsScore : option string;
  body_jobRole : option string;
  body_jobCategory : option string
}.

(** [parseInt(x, 10) || 0]; an absent field reads as [undefined], which
    [parseInt] turns into [NaN]. *)
Definition parseScore (x : option string) : Z :=
  match x ≫= Js.parseInt10 with
  | Some n => n
  | None => 0
  end.

Definition serverError (err : string) : Response :=
  {| status := 500;
     json := [("message", JString "Server error"); ("error", JString err)] |}.

Definition uploadAnalysisReport (env : Env) (db : Db) (req : ReportRequest) :
  Response * Db :=
  if negb (String.eqb (user_id req) (params_id req))
  then (respond 403 "Unauthorized", db)
  else
    match individuals db !! params_id req with
    | None => (respond 404 "User not found", db)
    | Some user =>
        match report_file req with
        | None => (respond 400 "No file uploaded", db)
        | Some f =>
            match
              (if bool_decide
                    (is_Some (analysisFilePath user ≫= getCloudinaryPublicId))
               then destroy_error env else None)
            with
            | Some err => (serverError err, db)
            | None =>
              match upload env with
              | inl err =>
                  ({| status := 500;
                      json := [("message",
                                JString "Failed to upload report to Cloudinary");
                               ("error", JString err)] |}, db)
              | inr url =>
                  let user' :=
                    {| name := name user; email := email user;
                       password := password user; college := college user;
                       year := year user; department := department user;
                       resumeFilePath := resumeFilePath user;
                       resumeScore := resumeScore user;
                       reportFilePath := None;
                       atsScore := None;
                       analysisResumeScore :=
                         parseScore (body_analysisResumeScore req);
                       analysisAtsScore :=
                         parseScore (body_analysisAtsScore req);
                       analysisFilePath := Some url;
                       jobRole :=
                         or_else (or_else (body_jobRole req) (jobRole user))
                           (Some "");
                       jobCategory :=
                         or_else (or_else (body_jobCategory req)
                                    (jobCategory user)) (Some "")
                    |} in
                  match save_error env user' with
                  | Some err => (serverError err, db)
                  | None =>
                      ({| status := 200;
                          json :=
                            [("message",
                              JString "Analysis report uploaded successfully");
                             ("filePath", JString url);
                             ("analysisResumeScore",
                              JNumber (analysisResumeScore user'));
                             ("analysisAtsScore",
                              JNumber (analysisAtsScore user'));
                             ("jobRole",
                              JString (default "" (jobRole user')));
                             ("jobCategory",
                              JString (default "" (jobCategory user')))] |},
                       {| individuals :=
                            <[params_id req := user']> (individuals db);
                          institutions := institutions db |})
                  end
              end
            end
        end
    end.

(** ** Outcomes of the requests *)

(** The responses of [uploadAnalysisReport] that store nothing. *)
Definition failure (r : Response) : Prop :=
  status r = 403%Z ∨ status r = 404%Z ∨ status r = 400%Z ∨ status r = 500%Z.

(** A score field that [parseInt] reads exactly: it holds no number, or
    an integer that a double represents. *)
Definition safe_score (x : option string) : Prop :=
  ∀ n : Z, x ≫= Js.parseInt10 = Some n → (Z.abs n ≤ 2 ^ 53)%Z.

(** The document that [uploadAnalysisReport] saves for [user]. *)
Definition reportRecord (user : Individual) (req : ReportRequest)
  (url : string) : Individual :=
  {| name := name user; email := email user; password := password user;
     college := college user; year := year user; department := department user;
     resumeFilePath := resumeFilePath user; resumeScore := resumeScore user;
     reportFilePath := None; atsScore := None;
     analysisResumeScore := parseScore (body_analysisResumeScore req);
     analysisAtsScore := parseScore (body_analysisAtsScore req);
     analysisFilePath := Some url;
     jobRole := or_else (or_else (body_jobRole req) (jobRole user)) (Some "");
     jobCategory :=
       or_else (or_else (body_jobCategory req) (jobCategory user)) (Some "") |}.

(** The requests that [uploadAnalysisReport] accepts: the caller is the
    user of the record, the record exists, a file is attached, the
    previous report, if its URL has a public identifier, is destroyed
    without an error, Cloudinary takes the new file, and the document is
    saved. *)
Definition accepted (env : Env) (db : Db) (req : ReportRequest) : Prop :=
  user_id req = params_id req
  ∧ ∃ (user : Individual) (f : File) (url : string),
      individuals db !! params_id req = Some user
      ∧ report_file req = Some f
      ∧ (is_Some (analysisFilePath user ≫= getCloudinaryPublicId) →
         destroy_error env = None)
      ∧ upload env = inr url
      ∧ save_error env (reportRecord user req url) = None.

(** The request [req] with other score fields. *)
Definition with_scores (req : ReportRequest) (resume ats : option string) :
  ReportRequest :=
  {| params_id := params_id req; user_id := user_id req;
     report_file := report_file req;
     body_analysisResumeScore := resume;
     body_analysisAtsScore := ats;
     body_jobRole := body_jobRole req;
     body_jobCategory := body_jobCategory req |}.

(** An upload that holds nothing. *)
Definition empty_file (f : File) : Prop :=
  buffer f = None ∨ buffer f = Some 0%Z.

(** [Institution.findById] rejects the college of the request. *)
Definition malformed_college (env : Env) (req : RegisterRequest) : Prop :=
  ∃ c err : string, body_college req = Some c ∧ cast_error env c = Some err.

(** The dashboard's form as the request body that reaches the
    controller. *)
Definition report_request (id : string) (f : File) (form : Dashboard.ReportForm) :
  ReportRequest :=
  {| params_id := id; user_id := id; report_file := Some f;
     body_analysisResumeScore := Some (Dashboard.analysisResumeScore form);
     body_analysisAtsScore := Some (Dashboard.analysisAtsScore form);
     body_jobRole := Some (Dashboard.jobRole form);
     body_jobCategory := Some (Dashboard.jobCategory form) |}.

End Controller.

(* ================================================================== *)
(** * The matching and scoring engine                                   *)
(* ================================================================== *)

(** The engine runs in the Flask back end, which the sources above only
  call.  Its definitions follow the specification; scores are real
  numbers. *)

Module MatchResult.
(** Modelled from the spec: the [MatchResult] of section 3 (the engine's
    code is missing), keyed by the pair of identifiers. *)
Record t : Type := {
  student_id : string;
  job_id : string;
  match_score : R;
  similarity_score : R;
  keyword_score : R;
  experience_score : R
}.
End MatchResult.

Module Engine.

Local Open Scope R_scope.

(** Modelled from the spec: the error kinds of section 7 (the engine's
    code is missing). *)
Inductive Error : Type :=
| ExtractionEmpty
| VocabularyMismatch
| DateParseWarning
| BatchItemTimeout.

(** Modelled from the spec: the typed failure of section 6 (the engine's
    code is missing): a result or an error. *)
Inductive Result (A : Type) : Type :=
| Ok (a : A)
| Err (e : Error).
Arguments Ok {A} a.
Arguments Err {A} e.

(** Modelled from the spec: the propagation policy of section 7 (the
    engine's code is missing): the first failure is the answer. *)
Definition bind {A B} (r : Result A) (k : A → Result B) : Result B :=
  match r with
  | Ok a => k a
  | Err e => Err e
  end.

(** Modelled from the spec: the [ExperienceEntry] of section 3 (the
    engine's code is missing).  Dates are in years; [dates] is [None]
    when they cannot be parsed, and an open end is the current role. *)
Record ExperienceEntry : Type := {
  role : string;
  dates : option (R * option R);
  description : string
}.

(** Modelled from the spec: the [EducationEntry] of section 3 (the
    engine's code is missing). *)
Record EducationEntry : Type := {
  institution : string;
  degree : string;
  graduation : option Z
}.

(** Modelled from the spec: the [ResumeDocument] of section 3 (the
    engine's code is missing). *)
Record ResumeDocument : Type := {
  resume_id : string;
  raw_text : string;
  normalized_text : string;
  skills : gset string;
  experience : list ExperienceEntry;
  education : list EducationEntry;
  vector : list R
}.

(** Modelled from the spec: the [JobPosting] of section 3 (the engine's
    code is missing). *)
Record JobPosting : Type := {
  job_id : string;
  title : string;
  job_description : string;
  required_skills : gset string;
  seniority : nat;
  target_years : list Z;
  target_departments : list string
}.

(** Modelled from the spec: section 4.4 maps the cosine linearly from
    [-1,1], or from [0,1] when the vectors are non-negative (the engine's
    code is missing). *)
Inductive CosineRange : Type := Signed | NonNegative.

(** Modelled from the spec: the deployment's configuration (the engine's
    code is missing): minimum text length, skill taxonomy (canonical name
    and synonyms), the aggregator's weights, the weighted years that
    saturate the experience score, and the range of the cosine. *)
Record Config : Type := {
  min_length : nat;
  taxonomy : list (string * list string);
  w_similarity : R;
  w_keyword : R;
  w_experience : R;
  saturation : R;
  cosine_range : CosineRange
}.

(** Modelled from the spec: the strategies that sections 4.2, 4.3 and 4.6
    leave open (the engine's code is missing): the extractors, the
    vectorizer over the shared term space, the recency and role-relevance
    factors, the hash of a description and the date of the request. *)
Record Pipeline : Type := {
  extract_skills : string → gset string;
  extract_experience : string → list ExperienceEntry;
  extract_education : string → list EducationEntry;
  derive_seniority : string → string → nat;
  vectorize : string → list R;
  recency : R → R;
  relevance : string → JobPosting → R;
  text_hash : string → positive;
  today : R
}.

(** ** 4.1 Text normalizer *)

(** Modelled from the spec: the lower-casing of section 4.1 (the engine's
    code is missing). *)
Definition to_lower (c : ascii) : ascii :=
  let n := nat_of_ascii c in
  if (65 <=? n)%nat && (n <=? 90)%nat then ascii_of_nat (n + 32) else c.

(** Modelled from the spec: section 4.1 applied to a whole text (the
    engine's code is missing). *)
Definition lower (s : string) : string :=
  string_of_list_ascii (map to_lower (list_ascii_of_string s)).

(** Modelled from the spec: the punctuation rule of section 4.1 (the
    engine's code is missing): letters are lower-cased, digits kept,
    anything else is a word boundary. *)
Definition word_char (c : ascii) : ascii :=
  if Js.is_word c then to_lower c else " "%char.

(** Modelled from the spec: the white-space rule of section 4.1 (the
    engine's code is missing): a space is dropped after a space and at the
    start of the text. *)
Fixpoint collapse (after_space : bool) (s : list ascii) : list ascii :=
  match s with
  | [] => []
  | c :: s' =>
      if Ascii.eqb c " "%char then
        if after_space then collapse true s' else c :: collapse true s'
      else c :: collapse false s'
  end.

(** Modelled from the spec: the normalized text of section 4.1 (the
    engine's code is missing). *)
Definition clean (text : string) : string :=
  string_of_list_ascii
    (Js.trim_end (collapse true (map word_char (list_ascii_of_string text)))).

(** Modelled from the spec: the text normalizer of section 4.1 (the
    engine's code is missing): lower-cased, white space collapsed,
    punctuation reduced to word boundaries; [ExtractionEmpty] for a text
    that is empty or shorter than the minimum length. *)
Definition normalize (cfg : Config) (text : string) : Result string :=
  if (String.length text =? 0)%nat || (String.length text <? min_length cfg)%nat
  then Err ExtractionEmpty
  else Ok (clean text).

(** ** 4.5 Keyword matcher *)

(** Modelled from the spec: the taxonomy lookup of sections 4.2 and 4.5
    (the engine's code is missing): a skill is matched without regard to
    case against the canonical names and their synonyms; a skill the
    taxonomy does not know stands for itself. *)
Definition canonical (tax : list (string * list string)) (skill : string) :
  string :=
  let k := lower skill in
  match
    List.find
      (fun e => String.eqb (lower (fst e)) k
                || existsb (fun y => String.eqb (lower y) k) (snd e)) tax
  with
  | Some e => lower (fst e)
  | None => k
  end.

(** Modelled from the spec: a skill set seen through the taxonomy, so that
    synonyms count as one skill (the engine's code is missing). *)
Definition canonical_set (tax : list (string * list string))
  (s : gset string) : gset string :=
  set_map (canonical tax) s.

(** Modelled from the spec: the formula of section 4.5, as it is written
    there (the engine's code is missing). *)
Definition keyword_formula (tax : list (string * list string))
  (resume_skills job_skills : gset string) : R :=
  let r := canonical_set tax resume_skills in
  let j := canonical_set tax job_skills in
  100 * INR (size (r ∩ j)) / INR (Nat.max 1 (size j)).

(** Modelled from the spec: the keyword matcher of section 4.5 (the
    engine's code is missing): the formula, with the explicit policy that
    an empty requirement set scores 100. *)
Definition keyword_score (tax : list (string * list string))
  (resume_skills job_skills : gset string) : R :=
  if (size (canonical_set tax job_skills) =? 0)%nat then 100
  else keyword_formula tax resume_skills job_skills.

(** ** 4.4 Similarity scorer *)

(** Modelled from the spec: the inner product, the norm and the cosine
    behind section 4.4 (the engine's code is missing). *)
Fixpoint dot (u v : list R) : R :=
  match u, v with
  | x :: u', y :: v' => x * y + dot u' v'
  | _, _ => 0
  end.

(** Modelled from the spec: the Euclidean norm of section 4.4 (the
    engine's code is missing). *)
Definition norm (u : list R) : R := sqrt (dot u u).

(** Modelled from the spec: the cosine similarity of section 4.4 (the
    engine's code is missing). *)
Definition cosine (u v : list R) : R := dot u v / (norm u * norm v).

(** Modelled from the spec: the similarity scorer of section 4.4 (the
    engine's code is missing): the cosine mapped linearly to [0,100], and
    0 when a vector is all zero. *)
Definition similarity_score (range : CosineRange) (u v : list R) : R :=
  if Req_dec_T (norm u * norm v) 0 then 0
  else
    match range with
    | Signed => 50 * (cosine u v + 1)
    | NonNegative => 100 * cosine u v
    end.

(** ** 4.6 Experience weigher *)

(** Modelled from the spec: the derived duration of section 3 (the
    engine's code is missing); an open end runs to the date of the
    request. *)
Definition duration (P : Pipeline) (e : ExperienceEntry) : option R :=
  match dates e with
  | Some (start, Some stop) => Some (stop - start)
  | Some (start, None) => Some (today P - start)
  | None => None
  end.

(** Modelled from the spec: the years since the end of a role, for the
    recency factor of section 4.6 (the engine's code is missing). *)
Definition years_since_end (P : Pipeline) (e : ExperienceEntry) : R :=
  match dates e with
  | Some (_, Some stop) => today P - stop
  | _ => 0
  end.

(** Modelled from the spec: the weight of an entry in section 4.6 (the
    engine's code is missing): duration, recency and relevance multiplied;
    an entry whose dates cannot be parsed weighs nothing. *)
Definition entry_weight (P : Pipeline) (J : JobPosting) (e : ExperienceEntry) : R :=
  match duration P e with
  | Some d => d * recency P (years_since_end P e) * relevance P (role e) J
  | None => 0
  end.

(** Modelled from the spec: the weighted sum of section 4.6 (the engine's
    code is missing). *)
Definition weighted_years (P : Pipeline) (J : JobPosting)
  (es : list ExperienceEntry) : R :=
  foldr (fun e acc => entry_weight P J e + acc) 0 es.

(** Modelled from the spec: the experience weigher of section 4.6 (the
    engine's code is missing): the weighted sum on a saturating scale,
    clipped to [0,100]. *)
Definition experience_score (P : Pipeline) (cfg : Config) (J : JobPosting)
  (es : list ExperienceEntry) : R :=
  Rmax 0 (Rmin 100 (100 * weighted_years P J es / saturation cfg)).

(** ** 4.8 Score aggregator *)

(** Modelled from the spec: the aggregate of section 4.8 (the engine's
    code is missing). *)
Definition aggregate (cfg : Config) (similarity keyword experience : R) : R :=
  w_similarity cfg * similarity + w_keyword cfg * keyword
  + w_experience cfg * experience.

(** ** 6 The engine's operation *)

(** Modelled from the spec: the scores of a resume against a job whose
    vector is [jv], sections 4.4 to 4.8 and the [VocabularyMismatch] of
    section 7 (the engine's code is missing). *)
Definition score_with (P : Pipeline) (cfg : Config) (resume : ResumeDocument)
  (J : JobPosting) (jv : list R) : Result MatchResult.t :=
  if negb (length (vector resume) =? length jv)%nat then Err VocabularyMismatch
  else
    let s := similarity_score (cosine_range cfg) (vector resume) jv in
    let k := keyword_score (taxonomy cfg) (skills resume) (required_skills J) in
    let x := experience_score P cfg J (experience resume) in
    Ok {| MatchResult.student_id := resume_id resume;
          MatchResult.job_id := job_id J;
          MatchResult.match_score := aggregate cfg s k x;
          MatchResult.similarity_score := s;
          MatchResult.keyword_score := k;
          MatchResult.experience_score := x |}.

(** Modelled from the spec: [score_match] of section 6 (the engine's code
    is missing): a fresh computation from the two documents. *)
Definition score_match (P : Pipeline) (cfg : Config) (resume : ResumeDocument)
  (J : JobPosting) : Result MatchResult.t :=
  score_with P cfg resume J (vectorize P (job_description J)).

(** Modelled from the spec: the optional read-through cache of section 3
    (the engine's code is missing), keyed by job identifier and
    description hash. *)
Abbreviation Cache := (gmap (string * positive) (list R)) (only parsing).

(** Modelled from the spec: the read-through lookup of section 3 (the
    engine's code is missing): a cached vector is used, a missing one is
    computed and stored. *)
Definition job_vector (P : Pipeline) (cache : Cache) (J : JobPosting) :
  list R * Cache :=
  let k := (job_id J, text_hash P (job_description J)) in
  match cache !! k with
  | Some v => (v, cache)
  | None =>
      let v := vectorize P (job_description J) in (v, <[k := v]> cache)
  end.

(** Modelled from the spec: [score_match] with the job-vector cache of
    sections 3 and 5 switched on (the engine's code is missing). *)
Definition score_match_cached (P : Pipeline) (cfg : Config) (cache : Cache)
  (resume : ResumeDocument) (J : JobPosting) : Result MatchResult.t * Cache :=
  let '(jv, cache') := job_vector P cache J in
  (score_with P cfg resume J jv, cache').

(** ** Requests *)

(** Modelled from the spec: the lifecycle of section 3 (the engine's code
    is missing): the documents are built from the caller's text for each
    request. *)
Definition build_resume (P : Pipeline) (cfg : Config) (id text : string) :
  Result ResumeDocument :=
  bind (normalize cfg text) (fun n =>
  Ok {| resume_id := id; raw_text := text; normalized_text := n;
        skills := extract_skills P n;
        experience := extract_experience P n;
        education := extract_education P n;
        vector := vectorize P n |}).

(** Modelled from the spec: what a caller supplies for a job, section 3
    (the engine's code is missing). *)
Record JobRequest : Type := {
  request_id : string;
  request_title : string;
  request_description : string;
  request_skills : option (gset string);
  request_years : list Z;
  request_departments : list string
}.

(** Modelled from the spec: the job posting built for a request, section
    3 (the engine's code is missing). *)
Definition build_job (P : Pipeline) (cfg : Config) (j : JobRequest) :
  Result JobPosting :=
  bind (normalize cfg (request_description j)) (fun n =>
  Ok {| job_id := request_id j; title := request_title j;
        job_description := n;
        required_skills := default (extract_skills P n) (request_skills j);
        seniority := derive_seniority P (request_title j) n;
        target_years := request_years j;
        target_departments := request_departments j |}).

(** Modelled from the spec: one scoring request, from the caller's text
    to the [MatchResult] or the typed failure (the engine's code is
    missing). *)
Definition scoring_request (P : Pipeline) (cfg : Config)
  (id text : string) (j : JobRequest) : Result MatchResult.t :=
  bind (build_resume P cfg id text) (fun resume =>
  bind (build_job P cfg j) (fun J =>
  score_match P cfg resume J)).

(** ** Ranges *)

Definition in_range (x : R) : Prop := 0 <= x <= 100.

(** The weights are non-negative and sum to 1. *)
Definition valid_weights (cfg : Config) : Prop :=
  0 <= w_similarity cfg ∧ 0 <= w_keyword cfg ∧ 0 <= w_experience cfg
  ∧ w_similarity cfg + w_keyword cfg + w_experience cfg = 1.

(** The vectors are non-negative when the cosine is mapped from [0,1]. *)
Definition vectors_fit (P : Pipeline) (cfg : Config) (resume : ResumeDocument) :
  Prop :=
  cosine_range cfg = NonNegative →
  Forall (Rle 0) (vector resume) ∧ ∀ text, Forall (Rle 0) (vectorize P text).

End Engine.

(* ================================================================== *)
(** * Sample data                                                       *)
(* ================================================================== *)

Module JobsSample.

Definition job : Job.t :=
  {| Job._id := "j1"; Job.title := "Data Scientist"; Job.description := "";
     Job.target_years := [4%Z]; Job.target_departments := [];
     Job.created_at := "" |}.

Definition student (id : string) : Student.t :=
  {| Student._id := id; Student.name := id; Student.email := id;
     Student.department := "Information Technology (IT)"; Student.year := 4;
     Student.resume_url := None; Student.created_at := "" |}.

Definition scored (id : string) (score : Z) : ResumeMatch.t :=
  {| ResumeMatch.student_id := id; ResumeMatch.job_id := "j1";
     ResumeMatch.match_score := Js.of_Z score;
     ResumeMatch.student := student id; ResumeMatch.job := job |}.

(** Two students with the same score. *)
Definition tieA : ResumeMatch.t := scored "s1" 50.
Definition tieB : ResumeMatch.t := scored "s2" 50.

End JobsSample.

Module AnalysisSample.
Import Dashboard.

Definition sections : list Block :=
  [(list_ascii_of_string "Key Strengths", list_ascii_of_string "- SQL");
   (list_ascii_of_string "Hobbies", list_ascii_of_string "Chess")].

Definition analysis : string := string_of_list_ascii (render sections).


(** The answer of the service that carries the text [a]. *)
Definition scored (a : string) : AnalysisResult :=
  {| Dashboard.analysis := Some a; resume_score := Some 72%Z;
     ats_score := Some 65%Z; error := None |}.

End AnalysisSample.

Module ControllerSample.
Import Controller.

Definition student : Individual :=
  {| name := "Asha"; email := "asha@example.org"; password := "h";
     college := "c1"; year := 4; department := "Information Technology (IT)";
     resumeFilePath := None; resumeScore := 0%Z; reportFilePath := None;
     atsScore := None; analysisResumeScore := 0%Z; analysisAtsScore := 0%Z;
     analysisFilePath := None; jobRole := None; jobCategory := None |}.

Definition db : Db :=
  {| individuals := {["u1" := student]}; institutions := {["c1"]} |}.

(** The identifiers of the samples are a small letter and digits; any
    other text is refused where an ObjectId is expected. *)
Definition is_id (id : string) : bool :=
  match list_ascii_of_string id with
  | c :: d :: rest =>
      (97 <=? nat_of_ascii c) && (nat_of_ascii c <=? 122)
      && forallb Js.is_digit (d :: rest)
  | _ => false
  end.

Definition env : Env :=
  {| upload := inr "https://res.cloudinary.com/demo/raw/upload/report.pdf";
     destroy_error := None;
     hash := fun p => p;
     save_error := fun _ => None;
     objectId := "u2";
     cast_error := fun id =>
       if is_id id then None
       else Some "Cast to ObjectId failed";
     cast_year := fun y =>
       match Js.parseInt10 y with
       | Some n => inr n
       | None => inl "Individual validation failed: year"
       end |}.

Definition pdf : File :=
  {| mimetype := "application/pdf"; buffer := Some 1024%Z; size := 1024%Z |}.

Definition emptyPdf : File :=
  {| mimetype := "application/pdf"; buffer := Some 0%Z; size := 0%Z |}.

(** An analysis that came back without scores. *)
Definition unscored : Dashboard.AnalysisResult :=
  {| Dashboard.analysis := Some "The resume could not be read.";
     Dashboard.resume_score := None; Dashboard.ats_score := None;
     Dashboard.error := None |}.

Definition unscoredReport : ReportRequest :=
  report_request "u1" pdf
    (Dashboard.reportForm unscored "Data Scientist" "Data Science and Analytics").

(** A report whose score fields are not numbers. *)
Definition garbledReport : ReportRequest :=
  {| params_id := "u1"; user_id := "u1"; report_file := Some pdf;
     body_analysisResumeScore := Some "N/A";
     body_analysisAtsScore := None;
     body_jobRole := Some "Data Scientist";
     body_jobCategory := Some "Data Science and Analytics" |}.

Definition register (f : option File) : RegisterRequest :=
  {| body_name := Some "Ravi"; body_email := Some "ravi@example.org";
     body_password := Some "secret"; body_college := Some "c1";
     body_year := Some "2"; body_department := Some "Civil Engineering";
     file := f |}.

(** The same registration for a college that is not an identifier. *)
Definition registerAt (college : string) (f : option File) : RegisterRequest :=
  {| body_name := Some "Ravi"; body_email := Some "ravi@example.org";
     body_password := Some "secret"; body_college := Some college;
     body_year := Some "2"; body_department := Some "Civil Engineering";
     file := f |}.

(** A student whose last analysis was scored 72 and 65. *)
Definition analysed : Individual :=
  {| name := "Asha"; email := "asha@example.org"; password := "h";
     college := "c1"; year := 4; department := "Information Technology (IT)";
     resumeFilePath := None; resumeScore := 0%Z; reportFilePath := None;
     atsScore := None; analysisResumeScore := 72%Z; analysisAtsScore := 65%Z;
     analysisFilePath := None; jobRole := Some "Data Analyst";
     jobCategory := Some "Data Science and Analytics" |}.

Definition analysedDb : Db :=
  {| individuals := {["u1" := analysed]}; institutions := {["c1"]} |}.

Definition textPart : Part :=
  {| part_mimetype := "text/plain"; part_length := 10%Z |}.

Definition pdfPart : Part :=
  {| part_mimetype := "application/pdf"; part_length := 1024%Z |}.

(** A [validateUser] that lets every request through. *)
Definition passThrough (req : RegisterRequest) : option Outcome := None.

End ControllerSample.

Module EngineSample.
Import Engine.
Local Open Scope R_scope.

Definition taxonomy : list (string * list string) :=
  [("JavaScript", ["JS"]); ("Python", ["py"])].

Definition cfg : Config :=
  {| min_length := 20; Engine.taxonomy := taxonomy;
     w_similarity := 2 / 5; w_keyword := 2 / 5; w_experience := 1 / 5;
     saturation := 8; cosine_range := Signed |}.

Definition pipeline : Pipeline :=
  {| extract_skills := fun _ => ∅;
     extract_experience := fun _ => [];
     extract_education := fun _ => [];
     derive_seniority := fun _ _ => O;
     vectorize := fun _ => [1; 1];
     recency := fun _ => 1;
     relevance := fun _ _ => 1;
     text_hash := fun _ => 1%positive;
     today := 2025 |}.

Definition resume : ResumeDocument :=
  {| resume_id := "s1"; raw_text := "Python and SQL developer";
     normalized_text := "python and sql developer";
     skills := {["Python"; "SQL"]};
     experience := []; education := []; vector := [1; 0] |}.

Definition job : JobPosting :=
  {| job_id := "j1"; title := "Data engineer";
     job_description := "python sql spark";
     required_skills := {["python"; "sql"; "spark"]};
     seniority := O; target_years := []; target_departments := [] |}.

Definition jobRequest : JobRequest :=
  {| request_id := "j1"; request_title := "Data engineer";
     request_description := "We need Python, SQL and Spark.";
     request_skills := None; request_years := [];
     request_departments := [] |}.

(** What [score_match] answers for [resume] and [job]. *)
Definition result : MatchResult.t :=
  let s := similarity_score Signed [1; 0] [1; 1] in
  let k := keyword_score taxonomy (skills resume) (required_skills job) in
  let x := experience_score pipeline cfg job [] in
  {| MatchResult.student_id := "s1"; MatchResult.job_id := "j1";
     MatchResult.match_score := aggregate cfg s k x;
     MatchResult.similarity_score := s;
     MatchResult.keyword_score := k;
     MatchResult.experience_score := x |}.

End EngineSample.

(* ================================================================== *)
(** * Lines of a text                                                   *)
(* ================================================================== *)

Module Text.
Import Dashboard.

(** [s.split('\n')] *)
Fixpoint split_lines (s : list ascii) : list (list ascii) :=
  match s with
  | [] => [[]]
  | c :: s' =>
      if Ascii.eqb c LF then [] :: split_lines s'
      else
        match split_lines s' with
        | l :: ls => (c :: l) :: ls
        | [] => [[c]]
        end
  end.

(** [lines.join('\n')] *)
Fixpoint join_lines (ls : list (list ascii)) : list ascii :=
  match ls with
  | [] => []
  | [l] => l
  | l :: ls' => l ++ LF :: join_lines ls'
  end.

End Text.

(* ================================================================== *)
(** * The rest of the job page ([Jobs.tsx])                             *)
(* ================================================================== *)

Module JobForm.
Import Text.

(** The form of the "new job" dialog. *)
Record NewJob : Type := {
  title : string;
  description : string;
  target_years : list Z;
  target_departments : list string
}.

Definition emptyJob : NewJob :=
  {| title := ""; description := ""; target_years := [];
     target_departments := [] |}.

(** [handleYearChange]: a ticked year is taken out, another one is added
    at the end. *)
Definition handleYearChange (newJob : NewJob) (year : Z) : NewJob :=
  {| title := title newJob;
     description := description newJob;
     target_years :=
       if bool_decide (year ∈ target_years newJob)
       then filter (fun y => y ≠ year) (target_years newJob)
       else target_years newJob ++ [year];
     target_departments := target_departments newJob |}.

(** [handleDepartmentChange] *)
Definition handleDepartmentChange (newJob : NewJob) (department : string) :
  NewJob :=
  {| title := title newJob;
     description := description newJob;
     target_years := target_years newJob;
     target_departments :=
       if bool_decide (department ∈ target_departments newJob)
       then filter (fun d => d ≠ department) (target_departments newJob)
       else target_departments newJob ++ [department] |}.

(** The hooks that the list of jobs and the dialog depend on. *)
Record State : Type := {
  jobs : list Job.t;
  loading : bool;
  error : option string;
  showNewJobModal : bool;
  newJob : NewJob
}.

(** [useState] initial values. *)
Definition init : State :=
  {| jobs := []; loading := true; error := None; showNewJobModal := false;
     newJob := emptyJob |}.

(** What comes back from the request of [handleSubmit]: an error raised
    by [fetch], a response that is not [ok] with its message, or the job
    that the server created. *)
Inductive CreateResponse : Type :=
| CreateFailed (message : string)
| CreateNotOk (message : option string)
| Created (data : Job.t).

(** What [handleSubmit] does besides updating the hooks: the alert it
    raises and the body it posts. *)
Record Submitted : Type := {
  state : State;
  alert : option string;
  posted : option NewJob
}.

(** [handleSubmit]: nothing is posted without a token or without a year
    and a department; the form is emptied and closed once the server has
    created the job. *)
Definition handleSubmit (s : State) (token : bool) (r : CreateResponse) :
  Submitted :=
  if negb token then
    {| state := s; alert := Some "No authentication token found";
       posted := None |}
  else if bool_decide (length (target_years (newJob s)) = 0)
          || bool_decide (length (target_departments (newJob s)) = 0)
  then
    {| state := s;
       alert := Some "Please select at least one year and one department";
       posted := None |}
  else
    match r with
    | CreateFailed message =>
        {| state := s;
           alert := Some (Jobs.or_default (Some message) "Failed to create job");
           posted := Some (newJob s) |}
    | CreateNotOk message =>
        {| state := s;
           alert := Some (Jobs.or_default message "Failed to create job");
           posted := Some (newJob s) |}
    | Created data =>
        {| state :=
             {| jobs := jobs s ++ [data]; loading := loading s; error := None;
                showNewJobModal := false; newJob := emptyJob |};
           alert := None;
           posted := Some (newJob s) |}
    end.

(** What the user does in the dialog: open it, cancel it, type a title
    or a description, tick a year or a department, submit the form (with
    the token found in the local storage and the answer of the server). *)
Inductive Event : Type :=
| OpenModal
| Cancel
| TitleChange (value : string)
| DescriptionChange (value : string)
| YearChange (year : Z)
| DepartmentChange (department : string)
| Submit (token : bool) (r : CreateResponse).

Definition setShowNewJobModal (v : bool) (s : State) : State :=
  {| jobs := jobs s; loading := loading s; error := error s;
     showNewJobModal := v; newJob := newJob s |}.

Definition setNewJob (v : NewJob) (s : State) : State :=
  {| jobs := jobs s; loading := loading s; error := error s;
     showNewJobModal := showNewJobModal s; newJob := v |}.

(** One event: the next state and the body posted to the server, if
    any. *)
Definition step (s : State) (e : Event) : State * option NewJob :=
  match e with
  | OpenModal => (setShowNewJobModal true s, None)
  | Cancel => (setShowNewJobModal false s, None)
  | TitleChange value =>
      (setNewJob {| title := value; description := description (newJob s);
                    target_years := target_years (newJob s);
                    target_departments := target_departments (newJob s) |} s,
       None)
  | DescriptionChange value =>
      (setNewJob {| title := title (newJob s); description := value;
                    target_years := target_years (newJob s);
                    target_departments := target_departments (newJob s) |} s,
       None)
  | YearChange year => (setNewJob (handleYearChange (newJob s) year) s, None)
  | DepartmentChange department =>
      (setNewJob (handleDepartmentChange (newJob s) department) s, None)
  | Submit token r =>
      let out := handleSubmit s token r in (state out, posted out)
  end.

(** A sequence of events: the last state and the bodies posted, oldest
    first. *)
Fixpoint run (s : State) (es : list Event) : State * list NewJob :=
  match es with
  | [] => (s, [])
  | e :: es' =>
      let '(s', p) := step s e in
      let '(s'', ps) := run s' es' in
      (s'', option_list p ++ ps)
  end.

(** ** Long descriptions *)

(** The property names that every object inherits from
    [Object.prototype]; reading one of them on an object that does not
    define it gives a function or an object, which is truthy. *)
Definition inherited (k : string) : bool :=
  bool_decide
    (k ∈ ["constructor"; "toString"; "toLocaleString"; "valueOf";
          "hasOwnProperty"; "isPrototypeOf"; "propertyIsEnumerable";
          "__proto__"; "__defineGetter__"; "__defineSetter__";
          "__lookupGetter__"; "__lookupSetter__"]).

(** Whether [expandedDescriptions[jobId]] is truthy. *)
Definition expanded (expandedDescriptions : gmap string bool) (jobId : string) :
  bool :=
  match expandedDescriptions !! jobId with
  | Some b => b
  | None => inherited jobId
  end.

(** [toggleDescription]: [{ ...prev, [jobId]: !prev[jobId] }] *)
Definition toggleDescription (expandedDescriptions : gmap string bool)
  (jobId : string) : gmap string bool :=
  <[jobId := negb (expanded expandedDescriptions jobId)]> expandedDescriptions.

(** [truncateDescription]: the first five lines and an ellipsis for a
    longer description that is not expanded. *)
Definition truncateDescription (expandedDescriptions : gmap string bool)
  (description jobId : string) : string :=
  let lines := split_lines (list_ascii_of_string description) in
  if bool_decide (length lines ≤ 5) || expanded expandedDescriptions jobId
  then description
  else string_of_list_ascii (join_lines (take 5 lines)) +:+ "...".

End JobForm.

(* ================================================================== *)
(** * The rest of the dashboard ([individualDashboard.tsx])             *)
(* ================================================================== *)

Module Analyzer.

Definition jobCategories : list string :=
  ["Software Development and Engineering"; "Data Science and Analytics";
   "Product Management"; "UI/UX Design"; "DevOps and Infrastructure";
   "Cybersecurity"].

Definition jobRoles : list (string * list string) :=
  [("Software Development and Engineering",
    ["Frontend Developer"; "Backend Developer"; "Full Stack Developer";
     "Mobile Developer"; "Software Architect"]);
   ("Data Science and Analytics",
    ["Data Scientist"; "Data Analyst"; "Machine Learning Engineer";
     "Business Intelligence Analyst"]);
   ("Product Management",
    ["Product Manager"; "Product Owner"; "Technical Product Manager"]);
   ("UI/UX Design",
    ["UI Designer"; "UX Designer"; "Product Designer"; "Interaction Designer"]);
   ("DevOps and Infrastructure",
    ["DevOps Engineer"; "Site Reliability Engineer"; "Cloud Engineer";
     "Infrastructure Engineer"]);
   ("Cybersecurity",
    ["Security Engineer"; "Security Analyst"; "Penetration Tester";
     "Security Architect"])].

(** [jobRoles[category]]; [None] is [undefined]. *)
Definition rolesOf (category : string) : option (list string) :=
  snd <$> List.find (fun e => String.eqb (fst e) category) jobRoles.

(** The file picked in a file input: its name and MIME type. *)
Record Picked : Type := {
  file_name : string;
  file_type : string
}.

(** The hooks that an analysis request is built from.  [jobRole] is
    [None] when it was set to [undefined]. *)
Record State : Type := {
  file : option Picked;
  jobCategory : string;
  jobRole : option string
}.

Definition init : State :=
  {| file := None; jobCategory := "Data Science and Analytics";
     jobRole := Some "Data Scientist" |}.

(** [handleFileChange]: anything but a PDF is refused with an alert and
    clears the selection. *)
Definition handleFileChange (s : State) (selected : option Picked) :
  State * option string :=
  match selected with
  | Some f =>
      if String.eqb (file_type f) "application/pdf"
      then ({| file := Some f; jobCategory := jobCategory s;
               jobRole := jobRole s |}, None)
      else ({| file := None; jobCategory := jobCategory s;
               jobRole := jobRole s |}, Some "Please select a PDF file")
  | None =>
      ({| file := None; jobCategory := jobCategory s; jobRole := jobRole s |},
       Some "Please select a PDF file")
  end.

(** The [onChange] of the category select: the category is set and the
    role becomes the first role of that category; for a value that is no
    key of [jobRoles] the lookup throws before the role is set. *)
Definition changeCategory (s : State) (value : string) : State :=
  {| file := file s; jobCategory := value;
     jobRole :=
       match rolesOf value with
       | Some roles => head roles
       | None => jobRole s
       end |}.

(** The [onChange] of the role select. *)
Definition changeRole (s : State) (value : string) : State :=
  {| file := file s; jobCategory := jobCategory s; jobRole := Some value |}.

(** The options that the two selects render; a select reports the value
    of one of its options. *)
Definition categoryOptions : list string := jobCategories.

Definition roleOptions (s : State) : list string :=
  default [] (rolesOf (jobCategory s)).

(** What the user does on the upper part of the page: pick a file, pick
    the [i]-th option of a select. *)
Inductive Event : Type :=
| PickFile (selected : option Picked)
| PickCategory (i : nat)
| PickRole (i : nat).

Definition step (s : State) (e : Event) : State :=
  match e with
  | PickFile selected => (handleFileChange s selected).1
  | PickCategory i =>
      match categoryOptions !! i with
      | Some value => changeCategory s value
      | None => s
      end
  | PickRole i =>
      match roleOptions s !! i with
      | Some value => changeRole s value
      | None => s
      end
  end.

Definition run (s : State) (es : list Event) : State := foldl step s es.

(** The request that [handleUpload] sends to [/upload_resume]: the file
    and the two query parameters; nothing is sent without a file. *)
Record Request : Type := {
  resume : Picked;
  job_category : string;
  job_role : string
}.

Definition uploadRequest (s : State) : Request + string :=
  match file s with
  | None => inr "Please select a PDF file first"
  | Some f =>
      inl {| resume := f; job_category := jobCategory s;
             job_role := default "undefined" (jobRole s) |}
  end.

End Analyzer.

(* ================================================================== *)
(** * The display of a section ([renderMarkdown])                       *)
(* ================================================================== *)

Module Markdown.
Import Text.

Definition star : ascii := "*"%char.
Definition CR : ascii := ascii_of_nat 13.

(** [.] of a regular expression: any character but a line terminator. *)
Definition dot (c : ascii) : bool :=
  negb (Ascii.eqb c Dashboard.LF || Ascii.eqb c CR).

(** [(.*?)\*\*]: the shortest run of characters after which two stars
    stand; the run and the text after the stars. *)
Fixpoint bold_body (s : list ascii) : option (list ascii * list ascii) :=
  match s with
  | c1 :: ((c2 :: r) as s') =>
      if Ascii.eqb c1 star && Ascii.eqb c2 star then Some ([], r)
      else if dot c1 then
        match bold_body s' with
        | Some (b, r') => Some (c1 :: b, r')
        | None => None
        end
      else None
  | _ => None
  end.

(** [line.replace(/\*\*(.*?)\*\*/g, '<strong>$1</strong>')]: the matches
    are replaced from left to right; each one consumes at least four
    characters, so the length of the line bounds their number. *)
Fixpoint bold (fuel : nat) (s : list ascii) : list ascii :=
  match fuel with
  | O => s
  | S fuel' =>
      match s with
      | c1 :: c2 :: r =>
          if Ascii.eqb c1 star && Ascii.eqb c2 star then
            match bold_body r with
            | Some (b, r') =>
                list_ascii_of_string "<strong>" ++ b
                ++ list_ascii_of_string "</strong>" ++ bold fuel' r'
            | None => c1 :: bold fuel' (c2 :: r)
            end
          else c1 :: bold fuel' (c2 :: r)
      | _ => s
      end
  end.

(** [s.startsWith(p)] *)
Definition startsWith (s : list ascii) (p : string) : bool :=
  bool_decide (take (String.length p) s = list_ascii_of_string p).

(** [/^\d+\.\s/]: the text after the match, when the text starts with
    digits, a dot and a white-space character. *)
Definition numbered (s : list ascii) : option (list ascii) :=
  match Dashboard.span Js.is_digit s with
  | (_ :: _, c :: sp :: rest) =>
      if Ascii.eqb c "."%char && Js.is_space sp then Some rest else None
  | _ => None
  end.

(** [line.replace(/^- |^\* /, '')] *)
Definition strip_bullet (line : list ascii) : list ascii :=
  if startsWith line "- " || startsWith line "* " then drop 2 line else line.

(** An element of the list that [renderMarkdown] returns, with the HTML
    it sets as the element's content. *)
Inductive Element : Type :=
| Li (html : string)
| P (html : string).

(** The body of [lines.map]. *)
Definition render_line (line : list ascii) : Element :=
  let line := bold (length line) line in
  if startsWith (Js.trim line) "- " || startsWith (Js.trim line) "* "
  then Li (string_of_list_ascii (strip_bullet line))
  else
    match numbered (Js.trim line) with
    | Some _ => Li (string_of_list_ascii (default line (numbered line)))
    | None => P (string_of_list_ascii line)
    end.

(** [renderMarkdown]: one element for each line that is not blank. *)
Definition renderMarkdown (text : string) : list Element :=
  render_line
    <$> filter (fun line => Js.trim line ≠ [])
          (split_lines (list_ascii_of_string text)).

End Markdown.

(* ================================================================== *)
(** * The rest of the controller ([individualController.js])            *)
(* ================================================================== *)

Module Accounts.
Import Controller.

(** ** Login *)

(** [Individual.findOne({ email })] with the identifier of the document
    it finds. *)
Definition findUser (db : Db) (e : string) : option (string * Individual) :=
  List.find (fun kv => String.eqb (email (snd kv)) e)
    (map_to_list (individuals db)).

(** What the libraries behind [loginIndividual] compute: bcrypt's
    comparison of the password field with a hash, which raises an error
    or answers, the signed token for an identifier, and the name of an
    institution (the [Institution] model is not part of the sources). *)
Record Auth : Type := {
  compare : option string → string → string + bool;
  sign : string → string;
  institutionName : string → string
}.

Record LoginRequest : Type := {
  login_email : option string;
  login_password : option string
}.

Definition loginIndividual (auth : Auth) (db : Db) (req : LoginRequest) :
  Response :=
  match login_email req ≫= findUser db with
  | None => respond 400 "User not found"
  | Some (id, user) =>
      match compare auth (login_password req) (password user) with
      | inl err =>
          {| status := 500;
             json := [("message", JString "Server error during login");
                      ("error", JString err)] |}
      | inr false => respond 400 "Invalid credentials"
      | inr true =>
          {| status := 200;
             json :=
               [("token", JString (sign auth id));
                ("user",
                 JObject
                   [("_id", JString id);
                    ("name", JString (name user));
                    ("email", JString (email user));
                    ("college",
                     if findById db (college user)
                     then JString (institutionName auth (college user))
                     else JNull);
                    ("year", JNumber (year user));
                    ("department", JString (department user));
                    ("resumeFilePath",
                     match resumeFilePath user with
                     | Some path => JString path
                     | None => JNull
                     end)])] |}
      end
  end.

(** ** Resume files *)

(** [isUrl]: [/^https?:\/\//] *)
Definition isUrl (str : string) : bool :=
  String.prefix "http://" str || String.prefix "https://" str.

(** The calls made to Cloudinary and to the file system, in order. *)
Inductive Effect : Type :=
| Destroy (public_id : string)
| Unlink (path : string)
| Upload (folder public_id : string).

(** A request of an authenticated user on the record [params_id]. *)
Record FileRequest : Type := {
  file_params_id : string;
  file_user_id : string;
  uploaded : option File
}.

(** What a handler leaves behind: the response, the collections, the
    local files and the calls it made. *)
Record Served : Type := {
  response : Response;
  db : Db;
  disk : gset string;
  effects : list Effect
}.

(** The removal of the previous resume, shared by [uploadPDF] and
    [deletePDF]: a Cloudinary URL with a public identifier is destroyed
    there, the path of an existing local file is unlinked.  The result is
    the error of a failed call, the remaining local files and the calls
    made. *)
Definition removePrevious (env : Env) (disk : gset string) (user : Individual) :
  option string * gset string * list Effect :=
  match resumeFilePath user with
  | None => (None, disk, [])
  | Some path =>
      if String.eqb path "" then (None, disk, [])
      else if isUrl path then
        match getCloudinaryPublicId path with
        | Some publicId => (destroy_error env, disk, [Destroy publicId])
        | None => (None, disk, [])
        end
      else if bool_decide (path ∈ disk)
      then (None, disk ∖ {[path]}, [Unlink path])
      else (None, disk, [])
  end.

Definition setResumeFilePath (v : option string) (user : Individual) :
  Individual :=
  {| name := name user; email := email user; password := password user;
     college := college user; year := year user; department := department user;
     resumeFilePath := v; resumeScore := resumeScore user;
     reportFilePath := reportFilePath user; atsScore := atsScore user;
     analysisResumeScore := analysisResumeScore user;
     analysisAtsScore := analysisAtsScore user;
     analysisFilePath := analysisFilePath user; jobRole := jobRole user;
     jobCategory := jobCategory user |}.

Definition put (db : Db) (id : string) (user : Individual) : Db :=
  {| individuals := <[id := user]> (individuals db);
     institutions := institutions db |}.

(** The answer of the outer [catch]. *)
Definition caught (err : string) : Response :=
  {| status := 500; json := [("message", JString err)] |}.

(** [uploadPDF]; [now] is [Date.now()]. *)
Definition uploadPDF (env : Env) (now : Z) (db : Db) (disk : gset string)
  (req : FileRequest) : Served :=
  let stop r := {| response := r; db := db; disk := disk; effects := [] |} in
  if negb (String.eqb (file_user_id req) (file_params_id req))
  then stop (respond 403 "Unauthorized")
  else
    match individuals db !! file_params_id req with
    | None => stop (respond 404 "User not found")
    | Some user =>
        match uploaded req with
        | None => stop (respond 400 "No file uploaded")
        | Some f =>
            let '(failure, disk', removed) := removePrevious env disk user in
            match failure with
            | Some err =>
                {| response := caught err; db := db; disk := disk';
                   effects := removed |}
            | None =>
                let calls :=
                  removed ++ [Upload "resumes" (name user +:+ "_" +:+ pretty now)] in
                match upload env with
                | inl err =>
                    {| response :=
                         {| status := 500;
                            json := [("message",
                                      JString "Failed to upload resume to Cloudinary");
                                     ("error", JString err)] |};
                       db := db; disk := disk'; effects := calls |}
                | inr url =>
                    let user' := setResumeFilePath (Some url) user in
                    match save_error env user' with
                    | Some err =>
                        {| response := caught err; db := db; disk := disk';
                           effects := calls |}
                    | None =>
                        {| response :=
                             {| status := 200;
                                json := [("message",
                                          JString "PDF uploaded successfully");
                                         ("filePath", JString url)] |};
                           db := put db (file_params_id req) user';
                           disk := disk'; effects := calls |}
                    end
                end
            end
        end
    end.

(** [deletePDF] *)
Definition deletePDF (env : Env) (db : Db) (disk : gset string)
  (req : FileRequest) : Served :=
  let stop r := {| response := r; db := db; disk := disk; effects := [] |} in
  if negb (String.eqb (file_user_id req) (file_params_id req))
  then stop (respond 403 "Unauthorized")
  else
    match individuals db !! file_params_id req with
    | None => stop (respond 404 "User not found")
    | Some user =>
        let '(failure, disk', removed) := removePrevious env disk user in
        match failure with
        | Some err =>
            {| response := caught err; db := db; disk := disk';
               effects := removed |}
        | None =>
            let user' := setResumeFilePath None user in
            match save_error env user' with
            | Some err =>
                {| response := caught err; db := db; disk := disk';
                   effects := removed |}
            | None =>
                {| response := respond 200 "PDF deleted successfully";
                   db := put db (file_params_id req) user';
                   disk := disk'; effects := removed |}
            end
        end
    end.

(** ** Properties of the collection *)

(** No two records carry the same email. *)
Definition unique_emails (db : Db) : Prop :=
  ∀ (i j : string) (u v : Individual),
    individuals db !! i = Some u → individuals db !! j = Some v →
    email u = email v → i = j.

End Accounts.

(* ================================================================== *)
(** * A reader for the exported file                                    *)
(* ================================================================== *)

Module Csv.
Import Dashboard.

(** Where a reader of comma-separated values stands: in a plain field,
    inside a quoted field, after a quote read inside a quoted field
    (which closes the field unless a second quote follows), or after a
    carriage return that ended a record. *)
Inductive Mode : Type := Plain | Quoted | Closing | AfterCR.

Definition comma : ascii := ","%char.
Definition CR : ascii := ascii_of_nat 13.

(** The reader's state: the mode, the characters of the current field,
    last first, and the fields of the current record, last first. *)
Definition Reader : Type := Mode * list ascii * list (list ascii).

Definition start : Reader := (Plain, [], []).

(** The record that ends with the current field. *)
Definition close (field : list ascii) (record : list (list ascii)) :
  list (list ascii) :=
  rev (rev field :: record).

(** A character read outside quotes: a comma ends the field; a line
    feed, or a carriage return with the line feed that may follow it,
    ends the record; a quote at the start of a field opens a quoted
    field. *)
Definition plain_step (field : list ascii) (record : list (list ascii))
  (c : ascii) : Reader * option (list (list ascii)) :=
  if Ascii.eqb c comma then ((Plain, [], rev field :: record), None)
  else if Ascii.eqb c LF then (start, Some (close field record))
  else if Ascii.eqb c CR then ((AfterCR, [], []), Some (close field record))
  else if Ascii.eqb c Jobs.quote && bool_decide (field = [])
  then ((Quoted, [], record), None)
  else ((Plain, c :: field, record), None).

(** One character: the next state and the record that it ends, if
    any. *)
Definition step (st : Reader) (c : ascii) :
  Reader * option (list (list ascii)) :=
  match st with
  | (Plain, field, record) => plain_step field record c
  | (Quoted, field, record) =>
      if Ascii.eqb c Jobs.quote then ((Closing, field, record), None)
      else ((Quoted, c :: field, record), None)
  | (Closing, field, record) =>
      if Ascii.eqb c Jobs.quote then ((Quoted, c :: field, record), None)
      else plain_step field record c
  | (AfterCR, _, _) =>
      if Ascii.eqb c LF then (start, None) else plain_step [] [] c
  end.

(** The end of the text: the record under way, if there is one. *)
Definition finish (st : Reader) : list (list (list ascii)) :=
  match st with
  | (AfterCR, _, _) => []
  | (Plain, [], []) => []
  | (_, field, record) => [close field record]
  end.

(** The records of a text, as a reader of RFC 4180 that takes a line
    feed, a carriage return or both as a line break reads them. *)
Fixpoint records (st : Reader) (s : list ascii) : list (list (list ascii)) :=
  match s with
  | [] => finish st
  | c :: s' =>
      let '(st', ended) := step st c in
      option_list ended ++ records st' s'
  end.

(** The byte order mark in UTF-8. *)
Definition BOM : list ascii :=
  [ascii_of_nat 239; ascii_of_nat 187; ascii_of_nat 191].

(** A reader skips the byte order mark at the start of the text. *)
Definition skip_BOM (s : list ascii) : list ascii :=
  match s with
  | a :: b :: c :: s' =>
      if Ascii.eqb a (ascii_of_nat 239) && Ascii.eqb b (ascii_of_nat 187)
         && Ascii.eqb c (ascii_of_nat 191)
      then s' else s
  | _ => s
  end.

Definition read (text : string) : list (list string) :=
  map (map string_of_list_ascii)
    (records start (skip_BOM (list_ascii_of_string text))).

(** The text of the exported file: the byte order mark, then
    [csvRows.join('\n')]. *)
Definition content (rows : list string) : string :=
  string_of_list_ascii
    (BOM ++ Text.join_lines (map list_ascii_of_string rows)).








End Csv.

(* ================================================================== *)
(** * More sample data                                                  *)
(* ================================================================== *)

Module AccountsSample.
Import Controller Accounts.

(** A student whose resume is a file on the server's disk. *)
Definition student : Individual :=
  setResumeFilePath (Some "uploads/asha.pdf") ControllerSample.student.

Definition db : Db :=
  {| individuals := {["u1" := student]}; institutions := {["c1"]} |}.

Definition disk : gset string := {["uploads/asha.pdf"]}.

(** Cloudinary cannot be reached. *)
Definition offline : Env :=
  {| upload := inl "timeout";
     destroy_error := Some "timeout";
     hash := hash ControllerSample.env;
     save_error := save_error ControllerSample.env;
     objectId := objectId ControllerSample.env;
     cast_error := cast_error ControllerSample.env;
     cast_year := cast_year ControllerSample.env |}.

Definition request : FileRequest :=
  {| file_params_id := "u1"; file_user_id := "u1";
     uploaded := Some ControllerSample.pdf |}.

(** A bcrypt that accepts a password for the hash of [ControllerSample.env]
    (the identity) and raises on a missing password. *)
Definition auth : Auth :=
  {| compare := fun p h =>
       match p with
       | Some p => inr (String.eqb p h)
       | None => inl "Illegal arguments: undefined, string"
       end;
     sign := fun id => "token-" +:+ id;
     institutionName := fun id => "College " +:+ id |}.

End AccountsSample.

Module JobFormSample.

(** A description of six lines. *)
Definition description : string :=
  string_of_list_ascii
    (Text.join_lines
       (list_ascii_of_string
          <$> ["Build dashboards"; "Write SQL"; "Clean data"; "Present findings";
               "Mentor interns"; "Travel twice a year"])).

End JobFormSample.

Module CsvSample.



End CsvSample.

(* ================================================================== *)
(** * Facts about the built-ins                                         *)
(* ================================================================== *)

Section SortFacts.
Context {A : Type} (cmp : A → A → Qc).

Lemma insert_Permutation (x : A) (l : list A) :
  Js.insert cmp x l ≡ₚ x :: l.
Proof.
  induction l as [|y l IH]; simpl; [done|].
  case_bool_decide; [|done].
  rewrite IH. apply Permutation_swap.
Qed.

Lemma sort_Permutation (l : list A) : Js.sort cmp l ≡ₚ l.
Proof.
  induction l as [|x l IH]; simpl; [done|].
  rewrite insert_Permutation. by f_equiv.
Qed.

(** An element is only moved past elements that the comparator puts in
    front of it, so it keeps its place among the others. *)
Lemma filter_insert (P : A → Prop) `{!∀ a, Decision (P a)} (x : A) (l : list A) :
  (∀ y, P x → P y → ¬ (0 < cmp x y)%Qc) →
  filter P (Js.insert cmp x l) = filter P (x :: l).
Proof.
  intros Hx. induction l as [|y l IH]; simpl; [done|].
  case_bool_decide as Hlt; [|done].
  rewrite !filter_cons in *.
  destruct (decide (P y)) as [Hy|Hy].
  - destruct (decide (P x)) as [Hpx|Hpx].
    + destruct (Hx y Hpx Hy Hlt).
    + by rewrite IH.
  - apply IH.
Qed.

Lemma filter_sort (P : A → Prop) `{!∀ a, Decision (P a)} (l : list A) :
  (∀ x y, P x → P y → ¬ (0 < cmp x y)%Qc) →
  filter P (Js.sort cmp l) = filter P l.
Proof.
  intros Hx. induction l as [|x l IH]; simpl; [done|].
  rewrite filter_insert by eauto.
  rewrite !filter_cons. by rewrite IH.
Qed.

Lemma Forall_insert (P : A → Prop) (x : A) (l : list A) :
  P x → Forall P l → Forall P (Js.insert cmp x l).
Proof.
  intros Hx Hl. eapply Permutation_Forall; [|apply Forall_cons; eauto].
  symmetry. apply insert_Permutation.
Qed.

(** Insertion keeps a list sorted for any order that agrees with the
    comparator. *)
Lemma insert_sorted (le : A → A → Prop) (x : A) (l : list A) :
  (∀ a b, ¬ (0 < cmp a b)%Qc → le a b) →
  (∀ a b, (0 < cmp a b)%Qc → le b a) →
  (∀ a b c, le a b → le b c → le a c) →
  StronglySorted le l → StronglySorted le (Js.insert cmp x l).
Proof.
  intros Hle Hgt Htrans Hl. induction Hl as [|y l Hl IH Hy]; simpl.
  - repeat constructor.
  - case_bool_decide as Hlt.
    + constructor; [done|]. apply Forall_insert; [by apply Hgt|done].
    + constructor; [by constructor|].
      constructor; [by apply Hle|].
      eapply Forall_impl; [exact Hy|]. intros z Hz.
      eapply Htrans; [|exact Hz]. by apply Hle.
Qed.

Lemma sort_sorted (le : A → A → Prop) (l : list A) :
  (∀ a b, ¬ (0 < cmp a b)%Qc → le a b) →
  (∀ a b, (0 < cmp a b)%Qc → le b a) →
  (∀ a b c, le a b → le b c → le a c) →
  StronglySorted le (Js.sort cmp l).
Proof.
  intros Hle Hgt Htrans. induction l as [|x l IH]; simpl.
  - constructor.
  - by apply insert_sorted.
Qed.

(** Sorting a sorted array moves nothing. *)
Lemma sort_of_sorted (le : A → A → Prop) (l : list A) :
  (∀ a b, le a b → ¬ (0 < cmp a b)%Qc) →
  StronglySorted le l → Js.sort cmp l = l.
Proof.
  intros Hle Hl. induction Hl as [|x l Hl IH Hx]; simpl; [done|].
  rewrite IH. destruct l as [|y l']; simpl; [done|].
  rewrite bool_decide_eq_false_2; [done|].
  apply Hle. by inversion Hx.
Qed.

End SortFacts.

(* ================================================================== *)
(** * The ranking of the job page                                       *)
(* ================================================================== *)

Section JobsFacts.
Import Jobs JobsSample.

Lemma Qc_minus_pos (a b : Qc) : (0 < b - a)%Qc ↔ (a < b)%Qc.
Proof. unfold Qcminus. symmetry. apply Qclt_minus_iff. Qed.

Lemma compareFn_pos (order : SortOrder) (a b : ResumeMatch.t) :
  (0 < compareFn order a b)%Qc ↔ ¬ before order a b.
Proof.
  destruct order; simpl; rewrite Qc_minus_pos; split.
  - apply Qclt_not_le.
  - apply Qcnot_le_lt.
  - apply Qclt_not_le.
  - apply Qcnot_le_lt.
Qed.

Lemma before_total (order : SortOrder) (a b : ResumeMatch.t) :
  ¬ before order a b → before order b a.
Proof.
  destruct order; simpl; intros H; apply Qclt_le_weak; by apply Qcnot_le_lt.
Qed.

Lemma before_trans (order : SortOrder) (a b c : ResumeMatch.t) :
  before order a b → before order b c → before order a c.
Proof.
  destruct order; simpl; intros H1 H2; eapply Qcle_trans; eauto.
Qed.

Lemma rank_Permutation (order : SortOrder) (pool : list ResumeMatch.t) :
  rank order pool ≡ₚ pool.
Proof. apply sort_Permutation. Qed.

Lemma rank_sorted (order : SortOrder) (pool : list ResumeMatch.t) :
  StronglySorted (before order) (rank order pool).
Proof.
  apply sort_sorted.
  - intros a b. destruct order; simpl; rewrite Qc_minus_pos;
      apply Qcnot_lt_le.
  - intros a b H. apply before_total. by apply compareFn_pos.
  - apply before_trans.
Qed.

Lemma rank_stable (order : SortOrder) (pool : list ResumeMatch.t) (v : Qc) :
  filter (λ m, ResumeMatch.match_score m = v) (rank order pool)
  = filter (λ m, ResumeMatch.match_score m = v) pool.
Proof.
  apply filter_sort. intros x y Hx Hy. rewrite compareFn_pos.
  intros H; apply H. destruct order; simpl; rewrite Hx, Hy; apply Qcle_refl.
Qed.

Lemma rank_idempotent (order : SortOrder) (pool : list ResumeMatch.t) :
  rank order (rank order pool) = rank order pool.
Proof.
  eapply sort_of_sorted; [|apply rank_sorted].
  intros a b Hab. rewrite compareFn_pos. tauto.
Qed.

(** ** The heap *)

Lemma fresh_not_allocated (h : Heap) : h !! fresh (dom h) = None.
Proof. apply not_elem_of_dom. apply is_fresh. Qed.

(** An allocation leaves every array of the heap as it is. *)
Lemma insert_fresh_frame (h : Heap) (a : list ResumeMatch.t) (l : loc) :
  is_Some (h !! l) → <[fresh (dom h) := a]> h !! l = h !! l.
Proof.
  intros [x Hx]. rewrite lookup_insert_ne; [done|].
  intros <-. by rewrite fresh_not_allocated in Hx.
Qed.

Lemma wf_init : wf init.
Proof. unfold wf, init, alloc. simpl. rewrite lookup_insert_eq. eauto. Qed.

Lemma fetchMatches_matches (s : State) (jobId : string)
  (data : list ResumeMatch.t) :
  heap (fetchMatches s jobId (Json (Some data))).1
  !! matches (fetchMatches s jobId (Json (Some data))).1
  = Some (rank (sortOrder s) data).
Proof.
  unfold fetchMatches, sort_in_place, alloc, read. simpl.
  by rewrite lookup_insert_eq, lookup_insert_eq.
Qed.

Lemma fetchMatches_sortOrder (s : State) (jobId : string) (r : FetchResult) :
  sortOrder (fetchMatches s jobId r).1 = sortOrder s.
Proof. by destruct r as [| |[data|]]. Qed.

Lemma wf_fetchMatches (s : State) (jobId : string) (r : FetchResult) :
  wf s → wf (fetchMatches s jobId r).1.
Proof.
  intros Hs. destruct r as [| |[data|]]; try exact Hs.
  unfold wf. rewrite fetchMatches_matches. eauto.
Qed.

Lemma handleSortChange_matches (s : State) (order : SortOrder) :
  heap (handleSortChange s order) !! matches (handleSortChange s order)
  = Some (rank order (read (heap s) (matches s))).
Proof.
  unfold handleSortChange, sort_in_place, alloc, read. simpl.
  by rewrite lookup_insert_eq, lookup_insert_eq.
Qed.

Lemma wf_step (s : State) (e : Event) : wf s → wf (step s e).
Proof.
  intros Hs. destruct e as [data|jobId r|order|value|job| | |jobId c r]; simpl.
  - exact Hs.
  - by apply wf_fetchMatches.
  - unfold wf. rewrite handleSortChange_matches. eauto.
  - unfold handleTopNChange. by destruct (Js.ge _ _).
  - unfold wf. simpl. by rewrite insert_fresh_frame.
  - unfold wf. simpl. by rewrite insert_fresh_frame.
  - exact Hs.
  - unfold handleDelete. destruct c; [|done]. destruct r; try done.
    case_bool_decide; [|done].
    unfold wf, alloc. simpl. rewrite lookup_insert_eq. eauto.
Qed.

Lemma run_snoc (s : State) (es : list Event) (e : Event) :
  run s (es ++ [e]) = step (run s es) e.
Proof. unfold run. by rewrite foldl_app. Qed.

Lemma wf_run (es : list Event) : wf (run init es).
Proof.
  induction es as [|e es IH] using rev_ind.
  - apply wf_init.
  - rewrite run_snoc. by apply wf_step.
Qed.


Example rank_keeps_pool_order_of_ties :
  rank desc [tieA; tieB] = [tieA; tieB] ∧ rank desc [tieB; tieA] = [tieB; tieA].
Proof. split; vm_compute; reflexivity. Qed.

(** C2, as stated, fails: the comparator of [fetchMatches] looks at
    [match_score] alone, so two matches with the same score come out in the
    order of the pool: [s1; s2] stays [s1; s2] and [s2; s1] stays
    [s2; s1].  No tie-break on any key of the records, hence no total
    order, is respected by every ranking. *)
Lemma C2_ties_follow_pool_order :
  ¬ ∃ precedes : ResumeMatch.t → ResumeMatch.t → Prop,
      (∀ a b, precedes a b → precedes b a → a = b)
      ∧ ∀ pool, StronglySorted precedes (rank desc pool).
Proof.
  intros (precedes & Hanti & Hsorted).
  destruct rank_keeps_pool_order_of_ties as [H1 H2].
  pose proof (Hsorted [tieA; tieB]) as HA. rewrite H1 in HA.
  pose proof (Hsorted [tieB; tieA]) as HB. rewrite H2 in HB.
  inversion HA as [|? ? _ HA']; subst. inversion HB as [|? ? _ HB']; subst.
  inversion HA'; subst. inversion HB'; subst.
  assert (tieA = tieB) as Heq by (by apply Hanti).
  discriminate Heq.
Qed.

(** C2, amended: [fetchMatches] and [handleSortChange] store the pool
    sorted on [match_score] alone, descending or ascending as the sort
    order says: the result is a permutation of the pool, it is sorted, and
    matches with equal scores keep the order they have in the pool. *)
Theorem C2_rank_by_match_score :
  ∀ pool : list ResumeMatch.t,
    (∀ order : SortOrder,
       rank order pool ≡ₚ pool
       ∧ StronglySorted (before order) (rank order pool)
       ∧ ∀ v : Qc,
           filter (λ m, ResumeMatch.match_score m = v) (rank order pool)
           = filter (λ m, ResumeMatch.match_score m = v) pool)
    ∧ (∀ (s : State) (jobId : string),
         let s' := (fetchMatches s jobId (Json (Some pool))).1 in
         read (heap s') (matches s') = rank (sortOrder s) pool)
    ∧ (∀ (s : State) (order : SortOrder),
         let s' := handleSortChange s order in
         sortOrder s' = order
         ∧ read (heap s') (matches s')
           = rank order (read (heap s) (matches s))).
Proof.
  intros pool. split; [|split].
  - intros order. split; [apply rank_Permutation|].
    split; [apply rank_sorted|apply rank_stable].
  - intros s jobId s'. unfold read. subst s'.
    by rewrite fetchMatches_matches.
  - intros s order s'. split; [done|]. unfold read at 1. subst s'.
    by rewrite handleSortChange_matches.
Qed.

(** C6: selecting the top N, for the table or for the CSV file, builds a
    new array, the first [topN] matches, and leaves the array of the state
    and every other array of the heap as it was.  This holds in every state
    whose reference points into the heap, as it does after any sequence of
    inputs. *)
Theorem C6_top_n_is_a_slice :
  (∀ (s : State) (job : Job.t),
     wf s →
     let pool := read (heap s) (matches s) in
     let s1 := (downloadCSV s job).1 in
     let s2 := (visibleMatches s).1 in
     (visibleMatches s).2 = take (Js.slice_end (length pool) (topN s)) pool
     ∧ (downloadCSV s job).2 = csvHeader :: map csvRow (visibleMatches s).2
     ∧ (matches s1 = matches s ∧ read (heap s1) (matches s1) = pool)
     ∧ (matches s2 = matches s ∧ read (heap s2) (matches s2) = pool)
     ∧ heap s ⊆ heap s1 ∧ heap s ⊆ heap s2)
  ∧ (∀ es : list Event, wf (run init es)).
Proof.
  split; [|apply wf_run].
  intros s job Hwf pool s1 s2.
  assert (heap s ⊆ <[fresh (dom (heap s)) :=
            Js.slice0 (read (heap s) (matches s)) (topN s)]> (heap s)) as Hsub.
  { apply insert_subseteq. apply fresh_not_allocated. }
  assert (∀ a, read (<[fresh (dom (heap s)) := a]> (heap s)) (matches s) = pool)
    as Hread.
  { intros a. unfold read. by rewrite insert_fresh_frame. }
  assert ((visibleMatches s).2
          = take (Js.slice_end (length pool) (topN s)) pool) as Hshown.
  { unfold visibleMatches, slice_matches, alloc, read. simpl.
    by rewrite lookup_insert_eq. }
  split; [exact Hshown|]. split.
  { rewrite Hshown. unfold downloadCSV, slice_matches, alloc, read. simpl.
    by rewrite lookup_insert_eq. }
  split; [split; [done|apply Hread]|].
  split; [split; [done|apply Hread]|].
  split; exact Hsub.
Qed.

(** C6 on the page after three matches were fetched and the top 2 asked
    for. *)
Lemma C6_top_n_is_a_slice_witness :
  let s := run init [ViewMatches "j1" (Json (Some [tieA; scored "s3" 90; tieB]));
                     TopNChange (Js.Fin (Js.of_Z 2))] in
  (visibleMatches s).2 = [scored "s3" 90; tieA]
  ∧ read (heap (downloadCSV s job).1) (matches (downloadCSV s job).1)
    = [scored "s3" 90; tieA; tieB].
Proof.
  intros s.
  destruct C6_top_n_is_a_slice as [Hslice _].
  destruct (Hslice s job) as (Hshown & _ & [_ Hpool] & _).
  - unfold wf. vm_compute. eauto.
  - split.
    + rewrite Hshown. vm_compute. reflexivity.
    + rewrite Hpool. vm_compute. reflexivity.
Defined.

Lemma topN_step (s : State) (e : Event) :
  Js.ge (topN s) (Js.Fin (Js.of_Z 1)) = true →
  Js.ge (topN (step s e)) (Js.Fin (Js.of_Z 1)) = true.
Proof.
  intros Hs. destruct e as [data|jobId r|order|value|job| | |jobId c r]; simpl;
    try exact Hs.
  - by destruct r as [| |[?|]].
  - unfold handleTopNChange.
    destruct (Js.ge value _) eqn:Hv; [exact Hv|exact Hs].
  - unfold handleDelete. destruct c; [|done]. destruct r; try done.
    simpl. by case_bool_decide.
Qed.

(** C10: the top-N size starts at 10 and is replaced only by a number that
    is at least 1, so it is at least 1 after any sequence of inputs. *)
Theorem C10_topN_at_least_one :
  ∀ es : list Event, Js.ge (topN (run init es)) (Js.Fin (Js.of_Z 1)) = true.
Proof.
  induction es as [|e es IH] using rev_ind.
  - vm_compute. reflexivity.
  - rewrite run_snoc. by apply topN_step.
Qed.

End JobsFacts.

(* ================================================================== *)
(** * The section parser                                                *)
(* ================================================================== *)

Section DashboardFacts.
Import Dashboard AnalysisSample.

Lemma span_app (p : ascii → bool) (a : list ascii) (c : ascii) (r : list ascii) :
  forallb p a = true → p c = false → span p (a ++ c :: r) = (a, c :: r).
Proof.
  intros Ha Hc. induction a as [|x a IH]; simpl in *.
  - by rewrite Hc.
  - apply andb_true_iff in Ha as [Hx Ha]. rewrite Hx, IH; done.
Qed.









(** ** The loop ends before its fuel *)

Lemma span_length (p : ascii → bool) (s : list ascii) :
  length (span p s).2 ≤ length s.
Proof.
  induction s as [|c s IH]; simpl; [done|].
  destruct (p c); [|simpl; lia].
  destruct (span p s) as [a b]. simpl in *. lia.
Qed.

Lemma match_line_length (s t r : list ascii) :
  match_line s = Some (t, r) → length r < length s.
Proof.
  unfold match_line. pose proof (span_length not_LF s) as Hs.
  destruct (span not_LF s) as [[|c a] [|c' b]]; try done.
  intros [= _ <-]. simpl in Hs. lia.
Qed.

Lemma match_heading_length (s t r : list ascii) :
  match_heading s = Some (t, r) → length r < length s.
Proof.
  revert t r. induction s as [|c s IH]; intros t r; simpl; [done|].
  destruct (Js.is_space c).
  - destruct (match_heading s) as [[t' r']|] eqn:Hs.
    + intros [= <- <-]. specialize (IH _ _ eq_refl). lia.
    + intros H. apply match_line_length in H. simpl in H. done.
  - intros H. apply match_line_length in H. simpl in H. done.
Qed.

Lemma match_content_length (s : list ascii) :
  length (match_content s).2 ≤ length s.
Proof.
  induction s as [|c s IH]; [done|].
  unfold match_content; fold match_content.
  destruct (lookahead (c :: s)); [done|].
  destruct (match_content s) as [b r]. simpl in *. lia.
Qed.

Lemma match_here_length (s : list ascii) (m : Match) :
  match_here s = Some m → length (rest m) < length s.
Proof.
  unfold match_here. destruct s as [|c1 [|c2 s]]; try done.
  destruct (_ && _); [|done].
  destruct (match_heading s) as [[t r]|] eqn:Hh; [|done].
  apply match_heading_length in Hh.
  pose proof (match_content_length r) as Hc.
  destruct (match_content r) as [b r']. intros [= <-]. simpl in *. lia.
Qed.

Lemma exec_length (s : list ascii) (m : Match) :
  exec s = Some m → length (rest m) < length s.
Proof.
  induction s as [|c s IH].
  - done.
  - unfold exec; fold exec.
    destruct (match_here (c :: s)) as [m'|] eqn:Hm.
    + intros [= <-]. by apply match_here_length.
    + intros H. specialize (IH H). simpl. lia.
Qed.

(** More fuel than the length of the text changes nothing: the loop of
    [parseAnalysisSections] always runs to the last match. *)
Lemma parse_loop_fuel (n fuel1 fuel2 : nat) (s : list ascii)
  (sections : gmap string string) :
  length s < n → n ≤ fuel1 → n ≤ fuel2 →
  parse_loop fuel1 s sections = parse_loop fuel2 s sections.
Proof.
  revert fuel1 fuel2 s sections.
  induction n as [|n IH]; intros fuel1 fuel2 s acc Hs H1 H2; [lia|].
  destruct fuel1 as [|fuel1]; [lia|]. destruct fuel2 as [|fuel2]; [lia|].
  simpl. destruct (exec s) as [m|] eqn:Hm; [|done].
  apply exec_length in Hm. apply IH; lia.
Qed.

Lemma parseAnalysisSections_fuel (analysis : string) (fuel : nat) :
  String.length analysis < fuel →
  parse_loop fuel (list_ascii_of_string analysis) ∅
  = parseAnalysisSections analysis.
Proof.
  intros Hf. unfold parseAnalysisSections.
  assert (length (list_ascii_of_string analysis) = String.length analysis)
    as Hlen.
  { clear. induction analysis as [|c s IH]; simpl; [done|]. by rewrite IH. }
  apply parse_loop_fuel with (n := S (length (list_ascii_of_string analysis)));
    lia.
Qed.

(** ** Analyses laid out in sections *)













(** The limits of the expression: a heading that ends the text has no
    line feed after it and is not stored; two hashes inside a line start
    a heading; a third hash belongs to the title. *)
Lemma headings_at_the_limits :
  parseAnalysisSections (String.concat (String LF "") ["## A"; "x"; "## B"])
  = {["A" := "x"]}
  ∧ parseAnalysisSections (String.concat (String LF "") ["Knows C## well"; "x"])
    = {["well" := "x"]}
  ∧ parseAnalysisSections (String.concat (String LF "") ["### A"; "x"])
    = {["# A" := "x"]}.
Proof. repeat split; vm_compute; reflexivity. Qed.

End DashboardFacts.

(* ================================================================== *)
(** * The controller                                                    *)
(* ================================================================== *)

Section ControllerFacts.
Import Controller.

(** C1, as stated, fails: a report whose analysis has no score, or whose
    score field is not a number, is accepted with status 200 and the score
    is stored and returned as 0. *)
Lemma C1_missing_score_is_stored_as_zero :
  let unscored :=
    uploadAnalysisReport ControllerSample.env ControllerSample.db
      ControllerSample.unscoredReport in
  let garbled :=
    uploadAnalysisReport ControllerSample.env ControllerSample.db
      ControllerSample.garbledReport in
  Dashboard.handleUpload (Some "u1") (Dashboard.Ok ControllerSample.unscored)
    "Data Scientist" "Data Science and Analytics"
  = Dashboard.Uploaded "u1"
      {| Dashboard.analysisResumeScore := "0";
         Dashboard.analysisAtsScore := "0";
         Dashboard.jobRole := "Data Scientist";
         Dashboard.jobCategory := "Data Science and Analytics" |}
  ∧ (status unscored.1 = 200%Z
   ∧ field unscored.1 "analysisResumeScore" = Some (JNumber 0)
   ∧ analysisResumeScore <$> individuals unscored.2 !! "u1" = Some 0%Z)
  ∧ (status garbled.1 = 200%Z
     ∧ field garbled.1 "analysisResumeScore" = Some (JNumber 0)
     ∧ field garbled.1 "analysisAtsScore" = Some (JNumber 0)
     ∧ analysisResumeScore <$> individuals garbled.2 !! "u1" = Some 0%Z).
Proof. repeat split; vm_compute; reflexivity. Qed.

(** The two outcomes of [uploadAnalysisReport]: an accepted request is
    answered 200 and the document is saved; any other request is answered
    403, 404, 400 or 500 and nothing is stored. *)
Lemma uploadAnalysisReport_cases (env : Env) (db : Db) (req : ReportRequest) :
  (accepted env db req
   ∧ status (uploadAnalysisReport env db req).1 = 200%Z
   ∧ ∃ (user : Individual) (url : string),
       individuals db !! params_id req = Some user
       ∧ upload env = inr url
       ∧ (uploadAnalysisReport env db req).2
         = {| individuals :=
                <[params_id req := reportRecord user req url]> (individuals db);
              institutions := institutions db |}
       ∧ field (uploadAnalysisReport env db req).1 "analysisResumeScore"
         = Some (JNumber (parseScore (body_analysisResumeScore req)))
       ∧ field (uploadAnalysisReport env db req).1 "analysisAtsScore"
         = Some (JNumber (parseScore (body_analysisAtsScore req))))
  ∨ (¬ accepted env db req
     ∧ failure (uploadAnalysisReport env db req).1
     ∧ (uploadAnalysisReport env db req).2 = db).
Proof.
  unfold uploadAnalysisReport, failure, accepted.
  destruct (String.eqb_spec (user_id req) (params_id req)) as [Hid|Hid]; simpl.
  2:{ right. split; [by intros [? _]|auto]. }
  destruct (individuals db !! params_id req) as [user|] eqn:Hu.
  2:{ right. split; [|simpl; auto]. by intros (_ & ? & ? & ? & ? & _). }
  destruct (report_file req) as [f|] eqn:Hf.
  2:{ right. split; [|simpl; auto]. by intros (_ & ? & ? & ? & _ & ? & _). }
  destruct (if bool_decide _ then _ else _) as [err|] eqn:Hdestroy.
  { right. split; [|simpl; auto 10].
    intros (_ & user' & _ & _ & [= <-] & _ & Hd & _).
    case_bool_decide as Hold; [|done]. rewrite Hd in Hdestroy; done. }
  destruct (upload env) as [err|url] eqn:Hup.
  { right. split; [|simpl; auto 10]. by intros (_ & ? & ? & ? & _ & _ & _ & ? & _). }
  fold (reportRecord user req url).
  destruct (save_error env (reportRecord user req url)) as [err|] eqn:Hsave.
  { right. split; [|simpl; auto 10].
    intros (_ & user' & _ & url' & [= <-] & _ & _ & [= <-] & Hs).
    rewrite Hs in Hsave. done. }
  left. split.
  - split; [done|]. exists user, f, url. repeat split; try done.
    intros Hold. by rewrite bool_decide_eq_true_2 in Hdestroy.
  - split; [done|]. exists user, url. repeat split.
Qed.

(** C1, amended: [uploadAnalysisReport] answers 200 exactly when the
    caller is the user of the record, the record exists, a file is
    attached, the previous report is destroyed without an error,
    Cloudinary takes the file and the document is saved; any other
    request is answered 403, 404, 400 or 500 and nothing is stored.  The
    score fields are no reason to refuse: the answer and the stored
    document depend on them through [parseInt(field, 10) || 0] only, which
    is 0 for a field that is absent or does not start with a number, so a
    missing score is accepted and stored exactly as the score 0 is.  (For
    score fields that hold no number or an integer up to 2^53.) *)
Theorem C1_scores_default_to_zero :
  ∀ (env : Env) (db : Db) (req : ReportRequest),
    safe_score (body_analysisResumeScore req) →
    safe_score (body_analysisAtsScore req) →
    let r := (uploadAnalysisReport env db req).1 in
    let db' := (uploadAnalysisReport env db req).2 in
    (status r = 200%Z ↔ accepted env db req)
    ∧ (status r ≠ 200%Z → failure r ∧ db' = db)
    ∧ (status r = 200%Z →
       ∃ (user : Individual) (url : string),
         individuals db !! params_id req = Some user
         ∧ upload env = inr url
         ∧ db' = {| individuals :=
                      <[params_id req := reportRecord user req url]>
                        (individuals db);
                    institutions := institutions db |}
         ∧ field r "analysisResumeScore"
           = Some (JNumber (parseScore (body_analysisResumeScore req)))
         ∧ field r "analysisAtsScore"
           = Some (JNumber (parseScore (body_analysisAtsScore req))))
    ∧ (∀ x : option string, x ≫= Js.parseInt10 = None → parseScore x = 0%Z)
    ∧ (∀ (x : string) (n : Z),
         Js.parseInt10 x = Some n → (Z.abs n ≤ 2 ^ 53)%Z →
         parseScore (Some x) = n)
    ∧ (∀ resume ats : option string,
         parseScore resume = parseScore (body_analysisResumeScore req) →
         parseScore ats = parseScore (body_analysisAtsScore req) →
         uploadAnalysisReport env db (with_scores req resume ats)
         = uploadAnalysisReport env db req).
Proof.
  intros env db req _ _ r db'. subst r db'.
  assert (∀ r : Response, failure r → status r ≠ 200%Z) as Hfail.
  { intros r [H|[H|[H|H]]]; rewrite H; done. }
  split; [|split; [|split; [|split; [|split]]]].
  - destruct (uploadAnalysisReport_cases env db req)
      as [(Hacc & Hok & _)|(Hno & Hf & _)]; [done|].
    split; [intros H; by destruct (Hfail _ Hf)|done].
  - destruct (uploadAnalysisReport_cases env db req)
      as [(_ & Hok & _)|(_ & Hf & Hdb)]; done.
  - destruct (uploadAnalysisReport_cases env db req)
      as [(_ & _ & Hstored)|(_ & Hf & _)]; [done|].
    intros H. by destruct (Hfail _ Hf).
  - intros x Hx. unfold parseScore. by rewrite Hx.
  - intros x n Hx _. unfold parseScore. simpl. by rewrite Hx.
  - intros resume ats Hr Ha. unfold uploadAnalysisReport.
    cbn [with_scores params_id user_id report_file body_analysisResumeScore
           body_analysisAtsScore body_jobRole body_jobCategory].
    by rewrite Hr, Ha.
Qed.

(** C1, amended, on a report whose score fields read N/A and nothing, for
    a student whose record held the scores 72 and 65: the report is
    accepted, both scores become 0, and the answer is the one that the
    scores 0 and 0 get. *)
Lemma C1_scores_default_to_zero_witness :
  let out :=
    uploadAnalysisReport ControllerSample.env ControllerSample.analysedDb
      ControllerSample.garbledReport in
  status out.1 = 200%Z
  ∧ (∃ user : Individual,
       individuals ControllerSample.analysedDb !! "u1" = Some user
       ∧ analysisResumeScore user = 72%Z
       ∧ out.2
         = {| individuals :=
                <["u1" := reportRecord user ControllerSample.garbledReport
                            "https://res.cloudinary.com/demo/raw/upload/report.pdf"]>
                  (individuals ControllerSample.analysedDb);
              institutions := institutions ControllerSample.analysedDb |}
       ∧ analysisResumeScore
           (reportRecord user ControllerSample.garbledReport
              "https://res.cloudinary.com/demo/raw/upload/report.pdf") = 0%Z)
  ∧ uploadAnalysisReport ControllerSample.env ControllerSample.analysedDb
      (with_scores ControllerSample.garbledReport (Some "0") (Some "0"))
    = out.
Proof.
  intros out.
  assert (safe_score (Some "N/A")) as Hresume
    by (intros n H; discriminate H).
  assert (safe_score None) as Hats by (intros n H; discriminate H).
  destruct (C1_scores_default_to_zero ControllerSample.env
              ControllerSample.analysedDb ControllerSample.garbledReport
              Hresume Hats) as (Hacc & _ & Hok & _ & _ & Hsame).
  assert (status out.1 = 200%Z) as Hstatus.
  { apply Hacc. split; [reflexivity|].
    exists ControllerSample.analysed, ControllerSample.pdf,
      "https://res.cloudinary.com/demo/raw/upload/report.pdf".
    repeat split. }
  split; [exact Hstatus|]. split.
  - destruct (Hok Hstatus) as (user & url & Huser & Hurl & Hdb & _).
    injection Hurl as <-. exists user.
    split; [exact Huser|]. split.
    + injection Huser as <-. reflexivity.
    + split; [exact Hdb|reflexivity].
  - apply Hsame; reflexivity.
Defined.

(** ** Registration *)

(** A registration that is not answered 201 is answered 400 or 500 and
    creates no record. *)
Lemma registerIndividual_refused (env : Env) (db : Db) (req : RegisterRequest) :
  status (registerIndividual env db req).1 ≠ 201%Z →
  (registerIndividual env db req).2 = db
  ∧ (status (registerIndividual env db req).1 = 400%Z
     ∨ status (registerIndividual env db req).1 = 500%Z).
Proof.
  unfold registerIndividual.
  destruct (_ || _); [auto|].
  destruct (bool_decide _); [auto|].
  destruct (cast_error env _); [auto|].
  destruct (negb _); [auto|].
  destruct (file req) as [f|]; [|auto].
  destruct (match buffer f with Some _ => _ | None => _ end); [auto|].
  destruct (negb _); [auto|].
  destruct (_ <? _)%Z; [auto|].
  destruct (upload env); [auto|].
  destruct (cast_year env _); [auto|].
  destruct (save_error env _); [auto|]. done.
Qed.

(** An empty upload is refused: no record is created, and the answer is
    400 unless the college of the request is not an identifier, in which
    case it may be the 500 of the rejected [findById]. *)
Lemma registerIndividual_empty_file (env : Env) (db : Db)
  (req : RegisterRequest) (f : File) :
  file req = Some f → empty_file f →
  (registerIndividual env db req).2 = db
  ∧ (status (registerIndividual env db req).1 = 400%Z
     ∨ status (registerIndividual env db req).1 = 500%Z
       ∧ malformed_college env req).
Proof.
  intros Hf Hempty. unfold registerIndividual, malformed_college.
  destruct (_ || _) eqn:Hfields; [auto|].
  destruct (bool_decide _); [auto|].
  destruct (body_college req) as [c|] eqn:Hc.
  2:{ simpl in Hfields. by rewrite !orb_true_r in Hfields. }
  simpl.
  destruct (cast_error env c) as [err|] eqn:Hcast.
  { split; [done|]. right. split; [done|]. by exists c, err. }
  destruct (negb _); [auto|].
  rewrite Hf.
  destruct Hempty as [->| ->]; auto.
Qed.

(** C9, on two registrations that the claim would have answered 400; the
    code does not.  A college that is not an identifier makes [findById]
    reject: the controller answers 500 from its [catch], in front of its
    own 'Invalid college ID'.  A file that is not a PDF never reaches the
    controller on the route: multer passes an error on, the controller's
    'Only PDF files are allowed' is not sent, and whatever the
    application's error handler answers is the response.  No record is
    created in either case. *)
Lemma C9_registration_is_not_always_answered_400 :
  registerIndividual ControllerSample.env ControllerSample.db
    (ControllerSample.registerAt "abc" (Some ControllerSample.pdf))
  = (registrationError "Cast to ObjectId failed", ControllerSample.db)
  ∧ status (registrationError "Cast to ObjectId failed") = 500%Z
  ∧ registerIndividual ControllerSample.env ControllerSample.db
      (ControllerSample.registerAt "c9" (Some ControllerSample.pdf))
    = (respond 400 "Invalid college ID", ControllerSample.db)
  ∧ register_route ControllerSample.passThrough ControllerSample.env
      ControllerSample.db (ControllerSample.register None)
      (Some ControllerSample.textPart)
    = (Forwarded "Only PDF files are allowed", ControllerSample.db)
  ∧ ∀ onError : string → Response,
      register_endpoint onError ControllerSample.passThrough
        ControllerSample.env ControllerSample.db
        (ControllerSample.register None) (Some ControllerSample.textPart)
      = (onError "Only PDF files are allowed", ControllerSample.db).
Proof. repeat split. Qed.

End ControllerFacts.

(* ================================================================== *)
(** * The engine                                                        *)
(* ================================================================== *)

Section EngineFacts.
Import Engine.
Local Open Scope R_scope.

Lemma dot_self_nonneg (u : list R) : 0 <= dot u u.
Proof.
  induction u as [|x u IH]; simpl; [lra|].
  pose proof (Rle_0_sqr x) as Hx. unfold Rsqr in Hx. lra.
Qed.

(** Cauchy and Schwarz, for one more coordinate. *)
Lemma cauchy_schwarz_step (x y s a b : R) :
  0 <= a → 0 <= b → s * s <= a * b →
  (x * y + s) * (x * y + s) <= (x * x + a) * (y * y + b).
Proof.
  intros Ha Hb Hs.
  assert (2 * (x * y) * s <= x * x * b + y * y * a) as Hmix.
  { apply Rsqr_incr_0_var.
    - unfold Rsqr.
      assert (0 <= (x * x * b - y * y * a) * (x * x * b - y * y * a)) as Hsq
        by apply Rle_0_sqr.
      assert (0 <= (x * y) * (x * y)) as Hxy by apply Rle_0_sqr.
      assert ((x * y) * (x * y) * (s * s) <= (x * y) * (x * y) * (a * b)) as Hm
        by (apply Rmult_le_compat_l; assumption).
      lra.
    - assert (0 <= x * x) by apply Rle_0_sqr.
      assert (0 <= y * y) by apply Rle_0_sqr.
      assert (0 <= x * x * b) by (apply Rmult_le_pos; assumption).
      assert (0 <= y * y * a) by (apply Rmult_le_pos; assumption).
      lra. }
  lra.
Qed.

Lemma cauchy_schwarz (u v : list R) :
  dot u v * dot u v <= dot u u * dot v v.
Proof.
  revert v. induction u as [|x u IH]; intros [|y v]; simpl.
  - lra.
  - lra.
  - rewrite Rmult_0_l, Rmult_0_r. lra.
  - apply cauchy_schwarz_step; [apply dot_self_nonneg..|apply IH].
Qed.

Lemma norm_nonneg (u : list R) : 0 <= norm u.
Proof. apply sqrt_pos. Qed.

Lemma norm_sqr (u : list R) : norm u * norm u = dot u u.
Proof. apply sqrt_sqrt, dot_self_nonneg. Qed.

Lemma cosine_bounds (u v : list R) :
  norm u * norm v ≠ 0 → -1 <= cosine u v <= 1.
Proof.
  intros Hn. set (n := norm u * norm v) in *.
  assert (0 < n) as Hpos.
  { pose proof (norm_nonneg u). pose proof (norm_nonneg v).
    assert (0 <= n) by (apply Rmult_le_pos; assumption). lra. }
  assert (dot u v * dot u v <= n * n) as Hcs.
  { replace (n * n) with ((norm u * norm u) * (norm v * norm v))
      by (unfold n; ring).
    rewrite !norm_sqr. apply cauchy_schwarz. }
  assert (- n <= dot u v <= n) as [Hlo Hhi].
  { split.
    - apply Ropp_le_cancel. rewrite Ropp_involutive.
      apply Rsqr_incr_0_var; [unfold Rsqr; lra|lra].
    - apply Rsqr_incr_0_var; [unfold Rsqr; lra|lra]. }
  unfold cosine. fold n. split.
  - apply Rmult_le_reg_r with n; [done|].
    unfold Rdiv. rewrite Rmult_assoc, Rinv_l by lra. lra.
  - apply Rmult_le_reg_r with n; [done|].
    unfold Rdiv. rewrite Rmult_assoc, Rinv_l by lra. lra.
Qed.

Lemma dot_nonneg (u v : list R) :
  Forall (Rle 0) u → Forall (Rle 0) v → 0 <= dot u v.
Proof.
  intros Hu. revert v. induction Hu as [|x u Hx Hu IH]; intros v Hv; simpl.
  - lra.
  - destruct Hv as [|y v Hy Hv]; [lra|].
    specialize (IH v Hv).
    assert (0 <= x * y) by (apply Rmult_le_pos; assumption). lra.
Qed.

Lemma cosine_nonneg (u v : list R) :
  Forall (Rle 0) u → Forall (Rle 0) v → norm u * norm v ≠ 0 → 0 <= cosine u v.
Proof.
  intros Hu Hv Hn. unfold cosine.
  pose proof (norm_nonneg u). pose proof (norm_nonneg v).
  assert (0 <= norm u * norm v) by (apply Rmult_le_pos; assumption).
  apply Rmult_le_pos; [by apply dot_nonneg|].
  left. apply Rinv_0_lt_compat. lra.
Qed.

Lemma similarity_score_range (range : CosineRange) (u v : list R) :
  (range = NonNegative → Forall (Rle 0) u ∧ Forall (Rle 0) v) →
  in_range (similarity_score range u v).
Proof.
  intros Hfit. unfold similarity_score, in_range.
  destruct (Req_dec_T (norm u * norm v) 0) as [|Hn]; [lra|].
  pose proof (cosine_bounds u v Hn) as [Hlo Hhi].
  destruct range; [lra|].
  destruct (Hfit eq_refl) as [Hu Hv].
  pose proof (cosine_nonneg u v Hu Hv Hn). lra.
Qed.

Lemma keyword_formula_range (tax : list (string * list string))
  (r j : gset string) : in_range (keyword_formula tax r j).
Proof.
  unfold keyword_formula, in_range.
  set (a := size (canonical_set tax r ∩ canonical_set tax j)).
  set (b := size (canonical_set tax j)).
  assert (a ≤ b)%nat as Hab.
  { apply subseteq_size. apply intersection_subseteq_r. }
  assert (0 <= INR a) by apply pos_INR.
  assert (1 <= INR (Nat.max 1 b)).
  { change 1 with (INR 1). apply le_INR. lia. }
  assert (INR a <= INR (Nat.max 1 b)) by (apply le_INR; lia).
  split.
  - apply Rmult_le_pos; [lra|]. left. apply Rinv_0_lt_compat. lra.
  - apply Rmult_le_reg_r with (INR (Nat.max 1 b)); [lra|].
    unfold Rdiv. rewrite Rmult_assoc, Rinv_l by lra. lra.
Qed.

Lemma keyword_score_range (tax : list (string * list string))
  (r j : gset string) : in_range (keyword_score tax r j).
Proof.
  unfold keyword_score. destruct (_ =? _)%nat.
  - unfold in_range. lra.
  - apply keyword_formula_range.
Qed.

Lemma experience_score_range (P : Pipeline) (cfg : Config) (J : JobPosting)
  (es : list ExperienceEntry) : in_range (experience_score P cfg J es).
Proof.
  unfold experience_score, in_range. split; [apply Rmax_l|].
  apply Rmax_lub; [lra|apply Rmin_l].
Qed.

Lemma aggregate_range (cfg : Config) (s k x : R) :
  valid_weights cfg → in_range s → in_range k → in_range x →
  in_range (aggregate cfg s k x).
Proof.
  unfold valid_weights, in_range, aggregate.
  intros (Hs & Hk & Hx & Hsum) [] [] [].
  set (a := w_similarity cfg) in *. set (b := w_keyword cfg) in *.
  set (c := w_experience cfg) in *.
  assert (0 <= a * s) by (apply Rmult_le_pos; assumption).
  assert (0 <= b * k) by (apply Rmult_le_pos; assumption).
  assert (0 <= c * x) by (apply Rmult_le_pos; assumption).
  assert (a * s <= a * 100) by (apply Rmult_le_compat_l; assumption).
  assert (b * k <= b * 100) by (apply Rmult_le_compat_l; assumption).
  assert (c * x <= c * 100) by (apply Rmult_le_compat_l; assumption).
  lra.
Qed.

Lemma score_with_range (P : Pipeline) (cfg : Config) (resume : ResumeDocument)
  (J : JobPosting) (jv : list R) (m : MatchResult.t) :
  valid_weights cfg →
  (cosine_range cfg = NonNegative →
   Forall (Rle 0) (vector resume) ∧ Forall (Rle 0) jv) →
  score_with P cfg resume J jv = Ok m →
  in_range (MatchResult.match_score m)
  ∧ in_range (MatchResult.similarity_score m)
  ∧ in_range (MatchResult.keyword_score m)
  ∧ in_range (MatchResult.experience_score m).
Proof.
  intros Hw Hfit. unfold score_with.
  destruct (negb _); [done|]. intros [= <-]. simpl.
  pose proof (similarity_score_range (cosine_range cfg) (vector resume) jv Hfit).
  pose proof (keyword_score_range (taxonomy cfg) (skills resume)
                (required_skills J)).
  pose proof (experience_score_range P cfg J (experience resume)).
  split; [by apply aggregate_range|]. split; [done|]. split; done.
Qed.

(** A mismatch of the term spaces is the only failure of [score_match]. *)
Lemma score_with_total (P : Pipeline) (cfg : Config) (resume : ResumeDocument)
  (J : JobPosting) (jv : list R) :
  length (vector resume) = length jv →
  ∃ m, score_with P cfg resume J jv = Ok m.
Proof.
  intros Hlen. unfold score_with.
  rewrite (proj2 (Nat.eqb_eq _ _) Hlen). simpl. eauto.
Qed.

Lemma canonical_set_empty (tax : list (string * list string)) :
  canonical_set tax ∅ = ∅.
Proof. unfold canonical_set. apply set_map_empty. Qed.

Lemma keyword_formula_empty (tax : list (string * list string))
  (r : gset string) : keyword_formula tax r ∅ = 0.
Proof.
  unfold keyword_formula. rewrite canonical_set_empty.
  rewrite intersection_empty_r_L.
  rewrite size_empty. simpl. lra.
Qed.

(** C3, as stated, fails: no score is both the formula for every pair of
    skill sets and 100 for an empty requirement set, because the formula is
    0 there. *)
Lemma C3_formula_is_zero_without_requirements :
  ¬ ∃ score : list (string * list string) → gset string → gset string → R,
      (∀ tax r j, score tax r j = keyword_formula tax r j)
      ∧ (∀ tax r, score tax r ∅ = 100).
Proof.
  intros (score & Hformula & Hempty).
  specialize (Hformula [] ∅ ∅).
  rewrite Hempty, keyword_formula_empty in Hformula. lra.
Qed.

Lemma sample_sizes :
  size (canonical_set EngineSample.taxonomy (skills EngineSample.resume)
        ∩ canonical_set EngineSample.taxonomy (required_skills EngineSample.job)) = 2%nat
  ∧ size (canonical_set EngineSample.taxonomy (required_skills EngineSample.job)) = 3%nat.
Proof. split; vm_compute; reflexivity. Qed.

(** Synonyms count as one skill: [JS] meets a requirement written
    [JavaScript]. *)
Example keyword_score_synonym :
  keyword_score EngineSample.taxonomy {["JS"]} {["JavaScript"]} = 100.
Proof.
  assert (size (canonical_set EngineSample.taxonomy {["JS"]}
                ∩ canonical_set EngineSample.taxonomy {["JavaScript"]}) = 1%nat
          ∧ size (canonical_set EngineSample.taxonomy {["JavaScript"]}) = 1%nat)
    as [Ha Hb] by (split; vm_compute; reflexivity).
  unfold keyword_score, keyword_formula. rewrite Ha, Hb. simpl. lra.
Qed.

Example normalize_sample :
  normalize EngineSample.cfg "Senior  Python/SQL developer, 5 yrs."
  = Ok "senior python sql developer 5 yrs".
Proof. reflexivity. Qed.

(** C3, amended: the keyword score is the formula whenever the job
    requires a skill, it is 100 when the job requires none, and it is
    100 × 2/3 for {Python, SQL} against {python, sql, spark}. *)
Theorem C3_keyword_score :
  (∀ tax r j,
     canonical_set tax j ≠ ∅ →
     keyword_score tax r j
     = 100 * INR (size (canonical_set tax r ∩ canonical_set tax j))
       / INR (Nat.max 1 (size (canonical_set tax j))))
  ∧ (∀ tax r, keyword_score tax r ∅ = 100)
  ∧ keyword_score EngineSample.taxonomy {["Python"; "SQL"]} {["python"; "sql"; "spark"]}
    = 100 * 2 / 3.
Proof.
  split; [|split].
  - intros tax r j Hj. unfold keyword_score.
    destruct (Nat.eqb_spec (size (canonical_set tax j)) 0) as [H0|]; [|done].
    apply size_empty_iff in H0. destruct Hj. by apply leibniz_equiv.
  - intros tax r. unfold keyword_score.
    by rewrite canonical_set_empty, size_empty.
  - destruct sample_sizes as [Ha Hb]. simpl in Ha, Hb.
    unfold keyword_score, keyword_formula. rewrite Ha, Hb. simpl. lra.
Qed.

(** C3, amended, on the scenario of the specification. *)
Lemma C3_keyword_score_witness :
  keyword_score EngineSample.taxonomy {["Python"; "SQL"]} {["python"; "sql"; "spark"]}
  = 100 * INR (size (canonical_set EngineSample.taxonomy {["Python"; "SQL"]}
                     ∩ canonical_set EngineSample.taxonomy {["python"; "sql"; "spark"]}))
    / INR (Nat.max 1 (size (canonical_set EngineSample.taxonomy
                              {["python"; "sql"; "spark"]}))).
Proof.
  destruct C3_keyword_score as [Hformula _]. apply Hformula.
  intros H. pose proof (proj2 sample_sizes) as Hsize. simpl in Hsize.
  rewrite H, size_empty in Hsize. discriminate Hsize.
Defined.

(** C4: with non-negative weights that sum to 1, and non-negative vectors
    where the cosine is mapped from [0,1], every [MatchResult] that
    [score_match] returns has its aggregate and its three sub-scores in
    [0,100]; it returns one whenever the two vectors have the same
    dimension. *)
Theorem C4_scores_in_range :
  ∀ (P : Pipeline) (cfg : Config) (resume : ResumeDocument) (job : JobPosting),
    valid_weights cfg →
    vectors_fit P cfg resume →
    (length (vector resume) = length (vectorize P (job_description job)) →
     ∃ m, score_match P cfg resume job = Ok m)
    ∧ ∀ m, score_match P cfg resume job = Ok m →
        in_range (MatchResult.match_score m)
        ∧ in_range (MatchResult.similarity_score m)
        ∧ in_range (MatchResult.keyword_score m)
        ∧ in_range (MatchResult.experience_score m).
Proof.
  intros P cfg resume job Hw Hfit. split.
  - apply score_with_total.
  - intros m. apply score_with_range; [done|].
    intros Hr. destruct (Hfit Hr) as [Hu Hv]. split; [done|apply Hv].
Qed.

Example sample_score :
  score_match EngineSample.pipeline EngineSample.cfg EngineSample.resume
    EngineSample.job
  = Ok EngineSample.result.
Proof. reflexivity. Qed.

(** C4 on the sample resume and job. *)
Lemma C4_scores_in_range_witness :
  in_range (MatchResult.match_score EngineSample.result)
  ∧ in_range (MatchResult.similarity_score EngineSample.result)
  ∧ in_range (MatchResult.keyword_score EngineSample.result)
  ∧ in_range (MatchResult.experience_score EngineSample.result).
Proof.
  apply (C4_scores_in_range EngineSample.pipeline EngineSample.cfg EngineSample.resume EngineSample.job).
  - unfold valid_weights. simpl. lra.
  - intros H. discriminate H.
  - reflexivity.
Defined.

(** C7: a text that is empty or shorter than the minimum length makes the
    normalizer fail with [ExtractionEmpty], and the scoring request built
    on it answers that failure, not a [MatchResult].  In the sources, the
    registration refuses an empty upload in the same way: no record is
    created, and the answer is 400, or the 500 of a rejected [findById]
    when the college of the request is not an identifier. *)
Theorem C7_short_text_is_not_scored :
  (∀ (P : Pipeline) (cfg : Config) (id text : string) (j : JobRequest),
     text = "" ∨ (String.length text < min_length cfg)%nat →
     normalize cfg text = Err ExtractionEmpty
     ∧ build_resume P cfg id text = Err ExtractionEmpty
     ∧ scoring_request P cfg id text j = Err ExtractionEmpty
     ∧ ∀ m, scoring_request P cfg id text j ≠ Ok m)
  ∧ (∀ (env : Controller.Env) (db : Controller.Db)
       (req : Controller.RegisterRequest) (f : Controller.File),
       Controller.file req = Some f →
       Controller.empty_file f →
       (Controller.registerIndividual env db req).2 = db
       ∧ (Controller.status (Controller.registerIndividual env db req).1
          = 400%Z
          ∨ Controller.status (Controller.registerIndividual env db req).1
            = 500%Z
            ∧ Controller.malformed_college env req)).
Proof.
  split.
  - intros P cfg id text j Hshort.
    assert (normalize cfg text = Err ExtractionEmpty) as Hn.
    { unfold normalize. destruct Hshort as [->|Hlt]; [done|].
      apply Nat.ltb_lt in Hlt. rewrite Hlt. by rewrite orb_true_r. }
    assert (build_resume P cfg id text = Err ExtractionEmpty) as Hb.
    { unfold build_resume. by rewrite Hn. }
    assert (scoring_request P cfg id text j = Err ExtractionEmpty) as Hs.
    { unfold scoring_request. by rewrite Hb. }
    repeat split; try done. intros m. by rewrite Hs.
  - intros env db req f Hf Hempty.
    by apply (registerIndividual_empty_file env db req f).
Qed.

(** C7 on a text of eleven characters and on an empty upload. *)
Lemma C7_short_text_is_not_scored_witness :
  scoring_request EngineSample.pipeline EngineSample.cfg "s1" "Python, SQL"
    EngineSample.jobRequest
  = Err ExtractionEmpty
  ∧ Controller.status
      (Controller.registerIndividual ControllerSample.env ControllerSample.db
         (ControllerSample.register (Some ControllerSample.emptyPdf))).1
    = 400%Z
  ∧ (Controller.registerIndividual ControllerSample.env ControllerSample.db
       (ControllerSample.register (Some ControllerSample.emptyPdf))).2
    = ControllerSample.db.
Proof.
  destruct C7_short_text_is_not_scored as [Hengine Hupload].
  split.
  - apply (Hengine EngineSample.pipeline EngineSample.cfg "s1" "Python, SQL"
             EngineSample.jobRequest).
    right. simpl. lia.
  - destruct (Hupload ControllerSample.env ControllerSample.db
                (ControllerSample.register (Some ControllerSample.emptyPdf))
                ControllerSample.emptyPdf) as [Hdb Hstatus].
    + reflexivity.
    + right. reflexivity.
    + split; [|exact Hdb].
      destruct Hstatus as [H|[H _]]; [exact H|discriminate H].
Defined.

Lemma score_match_cached_twice (P : Pipeline) (cfg : Config) (cache : Cache)
  (resume : ResumeDocument) (job : JobPosting) :
  let first := score_match_cached P cfg cache resume job in
  let second := score_match_cached P cfg first.2 resume job in
  second.1 = first.1 ∧ second.2 = first.2.
Proof.
  unfold score_match_cached, job_vector.
  destruct (cache !! _) as [v|] eqn:Hhit; simpl.
  - rewrite Hhit. done.
  - rewrite lookup_insert_eq. done.
Qed.

Lemma score_match_cached_cold (P : Pipeline) (cfg : Config)
  (resume : ResumeDocument) (job : JobPosting) :
  (score_match_cached P cfg ∅ resume job).1 = score_match P cfg resume job.
Proof.
  unfold score_match_cached, job_vector. by rewrite lookup_empty.
Qed.

(** C5: a second call of [score_match] with the same documents answers
    exactly what the first one did, whatever the cache held before, and a
    cold cache answers what the computation without cache does; ranking the
    same pool a second time stores the same array, in which matches with
    equal scores are in the order of the pool, and ranking the ranked array
    again moves nothing. *)
Theorem C5_scoring_and_ranking_are_deterministic :
  (∀ (P : Pipeline) (cfg : Config) (cache : Cache) (resume : ResumeDocument)
     (job : JobPosting),
     let first := score_match_cached P cfg cache resume job in
     let second := score_match_cached P cfg first.2 resume job in
     second.1 = first.1 ∧ second.2 = first.2
     ∧ (score_match_cached P cfg ∅ resume job).1 = score_match P cfg resume job)
  ∧ (∀ (s : Jobs.State) (jobId : string) (pool : list ResumeMatch.t),
       let s1 := (Jobs.fetchMatches s jobId (Jobs.Json (Some pool))).1 in
       let s2 := (Jobs.fetchMatches s1 jobId (Jobs.Json (Some pool))).1 in
       Jobs.read (Jobs.heap s2) (Jobs.matches s2)
       = Jobs.read (Jobs.heap s1) (Jobs.matches s1)
       ∧ (∀ v : Qc,
            filter (λ m, ResumeMatch.match_score m = v)
              (Jobs.read (Jobs.heap s1) (Jobs.matches s1))
            = filter (λ m, ResumeMatch.match_score m = v) pool))
  ∧ (∀ (order : Jobs.SortOrder) (pool : list ResumeMatch.t),
       Jobs.rank order (Jobs.rank order pool) = Jobs.rank order pool).
Proof.
  split; [|split].
  - intros P cfg cache resume job first second.
    destruct (score_match_cached_twice P cfg cache resume job) as [H1 H2].
    split; [exact H1|]. split; [exact H2|]. apply score_match_cached_cold.
  - intros s jobId pool s1 s2. unfold Jobs.read. subst s2 s1.
    rewrite !fetchMatches_matches, fetchMatches_sortOrder. simpl.
    split; [done|]. intros v. apply rank_stable.
  - apply rank_idempotent.
Qed.

End EngineFacts.

(* ================================================================== *)
(** * More on the job page                                              *)
(* ================================================================== *)

Section MoreJobsFacts.
Import Jobs JobsSample.

(** ** Arrays are never changed once the state has held them *)

Lemma step_heap_grows (s : State) (e : Event) : heap s ⊆ heap (step s e).
Proof.
  destruct e as [data|jobId r|order|value|job| | |jobId c r]; simpl.
  - done.
  - destruct r as [| |[data|]]; simpl; try done.
    unfold sort_in_place, alloc. simpl. rewrite insert_insert_eq.
    apply insert_subseteq, fresh_not_allocated.
  - unfold handleSortChange, sort_in_place, alloc. simpl.
    rewrite insert_insert_eq. apply insert_subseteq, fresh_not_allocated.
  - unfold handleTopNChange. by destruct (Js.ge _ _).
  - apply insert_subseteq, fresh_not_allocated.
  - apply insert_subseteq, fresh_not_allocated.
  - done.
  - unfold handleDelete. destruct c; [|done]. destruct r; try done.
    simpl. case_bool_decide; [|done]. simpl.
    apply insert_subseteq, fresh_not_allocated.
Qed.

(** X1: whatever the user does, every array that the heap holds stays as
    it is: the handlers sort and slice new arrays only. *)
Theorem arrays_are_never_mutated :
  ∀ (s : State) (es : list Event) (l : loc) (a : list ResumeMatch.t),
    heap s !! l = Some a → heap (run s es) !! l = Some a.
Proof.
  intros s es. induction es as [|e es IH] using rev_ind; intros l a Hl.
  - done.
  - rewrite run_snoc.
    eapply lookup_weaken; [apply IH, Hl|apply step_heap_grows].
Qed.

Lemma arrays_are_never_mutated_witness :
  let s := run init [ViewMatches "j1" (Json (Some [tieA; scored "s3" 90]))] in
  heap (run s [SortChange asc; TopNChange (Js.Fin (Js.of_Z 1)); Render])
    !! matches s
  = Some [scored "s3" 90; tieA].
Proof.
  intros s. apply arrays_are_never_mutated. vm_compute. reflexivity.
Defined.

(** ** Changing the sort order *)






End MoreJobsFacts.

(* ================================================================== *)
(** * Numbers written and read back                                     *)
(* ================================================================== *)

Section NumberText.

Lemma list_ascii_app (a b : string) :
  list_ascii_of_string (a +:+ b)
  = list_ascii_of_string a ++ list_ascii_of_string b.
Proof. induction a as [|c a IH]; simpl; [done|]. by rewrite IH. Qed.

Lemma pretty_N_char_digit (n : N) :
  (n < 10)%N →
  Js.is_digit (pretty_N_char n) = true
  ∧ Js.digit_val (pretty_N_char n) = Z.of_N n.
Proof.
  intros Hn.
  assert (n = 0 ∨ n = 1 ∨ n = 2 ∨ n = 3 ∨ n = 4 ∨ n = 5 ∨ n = 6 ∨ n = 7
          ∨ n = 8 ∨ n = 9)%N as H by lia.
  repeat (destruct H as [->|H]; [by vm_compute|]). subst. by vm_compute.
Qed.

(** The decimal digits that [toString] writes for [x], in front of [s]. *)
Lemma pretty_N_go_digits (x : N) (s : string) :
  ∃ d : list ascii,
    list_ascii_of_string (pretty_N_go x s) = d ++ list_ascii_of_string s
    ∧ Forall (λ c, Js.is_digit c = true) d
    ∧ ((0 < x)%N → d ≠ [])
    ∧ ∀ (acc : Z) (rest : list ascii),
        Js.digits_val acc (d ++ rest)
        = Js.digits_val (acc * 10 ^ Z.of_nat (length d) + Z.of_N x) rest.
Proof.
  revert s. induction (N.lt_wf_0 x) as [x _ IH]; intros s.
  destruct (decide (x = 0)%N) as [->|Hx].
  - exists []. rewrite pretty_N_go_0. repeat split; [done|lia|].
    intros acc rest. simpl. f_equal. lia.
  - rewrite pretty_N_go_step by lia.
    destruct (IH (x `div` 10)%N) with
      (s := String (pretty_N_char (x `mod` 10)) s) as (d & Hd & Hdig & _ & Hval).
    { apply N.div_lt; lia. }
    destruct (pretty_N_char_digit (x `mod` 10)%N) as [Hc Hv].
    { apply N.mod_lt. lia. }
    exists (d ++ [pretty_N_char (x `mod` 10)]). repeat split.
    + rewrite Hd. simpl. by rewrite <- app_assoc.
    + apply Forall_app. split; [done|]. by constructor.
    + intros _. by destruct d.
    + intros acc rest. rewrite <- app_assoc. simpl. rewrite Hval.
      simpl. rewrite Hc, Hv. f_equal.
      rewrite length_app. simpl.
      replace (Z.of_nat (length d + 1)) with (Z.of_nat (length d) + 1)%Z by lia.
      rewrite Z.pow_add_r by lia.
      pose proof (N.div_mod x 10 ltac:(lia)) as Hdm.
      rewrite !N2Z.inj_div. change (Z.of_N 10) with 10%Z.
      assert (Z.of_N (x `mod` 10) = Z.of_N x `mod` 10)%Z as -> by
        (rewrite N2Z.inj_mod; done).
      pose proof (Z.div_mod (Z.of_N x) 10 ltac:(lia)). lia.
Qed.

Lemma pretty_positive_digits (p : positive) :
  ∃ (c : ascii) (d : list ascii),
    list_ascii_of_string (pretty (Z.pos p)) = c :: d
    ∧ Forall (λ c, Js.is_digit c = true) (c :: d)
    ∧ Js.digits_val 0 (c :: d) = Z.pos p.
Proof.
  change (pretty (Z.pos p)) with (pretty_N_go (N.pos p) "").
  destruct (pretty_N_go_digits (N.pos p) "") as (d & Hd & Hdig & Hne & Hval).
  simpl in Hd. rewrite app_nil_r in Hd.
  destruct d as [|c d]; [by destruct Hne|].
  exists c, d. split; [done|]. split; [done|].
  specialize (Hval 0%Z []). rewrite app_nil_r in Hval. rewrite Hval.
  simpl. lia.
Qed.

Lemma digit_not_space (c : ascii) : Js.is_digit c = true → Js.is_space c = false.
Proof.
  unfold Js.is_digit, Js.is_space. intros H.
  apply andb_true_iff in H as [H1 H2].
  apply Nat.leb_le in H1, H2.
  destruct (9 <=? nat_of_ascii c) eqn:E1; simpl.
  - destruct (nat_of_ascii c <=? 13) eqn:E2; simpl.
    + apply Nat.leb_le in E2. lia.
    + destruct (nat_of_ascii c =? 32) eqn:E3; simpl.
      * apply Nat.eqb_eq in E3. lia.
      * apply Nat.eqb_neq. lia.
  - apply Nat.leb_gt in E1. lia.
Qed.

(** [parseInt] on a text that starts with a digit. *)
Lemma parseInt10_digits (c : ascii) (d : list ascii) :
  Js.is_digit c = true →
  Js.parseInt10 (string_of_list_ascii (c :: d))
  = Some (Js.digits_val 0 (c :: d)).
Proof.
  intros Hc. unfold Js.parseInt10.
  rewrite list_ascii_of_string_of_list_ascii.
  unfold Js.trim_start; fold Js.trim_start.
  rewrite (digit_not_space c Hc).
  destruct c as [[] [] [] [] [] [] [] []];
    try (cbv in Hc; discriminate Hc);
    cbn -[Js.digits_val Z.mul]; by rewrite Z.mul_1_l.
Qed.

(** [parseInt(n.toString(), 10)] is [n]. *)
Lemma parseInt10_pretty (z : Z) : Js.parseInt10 (pretty z) = Some z.
Proof.
  destruct z as [|p|p].
  - reflexivity.
  - destruct (pretty_positive_digits p) as (c & d & Hs & Hdig & Hval).
    rewrite <- (string_of_list_ascii_of_string (pretty (Z.pos p))), Hs.
    inversion Hdig as [|? ? Hc _]; subst.
    by rewrite parseInt10_digits, Hval.
  - destruct (pretty_positive_digits p) as (c & d & Hs & Hdig & Hval).
    unfold Js.parseInt10.
    change (pretty (Z.neg p)) with ("-" +:+ pretty (Z.pos p)).
    rewrite list_ascii_app, Hs.
    inversion Hdig as [|? ? Hc _]; subst.
    change (list_ascii_of_string "-" ++ c :: d) with ("-"%char :: c :: d).
    unfold Js.trim_start; fold Js.trim_start.
    change (Js.is_space "-") with false.
    cbn -[Js.digits_val Z.mul Js.is_digit].
    rewrite Hc, Hval. reflexivity.
Qed.

End NumberText.

(* ================================================================== *)
(** * The table and the exported file                                   *)
(* ================================================================== *)

Section TableFacts.
Import Jobs JobsSample.

Lemma trunc_at_least_one (q : Qc) : (Js.of_Z 1 ≤ q)%Qc → (1 ≤ Js.trunc q)%Z.
Proof.
  intros H. unfold Qcle, Qle in H. simpl in H. unfold Js.trunc.
  apply Z.quot_le_lower_bound; lia.
Qed.

Lemma slice_end_bounds (len : nat) (n : Js.number) :
  Js.ge n (Js.Fin (Js.of_Z 1)) = true →
  Js.slice_end len n ≤ len ∧ (0 < len → 0 < Js.slice_end len n).
Proof.
  intros Hn. destruct n as [|q| |]; simpl in *; try done.
  apply bool_decide_eq_true in Hn. apply trunc_at_least_one in Hn.
  destruct (Z.ltb_spec (Js.trunc q) 0); lia.
Qed.

Lemma visibleMatches_rows (s : State) :
  (visibleMatches s).2
  = take (Js.slice_end (length (read (heap s) (matches s))) (topN s))
      (read (heap s) (matches s)).
Proof.
  unfold visibleMatches, slice_matches, alloc, read. simpl.
  by rewrite lookup_insert_eq.
Qed.

Lemma downloadCSV_rows (s : State) (job : Job.t) :
  (downloadCSV s job).2 = csvHeader :: map csvRow (visibleMatches s).2.
Proof.
  rewrite visibleMatches_rows.
  unfold downloadCSV, slice_matches, alloc, read. simpl.
  by rewrite lookup_insert_eq.
Qed.

(** X3: after any sequence of inputs, the table shows a prefix of the
    matches, at least one row as soon as there is a match, and the
    exported file holds the header and the rows shown, in the order of the
    table. *)
Theorem table_shows_a_nonempty_prefix :
  ∀ (es : list Event) (job : Job.t),
    let s := run init es in
    let pool := read (heap s) (matches s) in
    let rows := (visibleMatches s).2 in
    rows `prefix_of` pool
    ∧ (pool ≠ [] → rows ≠ [])
    ∧ (downloadCSV s job).2 = csvHeader :: map csvRow rows.
Proof.
  intros es job s pool rows.
  assert (Js.ge (topN s) (Js.Fin (Js.of_Z 1)) = true) as Htop.
  { subst s. induction es as [|e es IH] using rev_ind.
    - vm_compute. reflexivity.
    - rewrite run_snoc. by apply topN_step. }
  destruct (slice_end_bounds (length pool) (topN s) Htop) as [Hle Hpos].
  subst rows. rewrite downloadCSV_rows, visibleMatches_rows. fold pool.
  split; [apply prefix_take|]. split; [|done].
  intros Hne Hnil. apply (f_equal length) in Hnil.
  rewrite length_take in Hnil. simpl in Hnil.
  destruct pool; [done|]. simpl in *. lia.
Qed.

Lemma table_shows_a_nonempty_prefix_witness :
  let s := run init [ViewMatches "j1" (Json (Some [tieA; tieB]));
                     TopNChange (Js.Fin (Js.of_Z 0)); TopNChange Js.NaN] in
  (visibleMatches s).2 `prefix_of` read (heap s) (matches s)
  ∧ (visibleMatches s).2 ≠ [].
Proof.
  intros s.
  destruct (table_shows_a_nonempty_prefix
              [ViewMatches "j1" (Json (Some [tieA; tieB]));
               TopNChange (Js.Fin (Js.of_Z 0)); TopNChange Js.NaN] job)
    as (Hprefix & Hrows & _).
  split; [exact Hprefix|]. apply Hrows. vm_compute. discriminate.
Defined.



End TableFacts.

Section CsvFacts.
Import Jobs Dashboard Csv.


















End CsvFacts.

(* ================================================================== *)
(** * Reports, the route and the handlers                               *)
(* ================================================================== *)

Section ReportFacts.
Import Controller.

Lemma or_else_text (x : string) (y z : option string) :
  x ≠ "" → or_else (or_else (Some x) y) z = Some x.
Proof.
  intros Hx. unfold or_else. simpl.
  destruct (String.eqb_spec x "") as [|_]; [done|]. simpl.
  by destruct (String.eqb_spec x "").
Qed.

(** X6: the integer scores of an analysis reach the record unchanged.  The
    dashboard writes them with [toString], the controller reads them back
    with [parseInt]: when the report is accepted, the stored and the
    returned scores are the analysis's, and so are the role and the
    category the student had chosen. *)
Theorem analysis_scores_reach_the_record :
  ∀ (env : Env) (db : Db) (id : string) (f : File)
    (r : Dashboard.AnalysisResult) (role category : string) (n m : Z),
    Dashboard.resume_score r = Some n →
    Dashboard.ats_score r = Some m →
    (Z.abs n ≤ 2 ^ 53)%Z → (Z.abs m ≤ 2 ^ 53)%Z →
    let out :=
      uploadAnalysisReport env db
        (report_request id f (Dashboard.reportForm r role category)) in
    status out.1 = 200%Z →
    ∃ user : Individual,
      individuals out.2 !! id = Some user
      ∧ analysisResumeScore user = n
      ∧ analysisAtsScore user = m
      ∧ field out.1 "analysisResumeScore" = Some (JNumber n)
      ∧ field out.1 "analysisAtsScore" = Some (JNumber m)
      ∧ (role ≠ "" → jobRole user = Some role)
      ∧ (category ≠ "" → jobCategory user = Some category).
Proof.
  intros env db id f r role category n m Hn Hm _ _ out. subst out.
  unfold uploadAnalysisReport, report_request, Dashboard.reportForm. simpl.
  rewrite Hn, Hm. simpl.
  destruct (negb _); [done|].
  destruct (individuals db !! id) as [user|]; [|done].
  destruct (if bool_decide _ then _ else _); [done|].
  destruct (upload env); [done|].
  destruct (save_error env _); [done|].
  simpl. intros _. eexists. rewrite lookup_insert_eq.
  split; [reflexivity|]. simpl.
  unfold parseScore. simpl. rewrite !parseInt10_pretty.
  repeat split; try done.
  - intros H. by apply or_else_text.
  - intros H. by apply or_else_text.
Qed.

Lemma analysis_scores_reach_the_record_witness :
  ∃ user : Individual,
    individuals
      (uploadAnalysisReport ControllerSample.env ControllerSample.db
         (report_request "u1" ControllerSample.pdf
            (Dashboard.reportForm (AnalysisSample.scored "") "Data Scientist"
               "Data Science and Analytics"))).2 !! "u1" = Some user
    ∧ analysisResumeScore user = 72%Z
    ∧ analysisAtsScore user = 65%Z.
Proof.
  destruct (analysis_scores_reach_the_record ControllerSample.env
              ControllerSample.db "u1" ControllerSample.pdf
              (AnalysisSample.scored "") "Data Scientist"
              "Data Science and Analytics" 72 65)
    as (user & Huser & Hr & Ha & _); try reflexivity; try (simpl; lia).
  exists user. auto.
Defined.

(** X7: behind the route, two of the controller's answers are out of
    reach.  A file that multer lets through is a PDF of at most 5 MB, so
    the registration is never answered 'Only PDF files are allowed' nor
    'File size exceeds 5MB limit'. *)
Theorem route_never_answers_the_file_checks :
  ∀ (validateUser : RegisterRequest → option Outcome) (env : Env) (db : Db)
    (req : RegisterRequest) (p : option Part) (r : Response),
    (∀ q, validateUser q = None) →
    (register_route validateUser env db req p).1 = Responded r →
    r ≠ respond 400 "Only PDF files are allowed"
    ∧ r ≠ respond 400 "File size exceeds 5MB limit".
Proof.
  intros validateUser env db req p r Hpass. unfold register_route.
  destruct (multer_single p) as [err|f] eqn:Hm; [done|].
  rewrite Hpass.
  destruct (registerIndividual env db _) as [r' db'] eqn:Hreg. simpl.
  intros [= <-]. apply (f_equal fst) in Hreg. simpl in Hreg. subst r'.
  unfold registerIndividual. simpl.
  destruct (_ || _); [by split|].
  destruct (bool_decide _); [by split|].
  destruct (cast_error env _); [by split|].
  destruct (negb (findById _ _)); [by split|].
  destruct f as [f|]; [|by split].
  unfold multer_single in Hm. destruct p as [part|]; [|done].
  destruct (String.eqb_spec (part_mimetype part) "application/pdf")
    as [Hpdf|]; [|done].
  simpl in Hm.
  destruct (Z.ltb_spec maxSize (part_length part)) as [|Hsize]; [done|].
  injection Hm as <-. simpl.
  destruct (Z.eqb_spec (part_length part) 0); [by split|].
  rewrite Hpdf. simpl.
  destruct (Z.ltb_spec maxSize (part_length part)); [lia|].
  destruct (upload env); [by split|].
  destruct (cast_year env _); [by split|].
  destruct (save_error env _); by split.
Qed.

Lemma route_never_answers_the_file_checks_witness :
  ∃ r,
    (register_route ControllerSample.passThrough ControllerSample.env
       ControllerSample.db (ControllerSample.register None)
       (Some ControllerSample.pdfPart)).1 = Responded r
    ∧ r ≠ respond 400 "Only PDF files are allowed".
Proof.
  eexists. split; [reflexivity|].
  eapply (route_never_answers_the_file_checks ControllerSample.passThrough
            ControllerSample.env ControllerSample.db
            (ControllerSample.register None) (Some ControllerSample.pdfPart)).
  - reflexivity.
  - reflexivity.
Defined.

End ReportFacts.

Section AccountsFacts.
Import Controller Accounts.

Lemma removePrevious_disk (env : Env) (disk : gset string) (user : Individual) :
  (removePrevious env disk user).1.2 ⊆ disk.
Proof.
  unfold removePrevious.
  destruct (resumeFilePath user) as [path|]; [|done].
  destruct (String.eqb path ""); [done|].
  destruct (isUrl path).
  - by destruct (getCloudinaryPublicId path).
  - case_bool_decide; simpl; [|done].
    intros x Hx. by apply elem_of_difference in Hx as [Hx _].
Qed.

(** X8: a handler changes no record but the caller's.  Whatever the
    request, [uploadPDF], [deletePDF] and [uploadAnalysisReport] leave
    every record other than the authenticated user's as it was, create and
    delete no record, and leave the institutions alone; a request on
    somebody else's record is answered 403 before any call is made. *)
Theorem handlers_change_only_the_callers_record :
  ∀ (env : Env) (now : Z) (db : Db) (disk : gset string)
    (req : FileRequest) (report : ReportRequest),
    let up := uploadPDF env now db disk req in
    let del := deletePDF env db disk req in
    let rep := uploadAnalysisReport env db report in
    (∀ j, j ≠ file_user_id req →
          individuals (Accounts.db up) !! j = individuals db !! j
          ∧ individuals (Accounts.db del) !! j = individuals db !! j)
    ∧ (∀ j, j ≠ user_id report → individuals rep.2 !! j = individuals db !! j)
    ∧ dom (individuals (Accounts.db up)) = dom (individuals db)
    ∧ dom (individuals (Accounts.db del)) = dom (individuals db)
    ∧ dom (individuals rep.2) = dom (individuals db)
    ∧ institutions (Accounts.db up) = institutions db
    ∧ institutions (Accounts.db del) = institutions db
    ∧ institutions rep.2 = institutions db
    ∧ (file_user_id req ≠ file_params_id req →
       up = {| response := respond 403 "Unauthorized"; Accounts.db := db;
               Accounts.disk := disk; effects := [] |}
       ∧ del = up)
    ∧ (user_id report ≠ params_id report →
       rep = (respond 403 "Unauthorized", db)).
Proof.
  intros env now db disk req report up del rep.
  assert (∀ (m : gmap string Individual) i u v,
            m !! i = Some u → dom (<[i := v]> m) = dom m) as Hdom.
  { intros m i u v Hi. rewrite dom_insert_L.
    apply elem_of_dom_2 in Hi.
    by apply subseteq_union_1_L, singleton_subseteq_l. }
  assert (∀ j, (j ≠ file_user_id req →
                individuals (Accounts.db up) !! j = individuals db !! j)
               ∧ dom (individuals (Accounts.db up)) = dom (individuals db)
               ∧ institutions (Accounts.db up) = institutions db) as Hup.
  { intros j. subst up. unfold uploadPDF.
    destruct (String.eqb_spec (file_user_id req) (file_params_id req))
      as [Hid|Hid]; simpl; [|done].
    destruct (individuals db !! file_params_id req) as [user|] eqn:Hu; [|done].
    destruct (uploaded req); [|done].
    destruct (removePrevious env disk user) as [[[err|] disk'] removed]; [done|].
    destruct (upload env); [done|].
    destruct (save_error env _); [done|]. simpl.
    split; [|split; [by eapply Hdom|done]].
    intros Hj. rewrite lookup_insert_ne; congruence. }
  assert (∀ j, (j ≠ file_user_id req →
                individuals (Accounts.db del) !! j = individuals db !! j)
               ∧ dom (individuals (Accounts.db del)) = dom (individuals db)
               ∧ institutions (Accounts.db del) = institutions db) as Hdel.
  { intros j. subst del. unfold deletePDF.
    destruct (String.eqb_spec (file_user_id req) (file_params_id req))
      as [Hid|Hid]; simpl; [|done].
    destruct (individuals db !! file_params_id req) as [user|] eqn:Hu; [|done].
    destruct (removePrevious env disk user) as [[[err|] disk'] removed]; [done|].
    destruct (save_error env _); [done|]. simpl.
    split; [|split; [by eapply Hdom|done]].
    intros Hj. rewrite lookup_insert_ne; congruence. }
  assert (∀ j, (j ≠ user_id report →
                individuals rep.2 !! j = individuals db !! j)
               ∧ dom (individuals rep.2) = dom (individuals db)
               ∧ institutions rep.2 = institutions db) as Hrep.
  { intros j. subst rep. unfold uploadAnalysisReport.
    destruct (String.eqb_spec (user_id report) (params_id report))
      as [Hid|Hid]; simpl; [|done].
    destruct (individuals db !! params_id report) as [user|] eqn:Hu; [|done].
    destruct (report_file report); [|done].
    destruct (if bool_decide _ then _ else _); [done|].
    destruct (upload env); [done|].
    destruct (save_error env _); [done|]. simpl.
    split; [|split; [by eapply Hdom|done]].
    intros Hj. rewrite lookup_insert_ne; congruence. }
  split; [intros j Hj; split; [by apply Hup|by apply Hdel]|].
  split; [intros j Hj; by apply Hrep|].
  split; [apply (Hup ""%string)|]. split; [apply (Hdel ""%string)|].
  split; [apply (Hrep ""%string)|].
  split; [apply (Hup ""%string)|]. split; [apply (Hdel ""%string)|].
  split; [apply (Hrep ""%string)|].
  split.
  - intros Hid. subst up del. unfold uploadPDF, deletePDF.
    by destruct (String.eqb_spec (file_user_id req) (file_params_id req)).
  - intros Hid. subst rep. unfold uploadAnalysisReport.
    by destruct (String.eqb_spec (user_id report) (params_id report)).
Qed.

End AccountsFacts.

(* ================================================================== *)
(** * Resume files                                                      *)
(* ================================================================== *)

Section ResumeFileFacts.
Import Controller Accounts.

Lemma removePrevious_local (env : Env) (disk : gset string) (user : Individual)
  (path : string) :
  resumeFilePath user = Some path → path ≠ "" → isUrl path = false →
  (removePrevious env disk user).1.1 = None
  ∧ (removePrevious env disk user).1.2 = disk ∖ {[path]}
  ∧ (removePrevious env disk user).2
    = if bool_decide (path ∈ disk) then [Unlink path] else [].
Proof.
  intros Hpath Hne Hurl. unfold removePrevious. rewrite Hpath.
  destruct (String.eqb_spec path ""); [done|]. rewrite Hurl.
  destruct (decide (path ∈ disk)) as [Hin|Hin].
  - rewrite !bool_decide_eq_true_2 by exact Hin. simpl.
    repeat split.
  - rewrite !bool_decide_eq_false_2 by exact Hin. simpl. split; [done|].
    split; [|done]. symmetry.
    by apply difference_disjoint_L, disjoint_singleton_r.
Qed.

(** X9: a deletion that is answered 200 clears the resume of the caller's
    record and nothing else in it; a previous file kept on the server's
    disk is gone and no other file is, and a previous Cloudinary file with
    a public identifier has been destroyed there.  A deletion that is not
    answered 200 changes no record. *)
Theorem deletePDF_clears_the_resume :
  ∀ (env : Env) (db : Db) (disk : gset string) (req : FileRequest),
    let out := deletePDF env db disk req in
    (status (response out) = 200%Z →
     ∃ user : Individual,
       individuals db !! file_params_id req = Some user
       ∧ individuals (Accounts.db out) !! file_params_id req
         = Some (setResumeFilePath None user)
       ∧ (∀ path, resumeFilePath user = Some path → path ≠ "" →
                  isUrl path = false →
                  Accounts.disk out = disk ∖ {[path]}
                  ∧ effects out
                    = if bool_decide (path ∈ disk) then [Unlink path] else [])
       ∧ (∀ path publicId, resumeFilePath user = Some path →
                  isUrl path = true →
                  getCloudinaryPublicId path = Some publicId →
                  Accounts.disk out = disk ∧ effects out = [Destroy publicId]))
    ∧ (status (response out) ≠ 200%Z → Accounts.db out = db).
Proof.
  intros env db disk req out. subst out. unfold deletePDF.
  destruct (negb _); [done|].
  destruct (individuals db !! file_params_id req) as [user|]; [|done].
  destruct (removePrevious env disk user) as [[failure disk'] removed] eqn:Hrm.
  destruct failure as [err|]; [done|].
  destruct (save_error env _); [done|]. simpl.
  split; [|done]. intros _. exists user. split; [done|].
  rewrite lookup_insert_eq. split; [done|]. split.
  - intros path Hpath Hne Hurl.
    destruct (removePrevious_local env disk user path Hpath Hne Hurl)
      as (_ & Hd & He).
    rewrite Hrm in Hd, He. done.
  - intros path publicId Hpath Hurl Hid. unfold removePrevious in Hrm.
    rewrite Hpath, Hurl, Hid in Hrm.
    destruct (String.eqb_spec path "") as [->|_]; [done|].
    by injection Hrm as _ <- <-.
Qed.

(** X9 on a student whose resume is a file on the server's disk: the
    record loses its path, the file is unlinked and the disk is left
    without it. *)
Lemma deletePDF_clears_the_resume_witness :
  let out :=
    deletePDF ControllerSample.env AccountsSample.db AccountsSample.disk
      {| file_params_id := "u1"; file_user_id := "u1"; uploaded := None |} in
  resumeFilePath AccountsSample.student = Some "uploads/asha.pdf"
  ∧ individuals (Accounts.db out) !! "u1"
    = Some (setResumeFilePath None AccountsSample.student)
  ∧ Accounts.disk out = AccountsSample.disk ∖ {["uploads/asha.pdf"]}
  ∧ effects out = [Unlink "uploads/asha.pdf"].
Proof.
  intros out.
  destruct (deletePDF_clears_the_resume ControllerSample.env AccountsSample.db
              AccountsSample.disk
              {| file_params_id := "u1"; file_user_id := "u1";
                 uploaded := None |}) as [H _].
  destruct H as (user & Huser & Hrecord & Hlocal & _); [reflexivity|].
  assert (user = AccountsSample.student) as ->.
  { apply (inj Some). rewrite <- Huser. reflexivity. }
  assert ("uploads/asha.pdf" ≠ "") as Hne by discriminate.
  destruct (Hlocal "uploads/asha.pdf" eq_refl Hne eq_refl) as [Hdisk Heffects].
  rewrite bool_decide_eq_true_2 in Heffects
    by (apply elem_of_singleton; reflexivity).
  split; [reflexivity|]. split; [exact Hrecord|].
  split; [exact Hdisk|exact Heffects].
Defined.

(** X10: an upload that is answered 200 stores the URL that Cloudinary
    returned in the caller's record, changes nothing else in it, and
    returns that URL; the file was uploaded to the folder [resumes] under
    the user's name and the time of the request, after the previous file
    had been removed.  An upload that is not answered 200 changes no
    record. *)
Theorem uploadPDF_replaces_the_resume :
  ∀ (env : Env) (now : Z) (db : Db) (disk : gset string) (req : FileRequest),
    let out := uploadPDF env now db disk req in
    (status (response out) = 200%Z →
     ∃ (user : Individual) (url : string),
       individuals db !! file_params_id req = Some user
       ∧ upload env = inr url
       ∧ individuals (Accounts.db out) !! file_params_id req
         = Some (setResumeFilePath (Some url) user)
       ∧ field (response out) "filePath" = Some (JString url)
       ∧ effects out
         = (removePrevious env disk user).2
           ++ [Upload "resumes" (name user +:+ "_" +:+ pretty now)]
       ∧ Accounts.disk out = (removePrevious env disk user).1.2)
    ∧ (status (response out) ≠ 200%Z → Accounts.db out = db).
Proof.
  intros env now db disk req out. subst out. unfold uploadPDF.
  destruct (negb _); [done|].
  destruct (individuals db !! file_params_id req) as [user|]; [|done].
  destruct (uploaded req); [|done].
  destruct (removePrevious env disk user) as [[failure disk'] removed] eqn:Hrm.
  destruct failure as [err|]; [done|].
  destruct (upload env) as [err|url]; [done|].
  destruct (save_error env _); [done|]. simpl.
  split; [|done]. intros _. exists user, url.
  rewrite lookup_insert_eq, Hrm. repeat split.
Qed.

Lemma uploadPDF_replaces_the_resume_witness :
  ∃ (user : Individual) (url : string),
    individuals ControllerSample.db !! "u1" = Some user
    ∧ individuals
        (Accounts.db
           (uploadPDF ControllerSample.env 1700000000000 ControllerSample.db ∅
              {| file_params_id := "u1"; file_user_id := "u1";
                 uploaded := Some ControllerSample.pdf |})) !! "u1"
      = Some (setResumeFilePath (Some url) user).
Proof.
  destruct (uploadPDF_replaces_the_resume ControllerSample.env 1700000000000
              ControllerSample.db ∅
              {| file_params_id := "u1"; file_user_id := "u1";
                 uploaded := Some ControllerSample.pdf |}) as [H _].
  destruct H as (user & url & H1 & _ & H2 & _); [reflexivity|].
  exists user, url. split; [exact H1|exact H2].
Defined.

(** X11: the previous resume is removed before the new one is uploaded, so
    a failed upload loses it.  When the record names a file on the
    server's disk and Cloudinary refuses the new file, the request is
    answered 500 and the record still names the old file, which no longer
    exists. *)
Theorem failed_upload_loses_the_previous_resume :
  ∀ (env : Env) (now : Z) (db : Db) (disk : gset string) (req : FileRequest)
    (user : Individual) (path err : string) (f : File),
    file_user_id req = file_params_id req →
    individuals db !! file_params_id req = Some user →
    uploaded req = Some f →
    resumeFilePath user = Some path → path ≠ "" → isUrl path = false →
    path ∈ disk →
    upload env = inl err →
    let out := uploadPDF env now db disk req in
    status (response out) = 500%Z
    ∧ Accounts.db out = db
    ∧ (path ∉ Accounts.disk out)
    ∧ effects out
      = [Unlink path; Upload "resumes" (name user +:+ "_" +:+ pretty now)].
Proof.
  intros env now db disk req user path err f Hid Hu Hf Hpath Hne Hurl Hin Herr
    out.
  subst out. unfold uploadPDF. rewrite Hid, String.eqb_refl, Hu, Hf. simpl.
  destruct (removePrevious_local env disk user path Hpath Hne Hurl)
    as (Hn & Hd & He).
  destruct (removePrevious env disk user) as [[failure disk'] removed].
  simpl in Hn, Hd, He. subst failure disk' removed.
  rewrite Herr. simpl.
  rewrite bool_decide_eq_true_2 by done.
  repeat split; try done.
  intros H. apply elem_of_difference in H as [_ H].
  by apply H, elem_of_singleton.
Qed.

Lemma failed_upload_loses_the_previous_resume_witness :
  let out :=
    uploadPDF AccountsSample.offline 1700000000000 AccountsSample.db
      AccountsSample.disk AccountsSample.request in
  status (response out) = 500%Z ∧ "uploads/asha.pdf" ∉ Accounts.disk out.
Proof.
  intros out.
  assert ("uploads/asha.pdf" ≠ "") as Hne by discriminate.
  assert ("uploads/asha.pdf" ∈ AccountsSample.disk) as Hin
    by (apply elem_of_singleton; reflexivity).
  destruct (failed_upload_loses_the_previous_resume AccountsSample.offline
              1700000000000 AccountsSample.db AccountsSample.disk
              AccountsSample.request AccountsSample.student
              "uploads/asha.pdf" "timeout" ControllerSample.pdf
              eq_refl eq_refl eq_refl eq_refl Hne eq_refl Hin eq_refl)
    as (Hs & _ & Hd & _).
  split; [exact Hs|exact Hd].
Defined.

End ResumeFileFacts.

(* ================================================================== *)
(** * Registration and login                                            *)
(* ================================================================== *)

Section RegistrationFacts.
Import Controller Accounts.

Lemma findOne_None (db : Db) (e : string) :
  findOne db e = None →
  ∀ i v, individuals db !! i = Some v → email v ≠ e.
Proof.
  intros Hfind i v Hi He. unfold findOne in Hfind.
  pose proof (List.find_none _ _ Hfind v) as Hv. simpl in Hv.
  rewrite He, String.eqb_refl in Hv.
  assert (true = false) by
    (apply Hv; apply list_elem_of_In, list_elem_of_fmap;
     exists (i, v); split; [done|by apply elem_of_map_to_list]).
  done.
Qed.

Lemma find_unique {A} (f : A → bool) (l : list A) (x : A) :
  x ∈ l → f x = true → (∀ y, y ∈ l → f y = true → y = x) →
  List.find f l = Some x.
Proof.
  induction l as [|y l IH]; intros Hx Hf Huniq.
  - by apply elem_of_nil in Hx.
  - simpl. destruct (f y) eqn:Hy.
    + f_equal. apply Huniq; [left|done].
    + apply IH; [|done|].
      * apply elem_of_cons in Hx as [->|Hx]; [congruence|done].
      * intros z Hz. apply Huniq. by right.
Qed.

(** A registration answered 201 has stored, under the new identifier, a
    record that carries the fields of the form, and no record had that
    email before. *)
Lemma registerIndividual_created (env : Env) (db : Db) (req : RegisterRequest) :
  status (registerIndividual env db req).1 = 201%Z →
  ∃ n e p c y d url number,
    body_name req = Some n ∧ body_email req = Some e
    ∧ body_password req = Some p ∧ body_college req = Some c
    ∧ body_year req = Some y ∧ body_department req = Some d
    ∧ upload env = inr url
    ∧ cast_year env y = inr number
    ∧ findOne db e = None
    ∧ individuals (registerIndividual env db req).2
      = <[objectId env := newUser env n e p c number d url]> (individuals db).
Proof.
  unfold registerIndividual.
  destruct (body_name req) as [n|]; [|done].
  destruct (body_email req) as [e|]; [|by rewrite orb_true_r].
  destruct (body_password req) as [p|]; [|by rewrite !orb_true_r].
  destruct (body_college req) as [c|];
    [|by simpl; rewrite !orb_true_r].
  destruct (body_year req) as [y|];
    [|by simpl; rewrite !orb_true_r].
  destruct (body_department req) as [d|];
    [|by simpl; rewrite !orb_true_r].
  destruct (_ || _); [done|]. simpl.
  case_bool_decide as Htaken; [done|].
  destruct (cast_error env c); [done|].
  destruct (negb _); [done|].
  destruct (file req) as [f|]; [|done].
  destruct (match buffer f with Some _ => _ | None => _ end); [done|].
  destruct (negb _); [done|].
  destruct (_ <? _)%Z; [done|].
  destruct (upload env) as [err|url]; [done|].
  destruct (cast_year env y) as [err|number] eqn:Hyear; [done|].
  destruct (save_error env _); [done|]. simpl. intros _.
  exists n, e, p, c, y, d, url, number. repeat split; [exact Hyear|].
  destruct (findOne db e); [|done]. by destruct Htaken.
Qed.

(** X12: registration keeps emails unique.  In a collection where no two
    records share an email, whatever the request, no two records share
    one afterwards, provided the identifier of the new record is not in
    use. *)
Theorem registration_keeps_emails_unique :
  ∀ (env : Env) (db : Db) (req : RegisterRequest),
    unique_emails db →
    individuals db !! objectId env = None →
    unique_emails (registerIndividual env db req).2.
Proof.
  intros env db req Huniq Hfresh.
  destruct (decide (status (registerIndividual env db req).1 = 201%Z))
    as [Hok|Hko].
  - destruct (registerIndividual_created env db req Hok)
      as (n & e & p & c & y & d & url & number & _ & _ & _ & _ & _ & _ & _ & _
          & Hnone & Hdb).
    intros i j u v. rewrite Hdb.
    destruct (decide (i = objectId env)) as [->|Hi];
      destruct (decide (j = objectId env)) as [->|Hj]; [done|..].
    + rewrite lookup_insert_eq, lookup_insert_ne by done.
      intros [= <-] Hv He. simpl in He.
      by destruct (findOne_None db e Hnone j v Hv).
    + rewrite lookup_insert_eq, lookup_insert_ne by done.
      intros Hu [= <-] He. simpl in He.
      by destruct (findOne_None db e Hnone i u Hu).
    + rewrite !lookup_insert_ne by done. apply Huniq.
  - by destruct (registerIndividual_refused env db req Hko) as [-> _].
Qed.

Lemma registration_keeps_emails_unique_witness :
  unique_emails
    (registerIndividual ControllerSample.env ControllerSample.db
       (ControllerSample.register (Some ControllerSample.pdf))).2.
Proof.
  apply registration_keeps_emails_unique.
  - intros i j u v Hu Hv _.
    change (({["u1" := ControllerSample.student]} : gmap string Individual)
              !! i = Some u) in Hu.
    change (({["u1" := ControllerSample.student]} : gmap string Individual)
              !! j = Some v) in Hv.
    apply lookup_singleton_Some in Hu as [<- _].
    apply lookup_singleton_Some in Hv as [<- _]. reflexivity.
  - reflexivity.
Defined.

(** X13: a student who has registered can log in.  After a registration
    answered 201, a login with the same email and password is answered 200
    with the token signed for the new record, as long as bcrypt accepts
    the password for the hash it made of it; with a password that bcrypt
    rejects the answer is 400 'Invalid credentials'. *)
Theorem registered_student_can_log_in :
  ∀ (env : Env) (auth : Auth) (db : Db) (req : RegisterRequest)
    (e p : string),
    status (registerIndividual env db req).1 = 201%Z →
    body_email req = Some e →
    body_password req = Some p →
    compare auth (Some p) (hash env p) = inr true →
    let db' := (registerIndividual env db req).2 in
    let r :=
      loginIndividual auth db'
        {| login_email := Some e; login_password := Some p |} in
    status r = 200%Z
    ∧ field r "token" = Some (JString (sign auth (objectId env)))
    ∧ ∀ q, compare auth (Some q) (hash env p) = inr false →
           loginIndividual auth db'
             {| login_email := Some e; login_password := Some q |}
           = respond 400 "Invalid credentials".
Proof.
  intros env auth db req e p Hok He Hp Hcmp db' r.
  destruct (registerIndividual_created env db req Hok)
    as (n & e' & p' & c & y & d & url & number & _ & He' & Hp' & _ & _ & _ & _
        & _ & Hnone & Hdb).
  assert (e' = e) as -> by congruence. assert (p' = p) as -> by congruence.
  assert (findUser db' e
          = Some (objectId env, newUser env n e p c number d url)) as Hfind.
  { unfold findUser. apply find_unique.
    - apply elem_of_map_to_list. subst db'. rewrite Hdb.
      apply lookup_insert_eq.
    - simpl. apply String.eqb_refl.
    - intros [i v] Hiv Hemail. simpl in Hemail.
      apply String.eqb_eq in Hemail.
      apply elem_of_map_to_list in Hiv. subst db'. rewrite Hdb in Hiv.
      destruct (decide (i = objectId env)) as [->|Hi].
      + rewrite lookup_insert_eq in Hiv. congruence.
      + rewrite lookup_insert_ne in Hiv by done.
        by destruct (findOne_None db e Hnone i v Hiv). }
  subst r. unfold loginIndividual. simpl. rewrite Hfind. simpl.
  rewrite Hcmp. split; [done|]. split; [done|].
  intros q Hq. by rewrite Hq.
Qed.

Lemma registered_student_can_log_in_witness :
  status
    (loginIndividual AccountsSample.auth
       (registerIndividual ControllerSample.env ControllerSample.db
          (ControllerSample.register (Some ControllerSample.pdf))).2
       {| login_email := Some "ravi@example.org";
          login_password := Some "secret" |}) = 200%Z.
Proof.
  apply (registered_student_can_log_in ControllerSample.env AccountsSample.auth
           ControllerSample.db
           (ControllerSample.register (Some ControllerSample.pdf))
           "ravi@example.org" "secret"); reflexivity.
Defined.

End RegistrationFacts.

(* ================================================================== *)
(** * The section parser on any text                                    *)
(* ================================================================== *)

Section TrimFacts.

Lemma trim_start_head (s : list ascii) (c : ascii) :
  head (Js.trim_start s) = Some c → Js.is_space c = false.
Proof.
  induction s as [|x s IH]; simpl; [done|].
  destruct (Js.is_space x) eqn:Hx; [done|]. simpl. by intros [= <-].
Qed.

Lemma trim_start_id (s : list ascii) :
  (∀ c, head s = Some c → Js.is_space c = false) → Js.trim_start s = s.
Proof.
  destruct s as [|x s]; [done|]. intros H. simpl. by rewrite (H x).
Qed.

Lemma trim_start_idem (s : list ascii) :
  Js.trim_start (Js.trim_start s) = Js.trim_start s.
Proof. apply trim_start_id, trim_start_head. Qed.

Lemma trim_start_snoc (l : list ascii) (c : ascii) :
  Js.is_space c = false → ∃ l', Js.trim_start (l ++ [c]) = l' ++ [c].
Proof.
  intros Hc. induction l as [|x l [l' IH]]; simpl.
  - rewrite Hc. by exists [].
  - destruct (Js.is_space x); [by exists l'|]. by exists (x :: l).
Qed.

Lemma trim_start_In (s : list ascii) (x : ascii) :
  In x (Js.trim_start s) → In x s.
Proof.
  induction s as [|c s IH]; simpl; [done|].
  destruct (Js.is_space c); [auto|done].
Qed.

Lemma trim_In (s : list ascii) (x : ascii) : In x (Js.trim s) → In x s.
Proof.
  unfold Js.trim, Js.trim_end. intros H.
  apply in_rev, trim_start_In in H. apply in_rev in H.
  by apply trim_start_In.
Qed.

(** [trim] leaves a trimmed string as it is. *)
Lemma trim_idem (s : list ascii) : Js.trim (Js.trim s) = Js.trim s.
Proof.
  unfold Js.trim, Js.trim_end.
  destruct (Js.trim_start s) as [|c t] eqn:Ht; [done|].
  assert (Js.is_space c = false) as Hc
    by (apply (trim_start_head s); by rewrite Ht).
  simpl rev at 2.
  destruct (trim_start_snoc (rev t) c Hc) as [l' Hl']. rewrite Hl'.
  rewrite rev_app_distr. simpl.
  rewrite Hc. simpl. rewrite rev_involutive.
  rewrite <- Hl'. by rewrite trim_start_idem.
Qed.

End TrimFacts.

Section ParserFacts.
Import Dashboard.

Lemma span_forallb (p : ascii → bool) (s : list ascii) :
  forallb p (span p s).1 = true.
Proof.
  induction s as [|c s IH]; simpl; [done|].
  destruct (p c) eqn:Hc; [|done].
  destruct (span p s) as [a b]. simpl in *. by rewrite Hc.
Qed.

Lemma match_line_title (s t r : list ascii) :
  match_line s = Some (t, r) → forallb not_LF t = true.
Proof.
  unfold match_line. pose proof (span_forallb not_LF s) as Hs.
  destruct (span not_LF s) as [[|c a] [|c' b]]; try done.
  by intros [= <- _].
Qed.

Lemma match_heading_title (s t r : list ascii) :
  match_heading s = Some (t, r) → forallb not_LF t = true.
Proof.
  revert t r. induction s as [|c s IH]; intros t r; simpl; [done|].
  destruct (Js.is_space c).
  - destruct (match_heading s) as [[t' r']|] eqn:Hs.
    + intros [= <- <-]. by eapply IH.
    + apply match_line_title.
  - apply match_line_title.
Qed.

Lemma match_here_title (s : list ascii) (m : Match) :
  match_here s = Some m → forallb not_LF (title m) = true.
Proof.
  unfold match_here. destruct s as [|c1 [|c2 s]]; try done.
  destruct (_ && _); [|done].
  destruct (match_heading s) as [[t r]|] eqn:Hh; [|done].
  apply match_heading_title in Hh.
  destruct (match_content r) as [b r']. by intros [= <-].
Qed.

Lemma exec_title (s : list ascii) (m : Match) :
  exec s = Some m → forallb not_LF (title m) = true.
Proof.
  induction s as [|c s IH].
  - done.
  - unfold exec; fold exec.
    destruct (match_here (c :: s)) as [m'|] eqn:Hm.
    + intros [= <-]. by eapply match_here_title.
    + exact IH.
Qed.

(** X14: whatever the text of the analysis, every section that the parser
    stores has a trimmed heading as its key, on one line and other than
    [__proto__], and a trimmed block as its text. *)
Theorem parsed_sections_are_trimmed :
  ∀ (text k v : string),
    parseAnalysisSections text !! k = Some v →
    k ≠ "__proto__"
    ∧ Js.trim (list_ascii_of_string k) = list_ascii_of_string k
    ∧ (LF ∉ list_ascii_of_string k)
    ∧ Js.trim (list_ascii_of_string v) = list_ascii_of_string v.
Proof.
  intros text k v. unfold parseAnalysisSections.
  generalize (S (length (list_ascii_of_string text))).
  generalize (list_ascii_of_string text).
  assert (∀ fuel s (sections : gmap string string),
            (∀ k v, sections !! k = Some v →
                    k ≠ "__proto__"
                    ∧ Js.trim (list_ascii_of_string k) = list_ascii_of_string k
                    ∧ (LF ∉ list_ascii_of_string k)
                    ∧ Js.trim (list_ascii_of_string v) = list_ascii_of_string v) →
            ∀ k v, parse_loop fuel s sections !! k = Some v →
                   k ≠ "__proto__"
                   ∧ Js.trim (list_ascii_of_string k) = list_ascii_of_string k
                   ∧ (LF ∉ list_ascii_of_string k)
                   ∧ Js.trim (list_ascii_of_string v) = list_ascii_of_string v)
    as Hloop.
  { induction fuel as [|fuel IH]; intros s sections Hinv; [exact Hinv|].
    simpl. destruct (exec s) as [m|] eqn:Hm; [|exact Hinv].
    apply IH. intros k' v'. unfold set_property.
    destruct (String.eqb_spec (string_of_list_ascii (Js.trim (title m)))
                "__proto__") as [Hp|Hp]; [apply Hinv|].
    destruct (decide (string_of_list_ascii (Js.trim (title m)) = k'))
      as [<-|Hk].
    - rewrite lookup_insert_eq. intros [= <-].
      rewrite !list_ascii_of_string_of_list_ascii, !trim_idem.
      split; [done|]. split; [done|]. split; [|done].
      intros Hin. apply list_elem_of_In, trim_In in Hin.
      apply exec_title in Hm.
      rewrite forallb_forall in Hm. specialize (Hm _ Hin).
      unfold not_LF in Hm. by rewrite Ascii.eqb_refl in Hm.
    - rewrite lookup_insert_ne by done. apply Hinv. }
  intros s fuel. apply Hloop. intros k' v' H.
  by rewrite lookup_empty in H.
Qed.

Lemma parsed_sections_are_trimmed_witness :
  Js.trim (list_ascii_of_string "Key Strengths")
  = list_ascii_of_string "Key Strengths".
Proof.
  apply (parsed_sections_are_trimmed AnalysisSample.analysis "Key Strengths"
           "- SQL").
  vm_compute. reflexivity.
Defined.

Lemma match_line_no_LF (s : list ascii) : LF ∉ s → match_line s = None.
Proof.
  intros Hs. unfold match_line.
  assert (span not_LF s = (s, [])) as ->.
  { induction s as [|c s IH]; [done|]. simpl.
    apply not_elem_of_cons in Hs as [Hc Hs]. unfold not_LF at 1.
    destruct (Ascii.eqb_spec c LF); [done|]. simpl. by rewrite IH. }
  by destruct s.
Qed.

Lemma match_heading_no_LF (s : list ascii) : LF ∉ s → match_heading s = None.
Proof.
  induction s as [|c s IH]; intros Hs; simpl; [done|].
  pose proof (match_line_no_LF _ Hs) as Hl.
  apply not_elem_of_cons in Hs as [_ Hs].
  rewrite IH by done. by destruct (Js.is_space c).
Qed.

Lemma exec_no_LF (s : list ascii) : LF ∉ s → exec s = None.
Proof.
  induction s as [|c s IH]; intros Hs; [done|].
  unfold exec; fold exec.
  assert (match_here (c :: s) = None) as ->.
  { unfold match_here. destruct s as [|c2 s]; [done|].
    destruct (_ && _); [|done].
    rewrite match_heading_no_LF; [done|].
    apply not_elem_of_cons in Hs as [_ Hs].
    by apply not_elem_of_cons in Hs as [_ Hs]. }
  apply IH. by apply not_elem_of_cons in Hs as [_ Hs].
Qed.

Lemma exec_no_hashes (s : list ascii) :
  (∀ a b, s ≠ a ++ hash :: hash :: b) → exec s = None.
Proof.
  induction s as [|c s IH]; intros Hs; [done|].
  unfold exec; fold exec.
  assert (match_here (c :: s) = None) as ->.
  { unfold match_here. destruct s as [|c2 s]; [done|].
    destruct (Ascii.eqb_spec c hash) as [->|]; [|done].
    destruct (Ascii.eqb_spec c2 hash) as [->|]; [|done].
    by destruct (Hs [] s). }
  apply IH. intros a b ->. by destruct (Hs (c :: a) b).
Qed.

(** X15: an analysis without headings is shown as it is.  A text that is
    not empty and holds no line feed, or no two hashes in a row, has no
    section, and the report displays the text itself. *)
Theorem text_without_headings_is_shown_raw :
  ∀ (result : AnalysisResult) (text : string),
    analysis result = Some text →
    text ≠ "" →
    (LF ∉ list_ascii_of_string text
     ∨ ∀ a b, list_ascii_of_string text ≠ a ++ hash :: hash :: b) →
    parseAnalysisSections text = ∅
    ∧ formatReport result = RawReport text.
Proof.
  intros result text Ha Hne Hs.
  assert (parseAnalysisSections text = ∅) as Hparse.
  { unfold parseAnalysisSections. simpl.
    destruct Hs as [Hs|Hs]; [by rewrite exec_no_LF|by rewrite exec_no_hashes]. }
  split; [done|]. unfold formatReport. rewrite Ha.
  destruct (String.eqb_spec text ""); [done|]. by rewrite Hparse.
Qed.

Lemma text_without_headings_is_shown_raw_witness :
  formatReport ControllerSample.unscored
  = RawReport "The resume could not be read.".
Proof.
  apply (text_without_headings_is_shown_raw ControllerSample.unscored
           "The resume could not be read.").
  - reflexivity.
  - discriminate.
  - left. intros H.
    repeat (apply elem_of_cons in H as [H|H]; [discriminate H|]).
    by apply elem_of_nil in H.
Defined.

Lemma exec_preamble (p s : list ascii) : hash ∉ p → exec (p ++ s) = exec s.
Proof.
  induction p as [|c p IH]; intros Hp; [done|].
  apply not_elem_of_cons in Hp as [Hc Hp].
  change ((c :: p) ++ s) with (c :: (p ++ s)).
  unfold exec; fold exec.
  assert (match_here (c :: p ++ s) = None) as ->.
  { unfold match_here. destruct (p ++ s); [done|].
    by destruct (Ascii.eqb_spec c hash). }
  by apply IH.
Qed.

Lemma formatReport_text (text : string) (n m : option Z) (e : option string) :
  formatReport {| analysis := Some text; resume_score := n; ats_score := m;
                  Dashboard.error := e |}
  = if String.eqb text "" then NoReport
    else if bool_decide (size (parseAnalysisSections text) = 0)
         then RawReport text
         else Sections (omap (shown (parseAnalysisSections text)) sectionNames).
Proof. reflexivity. Qed.

(** X16: what stands in front of the first heading is not part of any
    section.  A preamble without a hash changes neither the sections nor,
    when the text has at least one section, the report, which displays
    none of it. *)
Theorem preamble_is_not_displayed :
  ∀ (preamble text : string) (n m : option Z) (e : option string),
    hash ∉ list_ascii_of_string preamble →
    parseAnalysisSections (preamble +:+ text) = parseAnalysisSections text
    ∧ (parseAnalysisSections text ≠ ∅ →
       formatReport {| analysis := Some (preamble +:+ text);
                       resume_score := n; ats_score := m;
                       Dashboard.error := e |}
       = formatReport {| analysis := Some text;
                         resume_score := n; ats_score := m;
                         Dashboard.error := e |}).
Proof.
  intros preamble text n m e Hp.
  assert (parseAnalysisSections (preamble +:+ text)
          = parseAnalysisSections text) as Hparse.
  { unfold parseAnalysisSections. rewrite list_ascii_app.
    remember (list_ascii_of_string preamble) as p.
    remember (list_ascii_of_string text) as s.
    assert (∀ fuel acc, parse_loop fuel (p ++ s) acc = parse_loop fuel s acc)
      as Hsame.
    { intros [|fuel] acc; [done|]. simpl. by rewrite exec_preamble. }
    rewrite Hsame.
    apply parse_loop_fuel with (n := S (length s)); [lia| |lia].
    rewrite length_app. lia. }
  split; [done|]. intros Hne.
  rewrite !formatReport_text, Hparse.
  generalize (omap (shown (parseAnalysisSections text)) sectionNames).
  intros blocks.
  assert (bool_decide (size (parseAnalysisSections text) = 0) = false) as ->.
  { apply bool_decide_eq_false_2. intros Hsize.
    by apply map_size_empty_iff in Hsize. }
  destruct (String.eqb_spec text "") as [->|Ht]; [done|].
  destruct (String.eqb_spec (preamble +:+ text) "") as [He|_]; [|done].
  destruct preamble; [by destruct text|done].
Qed.

Lemma preamble_is_not_displayed_witness :
  parseAnalysisSections ("Summary of the analysis: " +:+ AnalysisSample.analysis)
  = parseAnalysisSections AnalysisSample.analysis.
Proof.
  apply (preamble_is_not_displayed "Summary of the analysis: "
           AnalysisSample.analysis None None None).
  intros H.
  repeat (apply elem_of_cons in H as [H|H]; [discriminate H|]).
  by apply elem_of_nil in H.
Defined.

End ParserFacts.

(* ================================================================== *)
(** * The analysis request and the job form                             *)
(* ================================================================== *)

Section AnalyzerFacts.
Import Analyzer.

Lemma first_role (value : string) :
  value ∈ jobCategories →
  ∃ roles role, rolesOf value = Some roles ∧ head roles = Some role.
Proof.
  intros H. unfold jobCategories in H.
  repeat (apply elem_of_cons in H as [->|H]; [by eexists _, _|]).
  by apply elem_of_nil in H.
Qed.

(** X17: the role sent for analysis belongs to the category sent with it.
    Whatever the student does with the file input and the two selects,
    a request for analysis carries a PDF, one of the six categories and
    one of the roles listed for that category. *)
Theorem analysis_request_is_consistent :
  ∀ (es : list Event) (req : Request),
    uploadRequest (run init es) = inl req →
    file_type (resume req) = "application/pdf"
    ∧ job_category req ∈ jobCategories
    ∧ ∃ roles, rolesOf (job_category req) = Some roles ∧ job_role req ∈ roles.
Proof.
  intros es req.
  assert (let s := run init es in
          (∀ f, file s = Some f → file_type f = "application/pdf")
          ∧ jobCategory s ∈ jobCategories
          ∧ ∃ roles role, rolesOf (jobCategory s) = Some roles
                          ∧ jobRole s = Some role ∧ role ∈ roles) as Hinv.
  { induction es as [|e es IH] using rev_ind.
    - simpl. split; [done|]. split.
      + unfold jobCategories. set_solver.
      + eexists _, _. split; [reflexivity|]. split; [reflexivity|].
        set_solver.
    - unfold run in *. rewrite foldl_app. simpl.
      destruct IH as (Hf & Hc & roles & role & Hroles & Hrole & Hin).
      destruct e as [selected|i|i]; simpl.
      + unfold handleFileChange.
        destruct selected as [f|]; simpl.
        * destruct (String.eqb_spec (file_type f) "application/pdf"); simpl.
          -- split; [by intros ? [= <-]|]. eauto 10.
          -- split; [done|]. eauto 10.
        * split; [done|]. eauto 10.
      + destruct (categoryOptions !! i) as [value|] eqn:Hi; [|eauto 10].
        apply list_elem_of_lookup_2 in Hi.
        destruct (first_role value Hi) as (roles' & role' & Hr' & Hh').
        simpl. split; [done|]. split; [done|].
        exists roles', role'. rewrite Hr'. split; [done|]. split; [done|].
        destruct roles'; [done|]. injection Hh' as ->. by left.
      + destruct (roleOptions _ !! i) as [value|] eqn:Hi; [|eauto 10].
        simpl. split; [done|]. split; [done|].
        exists roles, value. split; [done|]. split; [done|].
        unfold roleOptions in Hi. rewrite Hroles in Hi. simpl in Hi.
        by apply list_elem_of_lookup_2 in Hi. }
  simpl in Hinv. destruct Hinv as (Hf & Hc & roles & role & Hroles & Hrole & Hin).
  unfold uploadRequest.
  destruct (file (run init es)) as [f|] eqn:Hfile; [|done].
  intros [= <-]. simpl. split; [by apply Hf|]. split; [done|].
  exists roles. rewrite Hrole. done.
Qed.

Lemma analysis_request_is_consistent_witness :
  ∃ roles, rolesOf "UI/UX Design" = Some roles ∧ "Product Designer" ∈ roles.
Proof.
  apply (analysis_request_is_consistent
           [PickFile (Some {| file_name := "cv.pdf";
                              file_type := "application/pdf" |});
            PickCategory 3; PickRole 2]
           {| resume := {| file_name := "cv.pdf";
                           file_type := "application/pdf" |};
              job_category := "UI/UX Design";
              job_role := "Product Designer" |}).
  reflexivity.
Defined.

End AnalyzerFacts.

Section JobFormFacts.
Import Text JobForm.

Lemma toggle_elem {A} `{EqDecision A} (l : list A) (x z : A) :
  let l' := if bool_decide (x ∈ l) then filter (λ y, y ≠ x) l else l ++ [x] in
  (x ∈ l' ↔ x ∉ l)
  ∧ (z ≠ x → z ∈ l' ↔ z ∈ l)
  ∧ (NoDup l → NoDup l').
Proof.
  intros l'. subst l'. case_bool_decide as Hx.
  - split; [|split].
    + rewrite list_elem_of_filter. tauto.
    + intros Hz. rewrite list_elem_of_filter. tauto.
    + apply NoDup_filter.
  - split; [|split].
    + rewrite elem_of_app, list_elem_of_singleton. tauto.
    + intros Hz. rewrite elem_of_app, list_elem_of_singleton. tauto.
    + intros Hl. apply NoDup_app. split; [done|]. split.
      * intros y Hy Hy'. apply list_elem_of_singleton in Hy'. congruence.
      * apply NoDup_singleton.
Qed.

(** X18: a check box of the form toggles its own value and nothing else.
    After [handleYearChange] the year is a target exactly when it was
    not one before, every other year and the rest of the form are as
    before, and the list holds no year twice if it held none twice; the
    same goes for [handleDepartmentChange]. *)
Theorem check_boxes_toggle_one_value :
  ∀ (newJob : NewJob) (year : Z) (department : string),
    let y := handleYearChange newJob year in
    let d := handleDepartmentChange newJob department in
    (year ∈ target_years y ↔ year ∉ target_years newJob)
    ∧ (∀ z, z ≠ year → z ∈ target_years y ↔ z ∈ target_years newJob)
    ∧ (NoDup (target_years newJob) → NoDup (target_years y))
    ∧ title y = title newJob ∧ description y = description newJob
    ∧ target_departments y = target_departments newJob
    ∧ (department ∈ target_departments d
       ↔ department ∉ target_departments newJob)
    ∧ (∀ z, z ≠ department →
            z ∈ target_departments d ↔ z ∈ target_departments newJob)
    ∧ (NoDup (target_departments newJob) → NoDup (target_departments d))
    ∧ title d = title newJob ∧ description d = description newJob
    ∧ target_years d = target_years newJob.
Proof.
  intros newJob year department y d. subst y d. simpl.
  pose proof (λ z, toggle_elem (target_years newJob) year z) as Hy.
  pose proof (λ z, toggle_elem (target_departments newJob) department z) as Hd.
  simpl in Hy, Hd.
  split; [apply (Hy year)|]. split; [intros z; apply (Hy z)|].
  split; [apply (Hy year)|]. do 3 (split; [done|]).
  split; [apply (Hd department)|]. split; [intros z; apply (Hd z)|].
  split; [apply (Hd department)|]. done.
Qed.

(** The lists of the form hold no value twice. *)
Lemma step_NoDup (s : State) (e : Event) :
  NoDup (target_years (newJob s)) ∧ NoDup (target_departments (newJob s)) →
  NoDup (target_years (newJob (step s e).1))
  ∧ NoDup (target_departments (newJob (step s e).1))
  ∧ ∀ j, (step s e).2 = Some j →
         j = newJob s ∧ target_years j ≠ [] ∧ target_departments j ≠ [].
Proof.
  intros [Hy Hd]. destruct e as [| | | |year|department|token r]; simpl;
    try done.
  - split; [|done].
    by apply (toggle_elem (target_years (newJob s)) year year).
  - split; [done|]. split; [|done].
    by apply (toggle_elem (target_departments (newJob s)) department department).
  - unfold handleSubmit. destruct token; simpl; [|done].
    case_bool_decide as Hny; simpl; [done|].
    case_bool_decide as Hnd; simpl; [done|].
    assert (target_years (newJob s) ≠ []) by (by destruct (target_years (newJob s))).
    assert (target_departments (newJob s) ≠ [])
      by (by destruct (target_departments (newJob s))).
    destruct r; simpl.
    + split; [done|]. split; [done|]. by intros j [= <-].
    + split; [done|]. split; [done|]. by intros j [= <-].
    + split; [apply NoDup_nil_2|]. split; [apply NoDup_nil_2|].
      by intros j [= <-].
Qed.

(** X19: every job that the page posts targets at least one year and one
    department, and names none of them twice, whatever the user did in
    the dialog before. *)
Theorem posted_jobs_have_targets :
  ∀ (es : list Event) (j : NewJob),
    j ∈ (run init es).2 →
    target_years j ≠ [] ∧ NoDup (target_years j)
    ∧ target_departments j ≠ [] ∧ NoDup (target_departments j).
Proof.
  intros es j.
  assert (NoDup (target_years (newJob init))
          ∧ NoDup (target_departments (newJob init))) as Hinit
    by (split; apply NoDup_nil_2).
  revert Hinit. generalize init. induction es as [|e es IH]; intros s Hs.
  - simpl. intros H. by apply elem_of_nil in H.
  - simpl. pose proof (step_NoDup s e Hs) as (Hy & Hd & Hp).
    destruct (step s e) as [s' p]. destruct (run s' es) as [s'' ps] eqn:Hrun.
    simpl in *. rewrite elem_of_app. intros [Hj|Hj].
    + destruct p as [j'|]; [|by apply elem_of_nil in Hj].
      apply list_elem_of_singleton in Hj as ->.
      destruct (Hp j' eq_refl) as (-> & ? & ?). by destruct Hs.
    + apply (IH s'); [done|]. by rewrite Hrun.
Qed.

Lemma posted_jobs_have_targets_witness :
  target_years
    {| title := "Analyst"; description := ""; target_years := [4%Z];
       target_departments := ["Civil Engineering"] |} ≠ []
  ∧ NoDup [4%Z].
Proof.
  destruct (posted_jobs_have_targets
              [TitleChange "Analyst"; YearChange 4; YearChange 3; YearChange 3;
               DepartmentChange "Civil Engineering";
               Submit true (CreateNotOk None)]
              {| title := "Analyst"; description := ""; target_years := [4%Z];
                 target_departments := ["Civil Engineering"] |})
    as (Hy & Hn & _).
  - vm_compute. apply list_elem_of_singleton. reflexivity.
  - split; [exact Hy|exact Hn].
Defined.

(** ** Long descriptions *)

Lemma split_lines_cons (s : list ascii) :
  ∃ l ls, split_lines s = l :: ls.
Proof.
  induction s as [|c s (l & ls & IH)]; simpl; [by eexists _, _|].
  destruct (Ascii.eqb c Dashboard.LF); [by eexists _, _|].
  rewrite IH. by eexists _, _.
Qed.

Lemma join_lines_cons (c : ascii) (l : list ascii) (ls : list (list ascii)) :
  join_lines ((c :: l) :: ls) = c :: join_lines (l :: ls).
Proof. by destruct ls. Qed.

(** [split] and [join] are inverse of each other. *)
Lemma join_split_lines (s : list ascii) : join_lines (split_lines s) = s.
Proof.
  induction s as [|c s IH]; simpl; [done|].
  destruct (Ascii.eqb_spec c Dashboard.LF) as [->|Hc].
  - destruct (split_lines_cons s) as (l & ls & Hs). rewrite Hs in *.
    simpl. by rewrite <- IH.
  - destruct (split_lines_cons s) as (l & ls & Hs). rewrite Hs in *.
    by rewrite join_lines_cons, IH.
Qed.

Lemma split_lines_no_LF (s : list ascii) :
  Forall (λ l, Dashboard.LF ∉ l) (split_lines s).
Proof.
  induction s as [|c s IH]; simpl.
  - constructor; [apply not_elem_of_nil|constructor].
  - destruct (Ascii.eqb_spec c Dashboard.LF) as [->|Hc].
    + constructor; [apply not_elem_of_nil|done].
    + destruct (split_lines_cons s) as (l & ls & Hs). rewrite Hs in *.
      inversion IH as [|? ? Hl Hls]; subst.
      constructor; [|done]. apply not_elem_of_cons. split; [done|done].
Qed.

Lemma split_lines_line (l : list ascii) :
  Dashboard.LF ∉ l → split_lines l = [l].
Proof.
  induction l as [|c l IH]; intros Hl; [done|].
  apply not_elem_of_cons in Hl as [Hc Hl]. simpl.
  destruct (Ascii.eqb_spec c Dashboard.LF); [done|]. by rewrite IH.
Qed.

Lemma split_lines_app (l r : list ascii) :
  Dashboard.LF ∉ l →
  split_lines (l ++ Dashboard.LF :: r) = l :: split_lines r.
Proof.
  induction l as [|c l IH]; intros Hl; simpl.
  - done.
  - apply not_elem_of_cons in Hl as [Hc Hl].
    destruct (Ascii.eqb_spec c Dashboard.LF); [done|]. by rewrite IH.
Qed.

Lemma split_join_lines (ls : list (list ascii)) :
  ls ≠ [] → Forall (λ l, Dashboard.LF ∉ l) ls →
  split_lines (join_lines ls) = ls.
Proof.
  induction ls as [|l ls IH]; intros Hne Hls; [done|].
  inversion Hls as [|? ? Hl Hls']; subst.
  destruct ls as [|l' ls]; [by apply split_lines_line|].
  change (join_lines (l :: l' :: ls))
    with (l ++ Dashboard.LF :: join_lines (l' :: ls)).
  rewrite split_lines_app by done. by rewrite IH.
Qed.

Lemma join_lines_app (a b : list (list ascii)) :
  a ≠ [] → b ≠ [] →
  join_lines (a ++ b) = join_lines a ++ Dashboard.LF :: join_lines b.
Proof.
  induction a as [|l a IH]; intros Ha Hb; [done|].
  destruct a as [|l' a].
  - simpl. by destruct b.
  - change (join_lines ((l :: l' :: a) ++ b))
      with (l ++ Dashboard.LF :: join_lines ((l' :: a) ++ b)).
    rewrite IH by done. simpl. by rewrite <- app_assoc.
Qed.

(** X20: a description of more than five lines that is not expanded is cut
    after its fifth line: what is displayed is the first five lines of
    the description, as they are, followed by an ellipsis.  A description
    of at most five lines, or an expanded one, is displayed whole. *)
Theorem long_descriptions_are_cut_after_five_lines :
  ∀ (expandedDescriptions : gmap string bool) (description jobId : string),
    let lines := split_lines (list_ascii_of_string description) in
    let displayed :=
      truncateDescription expandedDescriptions description jobId in
    (length lines ≤ 5 ∨ expanded expandedDescriptions jobId = true →
     displayed = description)
    ∧ (5 < length lines → expanded expandedDescriptions jobId = false →
       ∃ first rest : list ascii,
         list_ascii_of_string description = first ++ Dashboard.LF :: rest
         ∧ length (split_lines first) = 5
         ∧ displayed = string_of_list_ascii first +:+ "...").
Proof.
  intros m description jobId lines displayed. subst displayed.
  unfold truncateDescription.
  change (split_lines (list_ascii_of_string description)) with lines.
  assert (lines = split_lines (list_ascii_of_string description)) as Hlines
    by reflexivity.
  clearbody lines. split.
  - intros [Hlen|Hexp].
    + by rewrite bool_decide_eq_true_2.
    + rewrite Hexp. by rewrite orb_true_r.
  - intros Hlen Hexp. rewrite Hexp.
    assert (bool_decide (length lines ≤ 5) = false) as ->
      by (apply bool_decide_eq_false_2; lia).
    simpl.
    exists (join_lines (take 5 lines)), (join_lines (drop 5 lines)).
    assert (take 5 lines ≠ []) as Ht.
    { intros H. assert (length (take 5 lines) = 5) as H5
        by (rewrite length_take; lia).
      by rewrite H in H5. }
    assert (drop 5 lines ≠ []) as Hd.
    { intros H. assert (length (drop 5 lines) = length lines - 5) as H5
        by apply length_drop.
      rewrite H in H5. simpl in H5. lia. }
    split; [|split; [|done]].
    + rewrite <- join_lines_app by done. rewrite take_drop.
      rewrite Hlines. by rewrite join_split_lines.
    + rewrite split_join_lines; [|done|].
      * rewrite length_take. lia.
      * apply Forall_take. rewrite Hlines. apply split_lines_no_LF.
Qed.

Lemma long_descriptions_are_cut_after_five_lines_witness :
  ∃ first rest : list ascii,
    list_ascii_of_string JobFormSample.description
    = first ++ Dashboard.LF :: rest
    ∧ length (split_lines first) = 5
    ∧ truncateDescription ∅ JobFormSample.description "j1"
      = string_of_list_ascii first +:+ "...".
Proof.
  apply (long_descriptions_are_cut_after_five_lines ∅
           JobFormSample.description "j1").
  - vm_compute. lia.
  - reflexivity.
Defined.

Lemma expanded_toggle (m : gmap string bool) (jobId other : string) :
  expanded (toggleDescription m jobId) other
  = if bool_decide (other = jobId) then negb (expanded m jobId)
    else expanded m other.
Proof.
  unfold toggleDescription, expanded at 1. case_bool_decide as Hk.
  - subst. by rewrite lookup_insert_eq.
  - by rewrite lookup_insert_ne.
Qed.

(** X21: 'Read More' expands one description and 'Read Less' folds it
    again.  [toggleDescription] turns the expanded state of its job over
    and leaves the other jobs as they are: a folded long description is
    displayed whole after one toggle, and every description is displayed
    as before after two. *)
Theorem toggleDescription_expands_and_folds :
  ∀ (expandedDescriptions : gmap string bool) (jobId : string),
    let once := toggleDescription expandedDescriptions jobId in
    let twice := toggleDescription once jobId in
    expanded once jobId = negb (expanded expandedDescriptions jobId)
    ∧ (∀ other, other ≠ jobId →
                expanded once other = expanded expandedDescriptions other)
    ∧ (∀ description,
         expanded expandedDescriptions jobId = false →
         truncateDescription once description jobId = description)
    ∧ (∀ description other,
         truncateDescription twice description other
         = truncateDescription expandedDescriptions description other).
Proof.
  intros m jobId once twice. subst once twice.
  split; [|split; [|split]].
  - rewrite expanded_toggle. by rewrite bool_decide_eq_true_2.
  - intros other Hne. rewrite expanded_toggle.
    by rewrite bool_decide_eq_false_2.
  - intros description Hexp. unfold truncateDescription.
    rewrite expanded_toggle, (bool_decide_eq_true_2 (jobId = jobId)), Hexp
      by done.
    by rewrite orb_true_r.
  - intros description other. unfold truncateDescription.
    rewrite !expanded_toggle.
    destruct (decide (other = jobId)) as [->|Hk].
    + rewrite !(bool_decide_eq_true_2 (jobId = jobId)) by done.
      by rewrite negb_involutive.
    + by rewrite !(bool_decide_eq_false_2 (other = jobId)).
Qed.

End JobFormFacts.

(* ================================================================== *)
(** * Public identifiers                                                *)
(* ================================================================== *)

Section PublicIdFacts.
Import Controller Accounts.

Lemma span_all (p : ascii → bool) (a r : list ascii) :
  forallb p a = true → (∀ c, head r = Some c → p c = false) →
  Dashboard.span p (a ++ r) = (a, r).
Proof.
  intros Ha Hr. destruct r as [|c r].
  - rewrite app_nil_r. clear Hr. induction a as [|x a IH]; [done|].
    simpl in *. apply andb_true_iff in Ha as [Hx Ha]. by rewrite Hx, IH.
  - apply span_app; [done|]. by apply Hr.
Qed.

(** No match of [/\/resumes\//] starts inside a text that does not hold
    [/resumes]. *)
Lemma no_match_inside (b : ascii) (base t : list ascii) :
  (∀ x y, b :: base ≠ x ++ list_ascii_of_string "/resumes" ++ y) →
  take 9 ((b :: base) ++ list_ascii_of_string "/resumes/" ++ t)
  ≠ list_ascii_of_string "/resumes/".
Proof.
  intros Hbase H.
  destruct base as [|b1 [|b2 [|b3 [|b4 [|b5 [|b6 [|b7 [|b8 base]]]]]]]];
    simpl in H; try congruence.
  - injection H as -> -> -> -> -> -> -> ->.
    by destruct (Hbase [] []).
  - injection H as -> -> -> -> -> -> -> -> ->.
    by destruct (Hbase [] ("/"%char :: base)).
Qed.

Lemma skip_base (base t : list ascii) :
  (∀ x y, base ≠ x ++ list_ascii_of_string "/resumes" ++ y) →
  getCloudinaryPublicId_from (base ++ list_ascii_of_string "/resumes/" ++ t)
  = getCloudinaryPublicId_from (list_ascii_of_string "/resumes/" ++ t).
Proof.
  induction base as [|b base IH]; intros Hbase; [done|].
  change ((b :: base) ++ list_ascii_of_string "/resumes/" ++ t)
    with (b :: (base ++ list_ascii_of_string "/resumes/" ++ t)).
  unfold getCloudinaryPublicId_from; fold getCloudinaryPublicId_from.
  rewrite bool_decide_eq_false_2 by (by apply no_match_inside).
  apply IH. intros x y ->. by destruct (Hbase (b :: x) y).
Qed.

(** X22: the public identifier of a Cloudinary URL is what follows the
    first [/resumes/], up to the first dot or slash.  For a URL whose
    part in front of [/resumes/] does not hold [/resumes], the helper
    returns the folder and that run of characters: the name of the file
    when it holds no dot, and the part of the name in front of its first
    dot otherwise. *)
Theorem getCloudinaryPublicId_stops_at_the_first_dot :
  ∀ (base run post : string),
    (∀ x y, list_ascii_of_string base
            ≠ x ++ list_ascii_of_string "/resumes" ++ y) →
    run ≠ "" →
    forallb is_id_char (list_ascii_of_string run) = true →
    (∀ c, head (list_ascii_of_string post) = Some c → is_id_char c = false) →
    getCloudinaryPublicId (base +:+ "/resumes/" +:+ run +:+ post)
    = Some ("resumes/" +:+ run).
Proof.
  intros base run post Hbase Hne Hrun Hpost. unfold getCloudinaryPublicId.
  rewrite !list_ascii_app, skip_base by done.
  remember (list_ascii_of_string run) as r eqn:Hr.
  remember (list_ascii_of_string post) as p eqn:Hp.
  change (list_ascii_of_string "/resumes/" ++ r ++ p)
    with ("/"%char :: list_ascii_of_string "resumes/" ++ r ++ p).
  unfold getCloudinaryPublicId_from; fold getCloudinaryPublicId_from.
  rewrite bool_decide_eq_true_2 by reflexivity.
  change (drop 9 ("/"%char :: list_ascii_of_string "resumes/" ++ r ++ p))
    with (r ++ p).
  rewrite span_all by done. simpl.
  destruct r as [|c r]; [by destruct run|].
  by rewrite Hr, string_of_list_ascii_of_string.
Qed.

Lemma getCloudinaryPublicId_stops_at_the_first_dot_witness :
  getCloudinaryPublicId
    ("https://res.cloudinary.com/demo/raw/upload/v1" +:+ "/resumes/" +:+ "A"
     +:+ ". Kumar_1700000000000.pdf")
  = Some ("resumes/" +:+ "A").
Proof.
  apply getCloudinaryPublicId_stops_at_the_first_dot.
  - intros x y H. vm_compute in H.
    repeat (destruct x as [|? x]; [discriminate H|];
            injection H as <- H).
    destruct x; discriminate H.
  - discriminate.
  - reflexivity.
  - intros c [= <-]. reflexivity.
Defined.

End PublicIdFacts.

(* ================================================================== *)
(** * The display of a section                                          *)
(* ================================================================== *)

Section MarkdownFacts.
Import Text Markdown.

Lemma bold_no_star (fuel : nat) (s : list ascii) :
  star ∉ s → bold fuel s = s.
Proof.
  revert s. induction fuel as [|fuel IH]; intros s Hs; [done|].
  simpl. destruct s as [|c1 [|c2 r]]; [done|done|].
  apply not_elem_of_cons in Hs as [Hc Hs].
  destruct (Ascii.eqb_spec c1 star) as [->|_]; [done|]. simpl.
  by rewrite IH.
Qed.

Lemma bold_body_length (s b r : list ascii) :
  bold_body s = Some (b, r) → length r < length s.
Proof.
  revert b r. induction s as [|c1 s IH]; intros b r; [done|].
  simpl. destruct s as [|c2 s]; [done|].
  destruct (Ascii.eqb c1 star && Ascii.eqb c2 star).
  - intros [= _ <-]. simpl. lia.
  - destruct (dot c1); [|done].
    destruct (bold_body (c2 :: s)) as [[b' r']|]; [|done].
    intros [= _ <-]. specialize (IH _ _ eq_refl). simpl in *. lia.
Qed.

(** More fuel than the length of the line changes nothing. *)
Lemma bold_fuel (n fuel1 fuel2 : nat) (s : list ascii) :
  length s ≤ n → n ≤ fuel1 → n ≤ fuel2 → bold fuel1 s = bold fuel2 s.
Proof.
  revert fuel1 fuel2 s.
  induction n as [|n IH]; intros fuel1 fuel2 s Hs H1 H2.
  - destruct s; [|simpl in Hs; lia]. by destruct fuel1, fuel2.
  - destruct fuel1 as [|fuel1]; [lia|]. destruct fuel2 as [|fuel2]; [lia|].
    simpl. destruct s as [|c1 [|c2 r]]; [done|done|].
    simpl in Hs.
    assert (bold fuel1 (c2 :: r) = bold fuel2 (c2 :: r)) as Hrest
      by (apply IH; simpl; lia).
    destruct (Ascii.eqb c1 star && Ascii.eqb c2 star); [|by rewrite Hrest].
    destruct (bold_body r) as [[b r']|] eqn:Hb; [|by rewrite Hrest].
    apply bold_body_length in Hb.
    by rewrite (IH fuel1 fuel2 r') by lia.
Qed.

Lemma bold_body_closed (body post : list ascii) :
  star ∉ body → forallb dot body = true →
  bold_body (body ++ star :: star :: post) = Some (body, post).
Proof.
  intros Hs Hd. induction body as [|c body IH]; [done|].
  apply not_elem_of_cons in Hs as [Hc Hs].
  simpl in Hd. apply andb_true_iff in Hd as [Hdc Hd].
  specialize (IH Hs Hd).
  change ((c :: body) ++ star :: star :: post)
    with (c :: (body ++ star :: star :: post)).
  destruct (body ++ star :: star :: post) as [|c2 r] eqn:Hr.
  { by destruct body. }
  simpl. simpl in IH.
  destruct (Ascii.eqb_spec c star) as [->|_]; [done|]. simpl.
  rewrite Hdc. by rewrite IH.
Qed.

Lemma bold_skip (fuel : nat) (pre s : list ascii) :
  star ∉ pre → length pre ≤ fuel →
  s ≠ [] →
  bold (fuel + length s) (pre ++ s) = pre ++ bold (fuel - length pre + length s) s.
Proof.
  revert pre. induction fuel as [|fuel IH]; intros pre Hp Hlen Hs.
  - destruct pre; [done|simpl in Hlen; lia].
  - destruct pre as [|c pre]; [done|].
    apply not_elem_of_cons in Hp as [Hc Hp]. simpl in Hlen.
    change (S fuel + length s) with (S (fuel + length s)).
    change ((c :: pre) ++ s) with (c :: (pre ++ s)).
    unfold bold; fold bold.
    destruct (pre ++ s) as [|c2 r] eqn:Hr.
    { destruct pre; [by destruct s|done]. }
    destruct (Ascii.eqb_spec c star) as [->|_]; [done|]. simpl.
    rewrite <- Hr. rewrite IH by (done || lia). done.
Qed.

Lemma bold_open (fuel : nat) (r : list ascii) :
  bold (S fuel) (star :: star :: r)
  = match bold_body r with
    | Some (b, r') =>
        list_ascii_of_string "<strong>" ++ b
        ++ list_ascii_of_string "</strong>" ++ bold fuel r'
    | None => star :: bold fuel (star :: r)
    end.
Proof. reflexivity. Qed.

(** X23: a pair of double stars on a line makes its content bold.  A text
    between two double stars, itself without a star or a line terminator,
    is put between [<strong>] and [</strong>]; what stands in front of
    it, when it holds no star, is kept, and what follows is treated in
    the same way. *)
Theorem double_stars_make_bold :
  ∀ (pre body post : list ascii),
    star ∉ pre → star ∉ body → forallb dot body = true →
    let line := pre ++ star :: star :: body ++ star :: star :: post in
    bold (length line) line
    = pre ++ list_ascii_of_string "<strong>" ++ body
      ++ list_ascii_of_string "</strong>" ++ bold (length post) post.
Proof.
  intros pre body post Hpre Hbody Hdot line. subst line.
  set (s := star :: star :: body ++ star :: star :: post).
  rewrite length_app, (bold_skip (length pre) pre s) by done.
  rewrite Nat.sub_diag. f_equal. subst s.
  change (0 + length (star :: star :: body ++ star :: star :: post))
    with (S (S (length (body ++ star :: star :: post)))).
  rewrite bold_open, bold_body_closed by done.
  do 3 f_equal.
  apply bold_fuel with (n := length post); [lia| |lia].
  rewrite length_app. simpl. lia.
Qed.

Lemma double_stars_make_bold_witness :
  bold 18 (list_ascii_of_string "Use **SQL** daily.")
  = list_ascii_of_string "Use <strong>SQL</strong> daily.".
Proof.
  assert (star ∉ list_ascii_of_string "Use ") as Hpre.
  { intros H. repeat (apply elem_of_cons in H as [H|H]; [discriminate H|]).
    by apply elem_of_nil in H. }
  assert (star ∉ list_ascii_of_string "SQL") as Hbody.
  { intros H. repeat (apply elem_of_cons in H as [H|H]; [discriminate H|]).
    by apply elem_of_nil in H. }
  exact (double_stars_make_bold (list_ascii_of_string "Use ")
           (list_ascii_of_string "SQL") (list_ascii_of_string " daily.")
           Hpre Hbody eq_refl).
Defined.

Lemma startsWith_star (s : list ascii) :
  star ∉ s → startsWith s "* " = false.
Proof.
  intros Hs. unfold startsWith. apply bool_decide_eq_false_2. intros H.
  destruct s as [|c s]; [done|]. simpl in H.
  apply not_elem_of_cons in Hs as [Hc _]. unfold star in Hc. congruence.
Qed.

(** X24: a line without markup is inserted as it is.  A line that holds no
    star, is not blank and does not start, once trimmed, with a dash or
    with a number and a dot, makes one paragraph whose HTML is the line
    itself, character for character. *)
Theorem plain_lines_are_inserted_verbatim :
  ∀ line : string,
    star ∉ list_ascii_of_string line →
    Dashboard.LF ∉ list_ascii_of_string line →
    Js.trim (list_ascii_of_string line) ≠ [] →
    startsWith (Js.trim (list_ascii_of_string line)) "- " = false →
    numbered (Js.trim (list_ascii_of_string line)) = None →
    renderMarkdown line = [P line].
Proof.
  intros line Hstar HLF Hblank Hdash Hnum. unfold renderMarkdown.
  rewrite split_lines_line by done.
  rewrite filter_cons_True, filter_nil by done. simpl.
  unfold render_line. rewrite bold_no_star by done.
  rewrite Hdash, Hnum, startsWith_star.
  - simpl. by rewrite string_of_list_ascii_of_string.
  - intros H. apply Hstar. by apply list_elem_of_In, trim_In, list_elem_of_In.
Qed.

Lemma plain_lines_are_inserted_verbatim_witness :
  renderMarkdown "<img src=x onerror=alert(1)>"
  = [P "<img src=x onerror=alert(1)>"].
Proof.
  apply plain_lines_are_inserted_verbatim.
  - intros H. repeat (apply elem_of_cons in H as [H|H]; [discriminate H|]).
    by apply elem_of_nil in H.
  - intros H. repeat (apply elem_of_cons in H as [H|H]; [discriminate H|]).
    by apply elem_of_nil in H.
  - discriminate.
  - reflexivity.
  - reflexivity.
Defined.

Lemma trim_start_app (x y : list ascii) :
  Js.trim_start x ≠ [] → Js.trim_start (x ++ y) = Js.trim_start x ++ y.
Proof.
  induction x as [|c x IH]; intros Hx; [done|]. simpl in *.
  destruct (Js.is_space c); [by apply IH|done].
Qed.

Lemma trim_end_app (x y : list ascii) :
  Js.trim_end y ≠ [] → Js.trim_end (x ++ y) = x ++ Js.trim_end y.
Proof.
  unfold Js.trim_end. intros Hy. rewrite rev_app_distr.
  rewrite trim_start_app.
  - by rewrite rev_app_distr, rev_involutive.
  - intros H. rewrite H in Hy. done.
Qed.

Lemma trim_start_spaces (indent s : list ascii) :
  forallb Js.is_space indent = true →
  Js.trim_start (indent ++ s) = Js.trim_start s.
Proof.
  intros Hi. induction indent as [|c indent IH]; [done|].
  simpl in *. apply andb_true_iff in Hi as [Hc Hi]. rewrite Hc. by apply IH.
Qed.

Lemma trim_end_trim_start (s : list ascii) :
  Js.trim s ≠ [] → Js.trim_end s ≠ [].
Proof.
  unfold Js.trim. intros H Hs. apply H. clear H.
  induction s as [|c s IH]; [done|]. simpl.
  destruct (Js.is_space c) eqn:Hc; [|done].
  destruct (decide (Js.trim_end s = [])) as [He|He]; [by apply IH|].
  change (c :: s) with ([c] ++ s) in Hs. by rewrite trim_end_app in Hs.
Qed.

(** X25: a bullet loses its dash, an indented bullet keeps it.  For an
    item without a star that is not blank, the line [- item] makes a list
    element that holds the item, while the same line behind white space
    makes a list element that holds the whole line, white space and dash
    included. *)
Theorem indented_bullets_keep_their_dash :
  ∀ (indent item : list ascii),
    star ∉ indent ++ item → Js.trim item ≠ [] →
    indent ≠ [] → forallb Js.is_space indent = true →
    let bullet := list_ascii_of_string "- " ++ item in
    render_line bullet = Li (string_of_list_ascii item)
    ∧ render_line (indent ++ bullet)
      = Li (string_of_list_ascii (indent ++ bullet)).
Proof.
  intros indent item Hstar Hitem Hindent Hspace bullet.
  assert (star ∉ bullet) as Hb.
  { subst bullet. simpl. intros H.
    apply elem_of_cons in H as [H|H]; [discriminate H|].
    apply elem_of_cons in H as [H|H]; [discriminate H|].
    apply Hstar. apply elem_of_app. by right. }
  assert (star ∉ indent ++ bullet) as Hib.
  { intros H. apply elem_of_app in H as [H|H]; [|done].
    apply Hstar. apply elem_of_app. by left. }
  assert (Js.trim bullet = list_ascii_of_string "- " ++ Js.trim_end item)
    as Htrim.
  { unfold Js.trim. subst bullet. simpl.
    change ("-"%char :: " "%char :: item)
      with (list_ascii_of_string "- " ++ item).
    apply trim_end_app. by apply trim_end_trim_start. }
  assert (Js.trim (indent ++ bullet) = Js.trim bullet) as Htrim'.
  { unfold Js.trim. by rewrite trim_start_spaces. }
  split.
  - unfold render_line. rewrite bold_no_star by done.
    rewrite Htrim. simpl. reflexivity.
  - unfold render_line. rewrite bold_no_star by done.
    rewrite Htrim', Htrim.
    change (startsWith (list_ascii_of_string "- " ++ Js.trim_end item) "- ")
      with true.
    simpl. f_equal. f_equal. unfold strip_bullet.
    destruct indent as [|c indent]; [done|].
    simpl in Hspace. apply andb_true_iff in Hspace as [Hc _].
    unfold startsWith. rewrite !bool_decide_eq_false_2; [done| |].
    + simpl. destruct indent; simpl; intros [= -> _]; done.
    + simpl. destruct indent; simpl; intros [= -> _]; done.
Qed.

Lemma indented_bullets_keep_their_dash_witness :
  render_line (list_ascii_of_string "- SQL") = Li "SQL"
  ∧ render_line (list_ascii_of_string "  - SQL") = Li "  - SQL".
Proof.
  apply (indented_bullets_keep_their_dash (list_ascii_of_string "  ")
           (list_ascii_of_string "SQL")).
  - intros H. repeat (apply elem_of_cons in H as [H|H]; [discriminate H|]).
    by apply elem_of_nil in H.
  - discriminate.
  - discriminate.
  - reflexivity.
Defined.

End MarkdownFacts.
